(** * HAL/S semantic parser: a shallow embedding of [hals_semantic_parser.py]

    The development follows the Python module top-down: characters and
    string helpers, a backtracking matcher for the fragment of [re] the
    module uses, the data classes, the extraction passes of [HALSParser],
    and the positional queries.

    Modelling conventions.
    - A text is a [string] whose characters are 7-bit ASCII code points; the
      classes [\s], [\w], [\d] and [str.upper] are those of Python on that
      range.
    - Offsets, lines and columns computed by the parser are [nat]; a cursor
      handed in by a client is a Python [int], hence a [Z].
    - [self.symbols] is an insertion-ordered [dict]: an association list in
      which overwriting a key keeps the key's place.
    - A query either returns or raises: [result]. *)

From Stdlib Require Import String Ascii List ZArith Lia Bool Arith PeanoNat.
From Stdlib Require Import Permutation Sorted DecimalString.
Import ListNotations.
Open Scope string_scope.
Open Scope list_scope.
Open Scope nat_scope.

Infix "+++" := String.append (right associativity, at level 60).

(** ** Characters *)

Definition code (c : ascii) : nat := nat_of_ascii c.

Definition is_upper_letter (c : ascii) : bool := (65 <=? code c) && (code c <=? 90).
Definition is_lower_letter (c : ascii) : bool := (97 <=? code c) && (code c <=? 122).
Definition is_letter (c : ascii) : bool := is_upper_letter c || is_lower_letter c.
Definition is_digit (c : ascii) : bool := (48 <=? code c) && (code c <=? 57).

(** [str.isspace] on ASCII: TAB, LF, VT, FF, CR, FS, GS, RS, US and space. *)
Definition is_space (c : ascii) : bool :=
  ((9 <=? code c) && (code c <=? 13)) || ((28 <=? code c) && (code c <=? 32)).

(** [\w] on ASCII.  Python's [re] is Unicode-aware on [str]: above code
    127 it knows further word characters (accented letters, for one),
    which are none here, and [\b] follows [\w].  The embedding is that of
    the code on ASCII text; [ascii_text] below marks this domain, and a
    statement that would not hold of the code beyond it carries it as a
    hypothesis. *)
Definition is_word (c : ascii) : bool :=
  is_letter c || is_digit c || (code c =? 95).

Definition char_upper (c : ascii) : ascii :=
  if is_lower_letter c then ascii_of_nat (code c - 32) else c.
Definition char_lower (c : ascii) : ascii :=
  if is_upper_letter c then ascii_of_nat (code c + 32) else c.

Definition nl : ascii := "010"%char.

(** ** Strings: the [str] methods the module calls *)

Fixpoint upper (s : string) : string :=
  match s with
  | EmptyString => EmptyString
  | String c s' => String (char_upper c) (upper s')
  end.

(** Every character of the text is an ASCII character. *)
Fixpoint ascii_text (s : string) : bool :=
  match s with
  | EmptyString => true
  | String c s' => (code c <? 128) && ascii_text s'
  end.

(** [s.split(sep)] for a one-character separator. *)
Fixpoint split_on (sep : ascii) (s : string) : list string :=
  match s with
  | EmptyString => [EmptyString]
  | String c s' =>
      if Ascii.eqb c sep then EmptyString :: split_on sep s'
      else match split_on sep s' with
           | h :: t => String c h :: t
           | [] => [String c EmptyString]
           end
  end.

(** [sep.join(l)]. *)
Definition join (sep : string) (l : list string) : string := String.concat sep l.

Fixpoint lstrip (s : string) : string :=
  match s with
  | String c s' => if is_space c then lstrip s' else s
  | EmptyString => EmptyString
  end.

Fixpoint rstrip (s : string) : string :=
  match s with
  | String c s' =>
      match rstrip s' with
      | EmptyString => if is_space c then EmptyString else String c EmptyString
      | r => String c r
      end
  | EmptyString => EmptyString
  end.

Definition strip (s : string) : string := rstrip (lstrip s).

Definition startswith (s p : string) : bool := String.prefix p s.

(** [s[a:b]] for [0 <= a <= b]. *)
Definition slice (s : string) (a b : nat) : string := substring a (b - a) s.

(** [s.count(c)] *)
Fixpoint count_char (c : ascii) (s : string) : nat :=
  match s with
  | EmptyString => 0
  | String x s' => (if Ascii.eqb x c then 1 else 0) + count_char c s'
  end.

(** [s.rfind(c)], with [None] for Python's [-1]. *)
Fixpoint rfind_char (c : ascii) (s : string) : option nat :=
  match s with
  | EmptyString => None
  | String x s' =>
      match rfind_char c s' with
      | Some i => Some (S i)
      | None => if Ascii.eqb x c then Some 0 else None
      end
  end.

Definition str_of_nat (n : nat) : string := NilEmpty.string_of_uint (Nat.to_uint n).

Definition mem (w : string) (l : list string) : bool := existsb (String.eqb w) l.

(** ** The fragment of [re] used by the parser

    All patterns are compiled with [re.IGNORECASE]; the comment pattern also
    with [re.DOTALL].  Repetition is only ever applied to a single character
    class, which is what [Star], [Plus] and [LazyStar] take. *)

Inductive citem : Type :=
| Rng (lo hi : ascii)
| Chr (c : ascii).

Inductive cset : Type :=
| Dot                         (* [.] under DOTALL *)
| Space                       (* [\s] *)
| Digit                       (* [\d] *)
| OneOf (l : list citem)      (* [[...]] *)
| NoneOf (l : list citem).    (* [[^...]] *)

Inductive regex : Type :=
| Lit (s : string)            (* literal text *)
| One (cs : cset)             (* one character of a class *)
| WordB                       (* [\b] *)
| Star (cs : cset)            (* [cs*] *)
| Plus (cs : cset)            (* [cs+] *)
| LazyStar (cs : cset)        (* [cs*?] *)
| Cat (r1 r2 : regex)
| Alt (r1 r2 : regex)
| Opt (r : regex)             (* [r?] *)
| Grp (n : nat) (r : regex).  (* capturing group number [n] *)

Definition item_has (it : citem) (c : ascii) : bool :=
  match it with
  | Rng lo hi => (code lo <=? code c) && (code c <=? code hi)
  | Chr x => Ascii.eqb c x
  end.

(** Membership in a bracketed set under IGNORECASE: either case of the
    character may be listed. *)
Definition has_ic (l : list citem) (c : ascii) : bool :=
  existsb (fun it => item_has it (char_lower c) || item_has it (char_upper c)) l.

Definition in_set (cs : cset) (c : ascii) : bool :=
  match cs with
  | Dot => true
  | Space => is_space c
  | Digit => is_digit c
  | OneOf l => has_ic l c
  | NoneOf l => negb (has_ic l c)
  end.

(** A position in the subject: the character before it (for [\b]), what
    is left, and the offset. *)
Record cursor : Type := Cur { prev : option ascii; rest : string; pos : nat }.

Definition captures : Type := list (nat * (nat * nat)).
Definition outcome : Type := option (nat * captures).

Definition word_before (cu : cursor) : bool :=
  match prev cu with Some c => is_word c | None => false end.
Definition word_after (cu : cursor) : bool :=
  match rest cu with String c _ => is_word c | EmptyString => false end.
Definition at_boundary (cu : cursor) : bool := xorb (word_before cu) (word_after cu).

Fixpoint eat_lit (l : string) (p : option ascii) (s : string) (i : nat) : option cursor :=
  match l with
  | EmptyString => Some (Cur p s i)
  | String a l' =>
      match s with
      | String c s' =>
          if Ascii.eqb (char_lower c) (char_lower a) then eat_lit l' (Some c) s' (S i)
          else None
      | EmptyString => None
      end
  end.

(** Greedy repetition: take a character if possible and only fall back
    to the continuation when the longer attempt fails. *)
Fixpoint star_greedy (cs : cset) (k : cursor -> outcome)
         (p : option ascii) (s : string) (i : nat) : outcome :=
  match s with
  | String c s' =>
      if in_set cs c then
        match star_greedy cs k (Some c) s' (S i) with
        | Some r => Some r
        | None => k (Cur p s i)
        end
      else k (Cur p s i)
  | EmptyString => k (Cur p s i)
  end.

(** Lazy repetition: try the continuation first. *)
Fixpoint star_lazy (cs : cset) (k : cursor -> outcome)
         (p : option ascii) (s : string) (i : nat) : outcome :=
  match k (Cur p s i) with
  | Some r => Some r
  | None =>
      match s with
      | String c s' => if in_set cs c then star_lazy cs k (Some c) s' (S i) else None
      | EmptyString => None
      end
  end.

(** The backtracking matcher, in continuation-passing style: [k] is the
    rest of the pattern. *)
Fixpoint run (r : regex) (cu : cursor) (caps : captures)
         (k : cursor -> captures -> outcome) : outcome :=
  match r with
  | Lit l =>
      match eat_lit l (prev cu) (rest cu) (pos cu) with
      | Some cu' => k cu' caps
      | None => None
      end
  | One cs =>
      match rest cu with
      | String c s' => if in_set cs c then k (Cur (Some c) s' (S (pos cu))) caps else None
      | EmptyString => None
      end
  | WordB => if at_boundary cu then k cu caps else None
  | Star cs => star_greedy cs (fun cu' => k cu' caps) (prev cu) (rest cu) (pos cu)
  | Plus cs =>
      match rest cu with
      | String c s' =>
          if in_set cs c
          then star_greedy cs (fun cu' => k cu' caps) (Some c) s' (S (pos cu))
          else None
      | EmptyString => None
      end
  | LazyStar cs => star_lazy cs (fun cu' => k cu' caps) (prev cu) (rest cu) (pos cu)
  | Cat r1 r2 => run r1 cu caps (fun cu' caps' => run r2 cu' caps' k)
  | Alt r1 r2 =>
      match run r1 cu caps k with
      | Some x => Some x
      | None => run r2 cu caps k
      end
  | Opt r1 =>
      match run r1 cu caps k with
      | Some x => Some x
      | None => k cu caps
      end
  | Grp n r1 => run r1 cu caps (fun cu' caps' => k cu' ((n, (pos cu, pos cu')) :: caps'))
  end.

(** An anchored match attempt at a cursor: end offset and groups. *)
Definition match_at (r : regex) (cu : cursor) : outcome :=
  run r cu [] (fun cu' caps => Some (pos cu', caps)).

(** A match object: [start()], [end()] and the group spans. *)
Record rmatch : Type := Match { m_start : nat; m_end : nat; m_caps : captures }.

Fixpoint cap_lookup (n : nat) (caps : captures) : option (nat * nat) :=
  match caps with
  | [] => None
  | (g, sp) :: tl => if Nat.eqb g n then Some sp else cap_lookup n tl
  end.

(** [m.group(n)]: [None] when the group did not take part in the match. *)
Definition group (text : string) (m : rmatch) (n : nat) : option string :=
  match cap_lookup n (m_caps m) with
  | Some (a, b) => Some (slice text a b)
  | None => None
  end.

(** [re.finditer]: leftmost matches, left to right, not overlapping.
    [skip] counts the characters of the last match still to step over. *)
Fixpoint scan (r : regex) (p : option ascii) (s : string) (i skip : nat) : list rmatch :=
  match skip with
  | S n =>
      match s with
      | String c s' => scan r (Some c) s' (S i) n
      | EmptyString => []
      end
  | 0 =>
      match match_at r (Cur p s i) with
      | Some (e, caps) =>
          Match i e caps ::
          match s with
          | String c s' => scan r (Some c) s' (S i) (e - i - 1)
          | EmptyString => []
          end
      | None =>
          match s with
          | String c s' => scan r (Some c) s' (S i) 0
          | EmptyString => []
          end
      end
  end.

Definition finditer (r : regex) (text : string) : list rmatch := scan r None text 0 0.

(** [re.sub(r, '', text)]: the text with every match deleted. *)
Fixpoint delete_matches (r : regex) (p : option ascii) (s : string) (i skip : nat) : string :=
  match s with
  | EmptyString => EmptyString
  | String c s' =>
      match skip with
      | S n => delete_matches r (Some c) s' (S i) n
      | 0 =>
          match match_at r (Cur p s i) with
          | Some (e, _) =>
              if e - i =? 0 then String c (delete_matches r (Some c) s' (S i) 0)
              else delete_matches r (Some c) s' (S i) (e - i - 1)
          | None => String c (delete_matches r (Some c) s' (S i) 0)
          end
      end
  end.

Definition re_sub_empty (r : regex) (text : string) : string := delete_matches r None text 0 0.

Definition chain (l : list regex) : regex := fold_right Cat (Lit "") l.
Definition alts (l : list string) : regex :=
  match l with
  | [] => Lit ""
  | a :: tl => fold_left (fun r s => Alt r (Lit s)) tl (Lit a)
  end.

(** ** The data classes *)

Inductive SymbolKind : Type :=
| PROGRAM | PROCEDURE | FUNCTION | TASK | COMPOOL | VARIABLE
| CONSTANT | STRUCTURE | LABEL | PARAMETER | REPLACE.

Definition kind_value (k : SymbolKind) : string :=
  match k with
  | PROGRAM => "program" | PROCEDURE => "procedure" | FUNCTION => "function"
  | TASK => "task" | COMPOOL => "compool" | VARIABLE => "variable"
  | CONSTANT => "constant" | STRUCTURE => "structure" | LABEL => "label"
  | PARAMETER => "parameter" | REPLACE => "replace"
  end.

Module Symbol.
Record t : Type := Make {
  name : string;
  kind : SymbolKind;
  data_type : string;
  line : nat;
  column : nat;
  end_line : nat;
  end_column : nat;
  scope : string;
  documentation : string;
  parameters : list string;
  dimensions : list string
}.
(** The constructor call of the source, with the dataclass defaults. *)
Definition new (name : string) (kind : SymbolKind) (data_type : string)
           (line column : nat) (documentation : string)
           (parameters dimensions : list string) : t :=
  Make name kind data_type line column 0 0 "global" documentation parameters dimensions.
End Symbol.

Module Reference.
Record t : Type := Make {
  name : string;
  line : nat;
  column : nat;
  end_column : nat;
  context : string
}.
Definition new (name : string) (line column end_column : nat) : t :=
  Make name line column end_column "".
End Reference.

Module Diagnostic.
Record t : Type := Make {
  line : nat;
  column : nat;
  end_column : nat;
  message : string;
  severity : string
}.
End Diagnostic.

(** ** An insertion-ordered dictionary *)

Definition dict (V : Type) : Type := list (string * V).

Fixpoint dict_get {V : Type} (k : string) (d : dict V) : option V :=
  match d with
  | [] => None
  | (k', v) :: tl => if String.eqb k' k then Some v else dict_get k tl
  end.

(** [d[k] = v]: a new key goes last, an old key keeps its place. *)
Fixpoint dict_set {V : Type} (k : string) (v : V) (d : dict V) : dict V :=
  match d with
  | [] => [(k, v)]
  | (k', v') :: tl =>
      if String.eqb k' k then (k, v) :: tl else (k', v') :: dict_set k v tl
  end.

Definition dict_has {V : Type} (k : string) (d : dict V) : bool :=
  match dict_get k d with Some _ => true | None => false end.

(** ** The parser object *)

Definition KEYWORDS : list string :=
  [ "PROGRAM"; "PROCEDURE"; "FUNCTION"; "TASK"; "COMPOOL"; "UPDATE";
    "CLOSE"; "RETURN";
    "DECLARE"; "CONSTANT"; "INITIAL"; "STATIC"; "AUTOMATIC";
    "TEMPORARY"; "DENSE"; "ALIGNED"; "RIGID"; "REMOTE"; "ACCESS";
    "ASSIGN"; "NAME"; "LOCK"; "EXCLUSIVE"; "LATCHED"; "REPLACE";
    "STRUCTURE"; "ARRAY";
    "INTEGER"; "SCALAR"; "VECTOR"; "MATRIX"; "BOOLEAN"; "CHARACTER";
    "BIT"; "EVENT"; "SINGLE"; "DOUBLE";
    "IF"; "THEN"; "ELSE"; "DO"; "END"; "FOR"; "TO"; "BY"; "WHILE";
    "UNTIL"; "REPEAT"; "EXIT"; "GO"; "GOTO"; "CASE";
    "SCHEDULE"; "WAIT"; "SIGNAL"; "PRIORITY"; "TERMINATE"; "CANCEL";
    "SET"; "RESET"; "ON"; "OFF"; "ERROR"; "DEPENDENT"; "IGNORE";
    "READ"; "READALL"; "WRITE"; "FILE";
    "NOT"; "AND"; "OR"; "CAT"; "MOD"; "TRUE"; "FALSE";
    "ABS"; "CEILING"; "FLOOR"; "TRUNCATE"; "ROUND"; "ODD"; "SIGN";
    "MAX"; "MIN"; "SUM"; "PROD"; "SHL"; "SHR"; "SIZE"; "LENGTH";
    "INDEX"; "MIDVAL"; "RANDOM"; "RANDOMG"; "DATE"; "RUNTIME";
    "CLOCKTIME"; "PRIO"; "NEXTIME";
    "SIN"; "COS"; "TAN"; "ARCSIN"; "ARCCOS"; "ARCTAN"; "ARCTAN2";
    "SINH"; "COSH"; "TANH"; "EXP"; "LOG"; "SQRT";
    "TRANSPOSE"; "TRACE"; "DET"; "INVERSE"; "IDENTITY";
    "UNIT"; "ABVAL"; "DOT"; "CROSS" ].

Record HALSParser : Type := Parser {
  symbols : dict Symbol.t;
  references : list Reference.t;
  diagnostics : list Diagnostic.t;
  lines : list string;
  current_scope : string;
  scope_stack : list string
}.

(** [HALSParser.__init__] *)
Definition init : HALSParser := Parser [] [] [] [] "global" ["global"].

(** [self.symbols[key] = sym] *)
Definition set_symbol (key : string) (sym : Symbol.t) (self : HALSParser) : HALSParser :=
  Parser (dict_set key sym (symbols self)) (references self) (diagnostics self)
         (lines self) (current_scope self) (scope_stack self).

(** [self.references.append(r)] *)
Definition append_reference (r : Reference.t) (self : HALSParser) : HALSParser :=
  Parser (symbols self) (references self ++ [r]) (diagnostics self)
         (lines self) (current_scope self) (scope_stack self).

(** *** The patterns *)

Definition dquote : ascii := "034"%char.

Definition id_start : cset := OneOf [Rng "A" "Z"; Chr "_"].
Definition id_cont : cset := OneOf [Rng "A" "Z"; Rng "0" "9"; Chr "_"].
Definition ident : regex := Cat (One id_start) (Star id_cont).
Definition ws : regex := Star Space.
Definition ws1 : regex := Plus Space.
Definition not_rparen : cset := NoneOf [Chr ")"].

Definition program_re : regex :=
  chain [WordB; Grp 1 ident; ws; Lit ":"; ws; Lit "PROGRAM"; ws; Lit ";"].
Definition procedure_re : regex :=
  chain [WordB; Grp 1 ident; ws; Lit ":"; ws; Lit "PROCEDURE"; ws;
       Opt (chain [Lit "("; Grp 2 (Star not_rparen); Lit ")"]); ws; Lit ";"].
Definition function_re : regex :=
  chain [WordB; Grp 1 ident; ws; Lit ":"; ws;
       Opt (Grp 2 (alts ["INTEGER"; "SCALAR"; "VECTOR"; "MATRIX"; "BOOLEAN"; "CHARACTER"; "BIT"]));
       ws; Lit "FUNCTION"; ws;
       Opt (chain [Lit "("; Grp 3 (Star not_rparen); Lit ")"]); ws; Lit ";"].
Definition task_re : regex :=
  chain [WordB; Grp 1 ident; ws; Lit ":"; ws; Lit "TASK"; ws; Lit ";"].
Definition compool_re : regex :=
  chain [WordB; Grp 1 ident; ws; Lit ":"; ws; Lit "COMPOOL"; ws; Lit ";"].
Definition declare_simple_re : regex :=
  chain [WordB; Lit "DECLARE"; ws1; Grp 1 ident; ws1;
       Grp 2 (alts ["INTEGER"; "SCALAR"; "VECTOR"; "MATRIX"; "BOOLEAN"; "CHARACTER"; "BIT"; "EVENT"]);
       ws; Opt (chain [Lit "INITIAL"; ws; Lit "("; Star not_rparen; Lit ")"]); ws; Lit ";"].
Definition declare_array_re : regex :=
  chain [WordB; Lit "DECLARE"; ws1; Grp 1 ident; ws1; Lit "ARRAY"; ws;
       Lit "("; Grp 2 (Plus not_rparen); Lit ")"; ws1;
       Grp 3 (alts ["INTEGER"; "SCALAR"; "VECTOR"; "MATRIX"; "BOOLEAN"; "CHARACTER"; "BIT"]);
       ws; Lit ";"].
Definition declare_constant_re : regex :=
  chain [WordB; Lit "DECLARE"; ws1; Grp 1 ident; ws1; Lit "CONSTANT"; ws;
       Lit "("; Grp 2 (Plus not_rparen); Lit ")"; ws; Lit ";"].
Definition declare_vector_re : regex :=
  chain [WordB; Lit "DECLARE"; ws1; Grp 1 ident; ws1; Lit "VECTOR"; ws;
       Lit "("; Grp 2 (Plus Digit); Lit ")"; ws; Lit ";"].
Definition declare_matrix_re : regex :=
  chain [WordB; Lit "DECLARE"; ws1; Grp 1 ident; ws1; Lit "MATRIX"; ws;
       Lit "("; Grp 2 (Plus Digit); ws; Lit ","; ws; Grp 3 (Plus Digit); Lit ")"; ws; Lit ";"].
Definition structure_re : regex :=
  chain [WordB; Lit "DECLARE"; ws1; Grp 1 ident; ws1; Lit "STRUCTURE"; ws; Lit ";"].
Definition replace_re : regex :=
  chain [WordB; Lit "REPLACE"; ws1; Grp 1 ident; ws1; Lit "BY"; ws1;
       Lit (String dquote ""); Grp 2 (Plus (NoneOf [Chr dquote])); Lit (String dquote "");
       ws; Lit ";"].
Definition label_re : regex := chain [WordB; Grp 1 ident; ws; Lit ":"].
Definition ident_re : regex := chain [WordB; Grp 1 ident; WordB].
Definition comment_re : regex := chain [Lit "/*"; LazyStar Dot; Lit "*/"].

(** *** Preprocessing *)

(** One turn of the loop of [_preprocess_multiline] over [lines]. *)
Definition preprocess_line (result_lines : list string) (line : string) : list string :=
  match line with
  | String c0 tl =>
      let first_char := char_upper c0 in
      if Ascii.eqb first_char "E" || Ascii.eqb first_char "S" then result_lines
      else if Ascii.eqb first_char "M" then
        result_lines ++ [if 1 <? String.length line then tl else ""]
      else if Ascii.eqb first_char "C" then
        result_lines ++ ["/*" +++ tl +++ "*/"]
      else result_lines ++ [line]
  | EmptyString => result_lines ++ [line]
  end.

Definition _preprocess_multiline (text : string) : string :=
  let lines := split_on nl text in
  let result_lines := fold_left preprocess_line lines [] in
  join (String nl "") result_lines.

Definition _remove_comments (text : string) : string := re_sub_empty comment_re text.

Definition _find_position (text : string) (match_start : nat) : nat * nat :=
  let before := slice text 0 match_start in
  let line := count_char nl before in
  let column :=
    match rfind_char nl before with
    | Some last_newline => match_start - last_newline - 1
    | None => match_start
    end in
  (line, column).

(** *** The extraction passes *)

(** [m.group(n)] where the group is known to take part. *)
Definition grp (text : string) (m : rmatch) (n : nat) : string :=
  match group text m n with Some s => s | None => "" end.

(** [[p.strip() for p in params_text.split(',')]] when [params_text] is
    neither [None] nor empty. *)
Definition params_of (params_text : option string) : list string :=
  match params_text with
  | Some (String c s) => map strip (split_on "," (String c s))
  | _ => []
  end.

Definition program_symbol (text : string) (m : rmatch) : Symbol.t :=
  let name := grp text m 1 in
  let '(line, col) := _find_position text (m_start m) in
  Symbol.new (upper name) PROGRAM "PROGRAM" line col "HAL/S Program unit" [] [].

Definition procedure_symbol (text : string) (m : rmatch) : Symbol.t :=
  let name := grp text m 1 in
  let params_text := group text m 2 in
  let '(line, col) := _find_position text (m_start m) in
  let params := params_of params_text in
  Symbol.new (upper name) PROCEDURE "PROCEDURE" line col
    (match params with
     | [] => "Procedure"
     | _ => "Procedure with " +++ str_of_nat (List.length params) +++ " parameters"
     end)
    params [].

Definition function_symbol (text : string) (m : rmatch) : Symbol.t :=
  let name := grp text m 1 in
  let return_type :=
    match group text m 2 with
    | Some (String c s) => String c s
    | _ => "SCALAR"
    end in
  let params_text := group text m 3 in
  let '(line, col) := _find_position text (m_start m) in
  let params := params_of params_text in
  Symbol.new (upper name) FUNCTION (upper return_type +++ " FUNCTION") line col
    ("Function returning " +++ upper return_type) params [].

Definition task_symbol (text : string) (m : rmatch) : Symbol.t :=
  let name := grp text m 1 in
  let '(line, col) := _find_position text (m_start m) in
  Symbol.new (upper name) TASK "TASK" line col "Real-time task (schedulable process)" [] [].

Definition compool_symbol (text : string) (m : rmatch) : Symbol.t :=
  let name := grp text m 1 in
  let '(line, col) := _find_position text (m_start m) in
  Symbol.new (upper name) COMPOOL "COMPOOL" line col "Communication pool (shared data)" [] [].

Definition simple_symbol (text : string) (m : rmatch) : Symbol.t :=
  let name := grp text m 1 in
  let data_type := upper (grp text m 2) in
  let '(line, col) := _find_position text (m_start m) in
  Symbol.new (upper name) VARIABLE data_type line col (data_type +++ " variable") [] [].

Definition array_symbol (text : string) (m : rmatch) : Symbol.t :=
  let name := grp text m 1 in
  let dims := grp text m 2 in
  let data_type := upper (grp text m 3) in
  let '(line, col) := _find_position text (m_start m) in
  Symbol.new (upper name) VARIABLE ("ARRAY(" +++ dims +++ ") " +++ data_type) line col
    ("Array of " +++ data_type +++ " with dimensions (" +++ dims +++ ")")
    [] (map strip (split_on "," dims)).

Definition constant_symbol (text : string) (m : rmatch) : Symbol.t :=
  let name := grp text m 1 in
  let value := grp text m 2 in
  let '(line, col) := _find_position text (m_start m) in
  Symbol.new (upper name) CONSTANT "CONSTANT" line col ("Constant = " +++ value) [] [].

Definition vector_symbol (text : string) (m : rmatch) : Symbol.t :=
  let name := grp text m 1 in
  let size := grp text m 2 in
  let '(line, col) := _find_position text (m_start m) in
  Symbol.new (upper name) VARIABLE ("VECTOR(" +++ size +++ ")") line col
    ("Vector of " +++ size +++ " elements") [] [size].

Definition matrix_symbol (text : string) (m : rmatch) : Symbol.t :=
  let name := grp text m 1 in
  let rows := grp text m 2 in
  let cols := grp text m 3 in
  let '(line, col) := _find_position text (m_start m) in
  Symbol.new (upper name) VARIABLE ("MATRIX(" +++ rows +++ "," +++ cols +++ ")") line col
    ("Matrix of " +++ rows +++ "x" +++ cols +++ " elements") [] [rows; cols].

Definition structure_symbol (text : string) (m : rmatch) : Symbol.t :=
  let name := grp text m 1 in
  let '(line, col) := _find_position text (m_start m) in
  Symbol.new (upper name) STRUCTURE "STRUCTURE" line col "Structure type" [] [].

Definition replace_symbol (text : string) (m : rmatch) : Symbol.t :=
  let name := grp text m 1 in
  let replacement := grp text m 2 in
  let '(line, col) := _find_position text (m_start m) in
  Symbol.new (upper name) REPLACE "REPLACE" line col
    ("Macro expanding to: " +++ replacement) [] [].

Definition label_symbol (text : string) (m : rmatch) : Symbol.t :=
  let name := grp text m 1 in
  let '(line, col) := _find_position text (m_start m) in
  Symbol.new (upper name) LABEL "LABEL" line col "Statement label (GO TO target)" [] [].

(** The body shared by the twelve declaration loops:
    [self.symbols[name.upper()] = Symbol(...)]. *)
Definition record_symbol (mk : string -> rmatch -> Symbol.t) (text : string)
           (self : HALSParser) (m : rmatch) : HALSParser :=
  set_symbol (upper (grp text m 1)) (mk text m) self.

(** A loop [for match in re.finditer(pattern, text, re.IGNORECASE)]. *)
Definition declare_pass (re : regex) (mk : string -> rmatch -> Symbol.t)
           (text : string) (self : HALSParser) : HALSParser :=
  fold_left (record_symbol mk text) (finditer re text) self.

Definition _parse_programs : string -> HALSParser -> HALSParser :=
  declare_pass program_re program_symbol.
Definition _parse_procedures : string -> HALSParser -> HALSParser :=
  declare_pass procedure_re procedure_symbol.
Definition _parse_functions : string -> HALSParser -> HALSParser :=
  declare_pass function_re function_symbol.
Definition _parse_tasks : string -> HALSParser -> HALSParser :=
  declare_pass task_re task_symbol.
Definition _parse_compools : string -> HALSParser -> HALSParser :=
  declare_pass compool_re compool_symbol.

(** The five loops of [_parse_declares], in the order of the source. *)
Definition declares_simple : string -> HALSParser -> HALSParser :=
  declare_pass declare_simple_re simple_symbol.
Definition declares_array : string -> HALSParser -> HALSParser :=
  declare_pass declare_array_re array_symbol.
Definition declares_constant : string -> HALSParser -> HALSParser :=
  declare_pass declare_constant_re constant_symbol.
Definition declares_vector : string -> HALSParser -> HALSParser :=
  declare_pass declare_vector_re vector_symbol.
Definition declares_matrix : string -> HALSParser -> HALSParser :=
  declare_pass declare_matrix_re matrix_symbol.

Definition _parse_declares (text : string) (self : HALSParser) : HALSParser :=
  let self := declares_simple text self in
  let self := declares_array text self in
  let self := declares_constant text self in
  let self := declares_vector text self in
  declares_matrix text self.

Definition _parse_structures : string -> HALSParser -> HALSParser :=
  declare_pass structure_re structure_symbol.
Definition _parse_replaces : string -> HALSParser -> HALSParser :=
  declare_pass replace_re replace_symbol.

Definition unit_keywords : list string :=
  ["PROGRAM"; "PROCEDURE"; "FUNCTION"; "TASK"; "COMPOOL"].

(** Is the colon of this match followed by a program unit keyword? *)
Definition unit_follows (text : string) (m : rmatch) : bool :=
  let after := upper (strip (slice text (m_end m) (m_end m + 20))) in
  existsb (startswith after) unit_keywords.

Definition label_step (text : string) (self : HALSParser) (m : rmatch) : HALSParser :=
  let name := grp text m 1 in
  if unit_follows text m then self
  else if dict_has (upper name) (symbols self) then self
  else set_symbol (upper name) (label_symbol text m) self.

Definition _parse_labels (text : string) (self : HALSParser) : HALSParser :=
  fold_left (label_step text) (finditer label_re text) self.

Definition reference_step (text : string) (self : HALSParser) (m : rmatch) : HALSParser :=
  let name := grp text m 1 in
  if mem (upper name) KEYWORDS then self
  else
    let '(line, col) := _find_position text (m_start m) in
    append_reference (Reference.new (upper name) line col (col + String.length name)) self.

Definition _parse_references (text : string) (self : HALSParser) : HALSParser :=
  fold_left (reference_step text) (finditer ident_re text) self.

(** The text the extraction passes see. *)
Definition cleaned (text : string) : string :=
  _remove_comments (_preprocess_multiline text).

(** [HALSParser.parse]: every field is reassigned, then the passes run
    one after the other on the cleaned text. *)
Definition parse (text : string) (self : HALSParser) : HALSParser :=
  let self := Parser [] [] [] (split_on nl text) "global" ["global"] in
  let processed_text := _preprocess_multiline text in
  let cleaned_text := _remove_comments processed_text in
  let self := _parse_programs cleaned_text self in
  let self := _parse_procedures cleaned_text self in
  let self := _parse_functions cleaned_text self in
  let self := _parse_tasks cleaned_text self in
  let self := _parse_compools cleaned_text self in
  let self := _parse_declares cleaned_text self in
  let self := _parse_structures cleaned_text self in
  let self := _parse_replaces cleaned_text self in
  let self := _parse_labels cleaned_text self in
  _parse_references cleaned_text self.

Definition get_symbols (self : HALSParser) : dict Symbol.t := symbols self.
Definition get_references (self : HALSParser) : list Reference.t := references self.
Definition get_diagnostics (self : HALSParser) : list Diagnostic.t := diagnostics self.

(** ** Queries *)

Inductive exn : Type := IndexError.

Inductive result (A : Type) : Type :=
| Ok (a : A)
| Raise (e : exn).
Arguments Ok {A} a.
Arguments Raise {A} e.

(** [l[i]] with Python's negative indices. *)
Definition list_index {A : Type} (l : list A) (i : Z) : result A :=
  let n := Z.of_nat (List.length l) in
  let j := if (i <? 0)%Z then (i + n)%Z else i in
  if (j <? 0)%Z then Raise IndexError
  else match nth_error l (Z.to_nat j) with
       | Some x => Ok x
       | None => Raise IndexError
       end.

(** [match.start() <= column <= match.end()] *)
Definition covers (column : Z) (m : rmatch) : bool :=
  (Z.of_nat (m_start m) <=? column)%Z && (column <=? Z.of_nat (m_end m))%Z.

(** The loop over the identifiers of a line that stops at the first one
    under the cursor; the word is upper-cased. *)
Definition word_at (line_text : string) (column : Z) : option string :=
  match find (covers column) (finditer ident_re line_text) with
  | Some m => Some (upper (grp line_text m 1))
  | None => None
  end.

Definition get_hover (self : HALSParser) (line column : Z) : result (option string) :=
  if (Z.of_nat (List.length (lines self)) <=? line)%Z then Ok None
  else
    match list_index (lines self) line with
    | Raise e => Raise e
    | Ok line_text =>
        match word_at line_text column with
        | Some word =>
            if mem word KEYWORDS then
              Ok (Some ("**" +++ word +++ "**" +++ String nl (String nl "HAL/S keyword")))
            else
              match dict_get word (symbols self) with
              | Some sym =>
                  Ok (Some ("**" +++ Symbol.name sym +++ "**: " +++ Symbol.data_type sym
                            +++ String nl (String nl (Symbol.documentation sym))))
              | None => Ok None
              end
        | None => Ok None
        end
    end.

Record Location : Type := Loc { loc_line : nat; loc_column : nat; loc_name : string }.

Definition get_definition (self : HALSParser) (line column : Z) : result (option Location) :=
  if (Z.of_nat (List.length (lines self)) <=? line)%Z then Ok None
  else
    match list_index (lines self) line with
    | Raise e => Raise e
    | Ok line_text =>
        match word_at line_text column with
        | Some word =>
            match dict_get word (symbols self) with
            | Some sym => Ok (Some (Loc (Symbol.line sym) (Symbol.column sym) (Symbol.name sym)))
            | None => Ok None
            end
        | None => Ok None
        end
    end.

Record Span : Type := Sp { sp_line : nat; sp_column : nat; sp_end_column : nat }.

Definition get_references_at (self : HALSParser) (line column : Z) : result (list Span) :=
  if (Z.of_nat (List.length (lines self)) <=? line)%Z then Ok []
  else
    match list_index (lines self) line with
    | Raise e => Raise e
    | Ok line_text =>
        match word_at line_text column with
        | None => Ok []
        | Some EmptyString => Ok []
        | Some target_word =>
            Ok (map (fun ref => Sp (Reference.line ref) (Reference.column ref)
                                   (Reference.end_column ref))
                    (filter (fun ref => String.eqb (Reference.name ref) target_word)
                            (references self)))
        end
    end.

Record DocSymbol : Type := Doc {
  doc_name : string; doc_kind : string; doc_detail : string;
  doc_line : nat; doc_column : nat
}.

(** [sorted(l, key=...)]: the stable sort, by insertion from the right. *)
Fixpoint insert_by {A : Type} (key : A -> nat) (x : A) (l : list A) : list A :=
  match l with
  | [] => [x]
  | y :: tl => if key x <=? key y then x :: l else y :: insert_by key x tl
  end.

Definition sorted {A : Type} (key : A -> nat) (l : list A) : list A :=
  fold_right (insert_by key) [] l.

Definition doc_entry (kv : string * Symbol.t) : DocSymbol :=
  let sym := snd kv in
  Doc (Symbol.name sym) (kind_value (Symbol.kind sym)) (Symbol.data_type sym)
      (Symbol.line sym) (Symbol.column sym).

Definition get_document_symbols (self : HALSParser) : list DocSymbol :=
  sorted doc_line (map doc_entry (symbols self)).

(** ** Vocabulary of the statements *)

(** The methods [parse] calls after the reset, in call order. *)
Definition extraction_passes : list (string -> HALSParser -> HALSParser) :=
  [ _parse_programs; _parse_procedures; _parse_functions; _parse_tasks;
    _parse_compools; _parse_declares; _parse_structures; _parse_replaces;
    _parse_labels; _parse_references ].

(** A recognizer: its pattern and the symbol it builds from a match. *)
Definition recognizer : Type := (regex * (string -> rmatch -> Symbol.t))%type.

(** The twelve overwriting recognizers in their fixed order: program,
    procedure, function, task, compool, scalar declare, array declare,
    constant declare, vector declare, matrix declare, structure, replace.
    The label recognizer is the thirteenth. *)
Definition declaration_passes : list recognizer :=
  [ (program_re, program_symbol); (procedure_re, procedure_symbol);
    (function_re, function_symbol); (task_re, task_symbol);
    (compool_re, compool_symbol); (declare_simple_re, simple_symbol);
    (declare_array_re, array_symbol); (declare_constant_re, constant_symbol);
    (declare_vector_re, vector_symbol); (declare_matrix_re, matrix_symbol);
    (structure_re, structure_symbol); (replace_re, replace_symbol) ].

Definition names (n : string) (text : string) (m : rmatch) : bool :=
  String.eqb (upper (grp text m 1)) n.

(** The symbols a recognizer produces for the canonical name [n], in
    text order. *)
Definition produced (p : recognizer) (text n : string) : list Symbol.t :=
  map (snd p text) (filter (names n text) (finditer (fst p) text)).

(** The label symbols proposed for [n]: matches of the label pattern not
    followed by a unit keyword. *)
Definition label_candidates (text n : string) : list Symbol.t :=
  map (label_symbol text)
      (filter (fun m => negb (unit_follows text m) && names n text m)
              (finditer label_re text)).

Definition last_opt {A : Type} (l : list A) : option A :=
  match rev l with
  | [] => None
  | x :: _ => Some x
  end.

(** What a list of recognizers run in order leaves for [n], starting
    from [acc]. *)
Fixpoint last_producer (ps : list recognizer) (text n : string)
         (acc : option Symbol.t) : option Symbol.t :=
  match ps with
  | [] => acc
  | p :: tl =>
      last_producer tl text n
        (match last_opt (produced p text n) with
         | Some s => Some s
         | None => acc
         end)
  end.

(** The continuation-unfolding rule for one line, as the specification
    words it: what the line contributes to the output. *)
Definition unfold_line (line : string) : list string :=
  match line with
  | EmptyString => [line]
  | String c tl =>
      if existsb (Ascii.eqb c) ["E"; "e"; "S"; "s"]%char then []
      else if existsb (Ascii.eqb c) ["M"; "m"]%char then [tl]
      else if existsb (Ascii.eqb c) ["C"; "c"]%char then ["/*" +++ tl +++ "*/"]
      else [line]
  end.

Definition dropped (line : string) : bool :=
  match unfold_line line with
  | [] => true
  | _ => false
  end.





(** The cursor is on a match when it is at one of its characters or just
    behind the last one. *)
Definition on_token (column : Z) (m : rmatch) : Prop :=
  (Z.of_nat (m_start m) <= column <= Z.of_nat (m_end m))%Z.

(** The cursor is at one of the characters of a match. *)
Definition inside_token (column : Z) (m : rmatch) : Prop :=
  (Z.of_nat (m_start m) <= column < Z.of_nat (m_end m))%Z.

Definition NL : string := String nl "".

(** The label scenario of the specification. *)
Definition nav_loop_text : string :=
  "NAV_LOOP:" +++ NL +++ "DO WHILE TRUE;" +++ NL +++ "GO TO NAV_LOOP;" +++ NL +++ "END;".


(** *** Identifier tokens, as the specification describes them *)

Definition is_id_start (c : ascii) : bool := is_letter c || Ascii.eqb c "_".

Definition is_word_opt (p : option ascii) : bool :=
  match p with
  | Some c => is_word c
  | None => false
  end.

(** The longest run of word characters at the head of [s]. *)
Fixpoint take_word (s : string) : string :=
  match s with
  | String c s' => if is_word c then String c (take_word s') else EmptyString
  | EmptyString => EmptyString
  end.

(** The identifier tokens of [s] with their offsets, [s] starting at
    offset [i] behind the character [p]: a token is a maximal run of word
    characters (it starts where the character before is not a word
    character) whose first character is a letter or an underscore. *)
Fixpoint tokens (p : option ascii) (s : string) (i : nat) : list (nat * string) :=
  match s with
  | EmptyString => []
  | String c s' =>
      (if negb (is_word_opt p) && is_id_start c then [(i, take_word s)] else [])
      ++ tokens (Some c) s' (S i)
  end.

(** Line and column of an offset, counted while walking the text. *)
Fixpoint line_col (s : string) (off line col : nat) : nat * nat :=
  match off with
  | 0 => (line, col)
  | S n =>
      match s with
      | String c s' =>
          if Ascii.eqb c nl then line_col s' n (S line) 0 else line_col s' n line (S col)
      | EmptyString => (line, col + off)
      end
  end.

Definition reference_of (text : string) (tok : nat * string) : list Reference.t :=
  let '(off, w) := tok in
  if mem (upper w) KEYWORDS then []
  else
    let '(line, col) := line_col text off 0 0 in
    [Reference.new (upper w) line col (col + String.length w)].

(** One reference per token that is not a keyword, in text order. *)
Definition spec_references (text : string) : list Reference.t :=
  flat_map (reference_of text) (tokens None text 0).

(** The match object of a token. *)
Definition token_match (tok : nat * string) : rmatch :=
  let '(j, w) := tok in
  Match j (j + String.length w) [(1, (j, j + String.length w))].

(** *** Block comments, as the amended specification describes them *)

(** The number of characters up to and including the first [*/]. *)
Fixpoint close_len (s : string) : option nat :=
  match s with
  | EmptyString => None
  | String a s' =>
      match s' with
      | String b _ =>
          if Ascii.eqb a "*" && Ascii.eqb b "/" then Some 2
          else option_map S (close_len s')
      | EmptyString => None
      end
  end.

(** The length of the block comment that starts at the head of [s]: an
    opening [/*] and everything up to the first [*/] behind it. *)
Definition comment_len (s : string) : option nat :=
  match s with
  | String a (String b r) =>
      if Ascii.eqb a "/" && Ascii.eqb b "*"
      then option_map (fun n => 2 + n) (close_len r)
      else None
  | _ => None
  end.

(** Delete the block comments from left to right and keep the rest;
    [skip] counts the characters of the current comment still to drop. *)
Fixpoint strip_from (s : string) (skip : nat) : string :=
  match s with
  | EmptyString => EmptyString
  | String c s' =>
      match skip with
      | S n => strip_from s' n
      | 0 =>
          match comment_len s with
          | Some n => strip_from s' (n - 1)
          | None => String c (strip_from s' 0)
          end
      end
  end.

Definition strip_comments (s : string) : string := strip_from s 0.

(** The comment pattern with a greedy body, [/\*.*\*/]. *)
Definition greedy_comment_re : regex := chain [Lit "/*"; Star Dot; Lit "*/"].

(** *** Identifier-shaped occurrences, as the claim words them *)

Fixpoint all_chars (f : ascii -> bool) (s : string) : bool :=
  match s with
  | EmptyString => true
  | String c s' => f c && all_chars f s'
  end.

(** A letter or underscore followed by letters, digits and underscores. *)
Definition ident_shaped (w : string) : bool :=
  match w with
  | String c r => is_id_start c && all_chars is_word r
  | EmptyString => false
  end.

(** The [len] characters at offset [i] of [t] are identifier-shaped. *)
Definition occurs (t : string) (i len : nat) : bool :=
  (i + len <=? String.length t) && ident_shaped (substring i len t).

(** ... and no identifier-shaped stretch of [t] properly contains them. *)
Definition maximal_occurrence (t : string) (i len : nat) : bool :=
  occurs t i len &&
  forallb (fun i' =>
    forallb (fun len' =>
      negb (occurs t i' len' && (i' <=? i) && (i + len <=? i' + len')
            && negb ((i' =? i) && (len' =? len))))
      (List.seq 0 (S (String.length t))))
    (List.seq 0 (S (String.length t))).

(** How many references record the occurrence at offset [i], length
    [len]. *)
Definition recorded (t : string) (refs : list Reference.t) (i len : nat) : nat :=
  let '(line, col) := line_col t i 0 0 in
  List.length
    (filter (fun r => String.eqb (Reference.name r) (upper (substring i len t))
                      && (Reference.line r =? line) && (Reference.column r =? col)
                      && (Reference.end_column r =? col + len))
            refs).

(** *** Degenerate inputs *)


(** The first characters the continuation unfolding reacts to. *)
Definition is_marker (c : ascii) : bool :=
  existsb (Ascii.eqb c) ["E"; "e"; "S"; "s"; "M"; "m"; "C"; "c"]%char.

(** All patterns of the parser, the identifier pattern included. *)
Definition all_patterns : list regex :=
  [ program_re; procedure_re; function_re; task_re; compool_re;
    declare_simple_re; declare_array_re; declare_constant_re;
    declare_vector_re; declare_matrix_re; structure_re; replace_re;
    label_re; ident_re ].


(** Inputs of the worked examples. *)
Definition shadowed_text : string := "X: PROGRAM;" +++ NL +++ "DECLARE X SCALAR;".
Definition continued_text : string := "E1" +++ NL +++ "X: PROGRAM;".

(** ** Further vocabulary: positions, line structure, comments *)

(** The offset of the first character of line number [line]. *)
Fixpoint line_start (lines : list string) (line : nat) : nat :=
  match line, lines with
  | S n, l :: tl => S (String.length l) + line_start tl n
  | _, _ => 0
  end.

(** No line begins with one of the continuation markers. *)
Definition plain_line (l : string) : bool :=
  match l with
  | String c _ => negb (is_marker c)
  | EmptyString => true
  end.

Definition no_marker_lines (text : string) : bool :=
  forallb plain_line (split_on nl text).

(** The characters [a], [b] occur next to each other in [s]. *)
Fixpoint has_pair (a b : ascii) (s : string) : bool :=
  match s with
  | String x s' =>
      match s' with
      | String y _ => (Ascii.eqb x a && Ascii.eqb y b) || has_pair a b s'
      | EmptyString => false
      end
  | EmptyString => false
  end.

Definition has_char (a : ascii) (s : string) : bool :=
  negb (all_chars (fun c => negb (Ascii.eqb c a)) s).

(** [a] is [b] with some characters left out. *)
Inductive Subseq : string -> string -> Prop :=
| Subseq_nil : Subseq EmptyString EmptyString
| Subseq_keep (c : ascii) (a b : string) : Subseq a b -> Subseq (String c a) (String c b)
| Subseq_drop (c : ascii) (a b : string) : Subseq a b -> Subseq a (String c b).

(** The lines of a text that the continuation unfolding does not drop. *)
Definition without_dropped_lines (text : string) : string :=
  join NL (filter (fun l => negb (dropped l)) (split_on nl text)).

(** A marker that starts a comment line. *)
Definition is_comment_marker (c : ascii) : bool :=
  Ascii.eqb c "C" || Ascii.eqb c "c".

(** *** Invariants of the tables *)

(** A table entry is filed under the name of its symbol, and the name is
    in canonical (upper-case) form. *)
Definition canonical_entry (kv : string * Symbol.t) : Prop :=
  fst kv = Symbol.name (snd kv) /\ upper (fst kv) = fst kv.

(** What no pass ever fills in: an end position, a scope other than the
    global one, the parameter kind. *)
Definition flat_entry (kv : string * Symbol.t) : Prop :=
  Symbol.end_line (snd kv) = 0 /\ Symbol.end_column (snd kv) = 0 /\
  Symbol.scope (snd kv) = "global" /\ Symbol.kind (snd kv) <> PARAMETER.

(** The thirteen symbol constructors of the passes. *)
Definition symbol_makers : list (string -> rmatch -> Symbol.t) :=
  [ program_symbol; procedure_symbol; function_symbol; task_symbol;
    compool_symbol; simple_symbol; array_symbol; constant_symbol;
    vector_symbol; matrix_symbol; structure_symbol; replace_symbol;
    label_symbol ].

(** Document order of references. *)
Definition ref_before (r1 r2 : Reference.t) : Prop :=
  Reference.line r1 < Reference.line r2 \/
  (Reference.line r1 = Reference.line r2 /\ Reference.column r1 < Reference.column r2).

Definition pos_before (p1 p2 : nat * nat) : Prop :=
  fst p1 < fst p2 \/ (fst p1 = fst p2 /\ snd p1 < snd p2).

(** A reference is well formed: canonical name, no keyword, and a span
    as long as the name. *)
Definition reference_ok (r : Reference.t) : Prop :=
  upper (Reference.name r) = Reference.name r /\
  mem (Reference.name r) KEYWORDS = false /\
  Reference.end_column r = Reference.column r + String.length (Reference.name r) /\
  Reference.name r <> "" /\
  Reference.context r = "".

(** ** [get_completions] *)

Record Completion : Type := Comp {
  comp_label : string; comp_kind : string; comp_detail : string;
  comp_documentation : string
}.

(** [sorted(self.KEYWORDS)]: the keywords are distinct strings, so their
    ascending order does not depend on the iteration order of the set. *)
Fixpoint insert_str (x : string) (l : list string) : list string :=
  match l with
  | [] => [x]
  | y :: tl => if String.leb x y then x :: l else y :: insert_str x tl
  end.

Definition sorted_strings (l : list string) : list string :=
  fold_right insert_str [] l.

Definition keyword_item (kw : string) : Completion :=
  Comp kw "keyword" "HAL/S keyword" ("HAL/S keyword: " +++ kw).

Definition symbol_item (kv : string * Symbol.t) : Completion :=
  let sym := snd kv in
  Comp (Symbol.name sym) (kind_value (Symbol.kind sym)) (Symbol.data_type sym)
       (Symbol.documentation sym).

Definition get_completions (self : HALSParser) (line column : Z) : list Completion :=
  map keyword_item (sorted_strings KEYWORDS) ++ map symbol_item (symbols self).

Fixpoint ascending (l : list string) : bool :=
  match l with
  | a :: tl =>
      match tl with
      | b :: _ => String.ltb a b && ascending tl
      | [] => true
      end
  | [] => true
  end.

(** ** Cursors along a subject *)

(** [cu'] is [cu] or lies further along the same subject. *)
Inductive ahead : cursor -> cursor -> Prop :=
| ahead_here (cu : cursor) : ahead cu cu
| ahead_step (p : option ascii) (c : ascii) (s : string) (i : nat) (cu' : cursor) :
    ahead (Cur (Some c) s (S i)) cu' -> ahead (Cur p (String c s) i) cu'.

(** The cursor behind the run of word characters at a cursor. *)
Fixpoint skip_word (p : option ascii) (s : string) (i : nat) : cursor :=
  match s with
  | String c s' => if is_word c then skip_word (Some c) s' (S i) else Cur p s i
  | EmptyString => Cur p s i
  end.

(** The pattern has no group numbered 1. *)
Fixpoint keeps1 (r : regex) : bool :=
  match r with
  | Cat r1 r2 | Alt r1 r2 => keeps1 r1 && keeps1 r2
  | Opt r1 => keeps1 r1
  | Grp n r1 => negb (n =? 1) && keeps1 r1
  | _ => true
  end.

(** The pattern fails in front of a word character, whatever follows. *)
Definition blocks (r : regex) : Prop :=
  forall cu caps k, word_after cu = true -> run r cu caps k = None.

(** Group 1 of a match that starts at [cu0] is an identifier token: it
    starts at a cursor behind a non-word character, on a letter or
    underscore, and spans the whole run of word characters there. *)
Definition names_token (cu0 : cursor) (caps : captures) : Prop :=
  exists cu c s',
    ahead cu0 cu /\ rest cu = String c s' /\
    is_word_opt (prev cu) = false /\ is_id_start c = true /\
    cap_lookup 1 caps =
      Some (pos cu, pos cu + String.length (take_word (rest cu))).

(** The two shapes of the symbol patterns: a name in front of a colon,
    and a name behind a keyword. *)
Definition unit_shape (tail : regex) : regex :=
  Cat WordB (Cat (Grp 1 ident) (Cat ws (Cat (Lit ":") tail))).

Definition keyword_shape (kw : string) (tail : regex) : regex :=
  Cat WordB (Cat (Lit kw) (Cat ws1 (Cat (Grp 1 ident) (Cat ws1 tail)))).

(** The patterns of the thirteen symbol passes. *)
Definition symbol_patterns : list regex :=
  [ program_re; procedure_re; function_re; task_re; compool_re;
    declare_simple_re; declare_array_re; declare_constant_re;
    declare_vector_re; declare_matrix_re; structure_re; replace_re;
    label_re ].

(** The thirteen symbol passes: pattern and constructor. *)
Definition symbol_passes : list recognizer :=
  declaration_passes ++ [(label_re, label_symbol)].

(** The name of an entry is referenced, unless it is a keyword. *)
Definition referenced_in (refs : list Reference.t) (kv : string * Symbol.t) : Prop :=
  mem (fst kv) KEYWORDS = false ->
  exists r, In r refs /\ Reference.name r = fst kv.

(** The declaration position of an entry is a position of the text. *)
Definition positioned_in (text : string) (kv : string * Symbol.t) : Prop :=
  exists l,
    nth_error (split_on nl text) (Symbol.line (snd kv)) = Some l /\
    Symbol.column (snd kv) <= String.length l.

(** The span of a reference lies in a line of the text and holds the
    reference's name, up to case. *)
Definition points_at_name (text : string) (r : Reference.t) : Prop :=
  exists l,
    nth_error (split_on nl text) (Reference.line r) = Some l /\
    Reference.end_column r <= String.length l /\
    upper (slice l (Reference.column r) (Reference.end_column r)) = Reference.name r.

(** The word that stands at the declaration position of a symbol: the
    name for units and labels, the introducing keyword for declared data
    and macros. *)
Definition anchor (sym : Symbol.t) : string :=
  match Symbol.kind sym with
  | VARIABLE | CONSTANT | STRUCTURE => "DECLARE"
  | REPLACE => "REPLACE"
  | _ => Symbol.name sym
  end.

Definition anchored_in (text : string) (kv : string * Symbol.t) : Prop :=
  exists l,
    nth_error (split_on nl text) (Symbol.line (snd kv)) = Some l /\
    upper (slice l (Symbol.column (snd kv))
                 (Symbol.column (snd kv) + String.length (anchor (snd kv))))
    = anchor (snd kv).

(** The text at the start of a match, as far as the anchor reaches. *)
Definition starts_with_anchor (text : string) (m : rmatch) (sym : Symbol.t) : Prop :=
  exists pre w post,
    text = pre +++ w +++ post /\ String.length pre = m_start m /\
    has_char nl w = false /\ upper w = anchor sym.

(** * The language server: [hals_lsp_server.py]

    The handlers read their parameters with [dict.get] and a default for
    every key.  The model gives a request the shape the protocol
    prescribes, every field optional, and applies the same defaults: a
    field that is [None] here is a key that is missing.  A member that is
    JSON [null], or of another type than the protocol gives it, is not a
    message of the model; on such a message the code raises
    [AttributeError] or [TypeError] from the handler, and no statement
    below is about it.
    Reading from standard input, writing to standard output and the JSON
    encoding ([_read_message], [_send_message], [start]) are not part of
    the model: a handler returns its result and the notifications it
    sends. *)

Record TextDocument : Type := TD { td_uri : option string; td_text : option string }.
Record Position : Type := Pos { pos_line : option Z; pos_character : option Z }.
Record Change : Type := Chg { chg_text : option string }.

Record Params : Type := Prm {
  p_textDocument : option TextDocument;
  p_position : option Position;
  p_contentChanges : option (list Change)
}.

(** [{}] *)
Definition no_params : Params := Prm None None None.

Definition default {A : Type} (d : A) (o : option A) : A :=
  match o with
  | Some a => a
  | None => d
  end.

(** [params.get('textDocument', {}).get('uri', '')] *)
Definition uri_of (params : Params) : string :=
  match p_textDocument params with
  | Some doc => default "" (td_uri doc)
  | None => ""
  end.

(** [params.get('textDocument', {}).get('text', '')] *)
Definition text_of (params : Params) : string :=
  match p_textDocument params with
  | Some doc => default "" (td_text doc)
  | None => ""
  end.

(** [params.get('position', {}).get('line', 0)] and [... 'character'] *)
Definition line_of (params : Params) : Z :=
  match p_position params with
  | Some position => default 0%Z (pos_line position)
  | None => 0%Z
  end.

Definition char_of (params : Params) : Z :=
  match p_position params with
  | Some position => default 0%Z (pos_character position)
  | None => 0%Z
  end.

Record Range : Type := Rng4 {
  start_line : nat; start_character : nat; end_line : nat; end_character : nat
}.

Record DiagnosticJson : Type := DiagJ {
  dj_range : Range; dj_message : string; dj_severity : Z
}.

(** What the server writes to the client besides responses. *)
Inductive notification : Type :=
| PublishDiagnostics (uri : string) (diagnostics : list DiagnosticJson)
| LogMessage (type : Z) (message : string).

Record CompletionJson : Type := CompJ {
  cj_label : string; cj_kind : Z; cj_detail : string; cj_documentation : string
}.

Record LocationJson : Type := LocJ { lj_uri : string; lj_range : Range }.

Record DocumentSymbolJson : Type := SymJ {
  sj_name : string; sj_kind : Z; sj_range : Range; sj_selectionRange : Range;
  sj_detail : string
}.

(** The value a handler returns. *)
Inductive reply : Type :=
| RNone
| RInitialize
| RCompletion (items : list CompletionJson)
| RHover (markdown : string)
| RLocation (l : LocationJson)
| RLocations (l : list LocationJson)
| RSymbols (l : list DocumentSymbolJson).

Record HALSLanguageServer : Type := Srv {
  parser : HALSParser;
  documents : dict string;
  running : bool
}.

(** [HALSLanguageServer.__init__] *)
Definition server_init : HALSLanguageServer := Srv init [] true.

(** A handler: its result or the exception it raises, the server
    afterwards, and the notifications sent on the way. *)
Definition handled : Type := (result reply * HALSLanguageServer * list notification)%type.

(** [del d[k]] for a key that is present; without it nothing changes. *)
Fixpoint dict_del {V : Type} (k : string) (d : dict V) : dict V :=
  match d with
  | [] => []
  | (k', v) :: tl => if String.eqb k' k then tl else (k', v) :: dict_del k tl
  end.

(** [self._log(message)] *)
Definition _log (message : string) : notification :=
  LogMessage 3 ("[HAL/S] " +++ message).

Definition diagnostic_json (diag : Diagnostic.t) : DiagnosticJson :=
  DiagJ (Rng4 (Diagnostic.line diag) (Diagnostic.column diag)
              (Diagnostic.line diag) (Diagnostic.end_column diag))
        (Diagnostic.message diag)
        (if String.eqb (Diagnostic.severity diag) "error" then 1%Z else 2%Z).

Definition _parse_and_publish (uri text : string) (self : HALSLanguageServer)
  : HALSLanguageServer * list notification :=
  let parser' := parse text (parser self) in
  let diagnostics := map diagnostic_json (get_diagnostics parser') in
  (Srv parser' (documents self) (running self), [PublishDiagnostics uri diagnostics]).

(** [if uri in self.documents: self.parser.parse(self.documents[uri])] *)
Definition reparse_if_open (uri : string) (self : HALSLanguageServer) : HALSLanguageServer :=
  match dict_get uri (documents self) with
  | Some text => Srv (parse text (parser self)) (documents self) (running self)
  | None => self
  end.

Definition _handle_initialize (params : Params) (self : HALSLanguageServer) : handled :=
  (Ok RInitialize, self, []).

Definition _handle_initialized (params : Params) (self : HALSLanguageServer) : handled :=
  (Ok RNone, self,
   [_log "HAL/S Language Server ready - NASA Space Shuttle flight software language"]).

Definition _handle_shutdown (params : Params) (self : HALSLanguageServer) : handled :=
  (Ok RNone, self, []).

Definition _handle_exit (params : Params) (self : HALSLanguageServer) : handled :=
  (Ok RNone, Srv (parser self) (documents self) false, []).

Definition _handle_did_open (params : Params) (self : HALSLanguageServer) : handled :=
  let uri := uri_of params in
  let text := text_of params in
  let self := Srv (parser self) (dict_set uri text (documents self)) (running self) in
  let '(self, out) := _parse_and_publish uri text self in
  (Ok RNone, self, out).

Definition _handle_did_change (params : Params) (self : HALSLanguageServer) : handled :=
  let uri := uri_of params in
  match default [] (p_contentChanges params) with
  | change :: _ =>
      let text := default "" (chg_text change) in
      let self := Srv (parser self) (dict_set uri text (documents self)) (running self) in
      let '(self, out) := _parse_and_publish uri text self in
      (Ok RNone, self, out)
  | [] => (Ok RNone, self, [])
  end.

Definition _handle_did_close (params : Params) (self : HALSLanguageServer) : handled :=
  let uri := uri_of params in
  if dict_has uri (documents self)
  then (Ok RNone, Srv (parser self) (dict_del uri (documents self)) (running self), [])
  else (Ok RNone, self, []).

Fixpoint assoc_default {V : Type} (k : string) (d : V) (l : list (string * V)) : V :=
  match l with
  | [] => d
  | (k', v) :: tl => if String.eqb k' k then v else assoc_default k d tl
  end.

Definition completion_kind_map : list (string * Z) :=
  [ ("keyword", 14); ("program", 2); ("procedure", 3); ("function", 3);
    ("task", 2); ("compool", 2); ("variable", 6); ("constant", 21);
    ("structure", 22); ("label", 20); ("replace", 15); ("parameter", 6) ]%Z.

Definition _handle_completion (params : Params) (self : HALSLanguageServer) : handled :=
  let uri := uri_of params in
  let line := line_of params in
  let char := char_of params in
  let self := reparse_if_open uri self in
  let completions := get_completions (parser self) line char in
  (Ok (RCompletion
         (map (fun c => CompJ (comp_label c)
                              (assoc_default (comp_kind c) 6%Z completion_kind_map)
                              (comp_detail c) (comp_documentation c))
              completions)),
   self, []).

Definition _handle_hover (params : Params) (self : HALSLanguageServer) : handled :=
  let uri := uri_of params in
  let line := line_of params in
  let char := char_of params in
  let self := reparse_if_open uri self in
  match get_hover (parser self) line char with
  | Raise e => (Raise e, self, [])
  | Ok (Some contents) => (Ok (RHover contents), self, [])
  | Ok None => (Ok RNone, self, [])
  end.

Definition _handle_definition (params : Params) (self : HALSLanguageServer) : handled :=
  let uri := uri_of params in
  let line := line_of params in
  let char := char_of params in
  let self := reparse_if_open uri self in
  match get_definition (parser self) line char with
  | Raise e => (Raise e, self, [])
  | Ok (Some definition) =>
      (Ok (RLocation
             (LocJ uri (Rng4 (loc_line definition) (loc_column definition)
                             (loc_line definition)
                             (loc_column definition + String.length (loc_name definition))))),
       self, [])
  | Ok None => (Ok RNone, self, [])
  end.

Definition _handle_references (params : Params) (self : HALSLanguageServer) : handled :=
  let uri := uri_of params in
  let line := line_of params in
  let char := char_of params in
  let self := reparse_if_open uri self in
  match get_references_at (parser self) line char with
  | Raise e => (Raise e, self, [])
  | Ok refs =>
      (Ok (RLocations
             (map (fun ref => LocJ uri (Rng4 (sp_line ref) (sp_column ref)
                                             (sp_line ref) (sp_end_column ref)))
                  refs)),
       self, [])
  end.

Definition symbol_kind_map : list (string * Z) :=
  [ ("program", 2); ("procedure", 12); ("function", 12); ("task", 2);
    ("compool", 2); ("variable", 13); ("constant", 14); ("structure", 23);
    ("label", 20); ("replace", 15); ("parameter", 13) ]%Z.

Definition document_symbol_json (sym : DocSymbol) : DocumentSymbolJson :=
  let range := Rng4 (doc_line sym) (doc_column sym) (doc_line sym)
                    (doc_column sym + String.length (doc_name sym)) in
  SymJ (doc_name sym) (assoc_default (doc_kind sym) 13%Z symbol_kind_map)
       range range (doc_detail sym).

Definition _handle_document_symbol (params : Params) (self : HALSLanguageServer) : handled :=
  let uri := uri_of params in
  let self := reparse_if_open uri self in
  (Ok (RSymbols (map document_symbol_json (get_document_symbols (parser self)))), self, []).

(** *** Dispatch *)

Inductive request_id : Type :=
| IdNumber (n : Z)
| IdString (s : string).

Record Message : Type := Msg {
  msg_method : option string;
  msg_id : option request_id;
  msg_params : option Params
}.

Inductive Response : Type :=
| Result (id : request_id) (result : reply)
| Error (id : request_id) (code : Z) (message : string).

Definition handlers : list (string * (Params -> HALSLanguageServer -> handled)) :=
  [ ("initialize", _handle_initialize);
    ("initialized", _handle_initialized);
    ("shutdown", _handle_shutdown);
    ("exit", _handle_exit);
    ("textDocument/didOpen", _handle_did_open);
    ("textDocument/didChange", _handle_did_change);
    ("textDocument/didClose", _handle_did_close);
    ("textDocument/completion", _handle_completion);
    ("textDocument/hover", _handle_hover);
    ("textDocument/definition", _handle_definition);
    ("textDocument/references", _handle_references);
    ("textDocument/documentSymbol", _handle_document_symbol) ].

Definition _handle_message (message : Message) (self : HALSLanguageServer)
  : result (option Response) * HALSLanguageServer * list notification :=
  let method := default "" (msg_method message) in
  let params := default no_params (msg_params message) in
  match dict_get method handlers with
  | Some handler =>
      match handler params self with
      | (Ok result, self', out) =>
          (Ok (match msg_id message with
               | Some id => Some (Result id result)
               | None => None
               end), self', out)
      | (Raise e, self', out) => (Raise e, self', out)
      end
  | None =>
      (Ok (match msg_id message with
           | Some id => Some (Error id (-32601)%Z ("Method not found: " +++ method))
           | None => None
           end), self, [])
  end.

(** The methods that only read the document store and the parser. *)
Definition query_methods : list string :=
  [ "textDocument/completion"; "textDocument/hover"; "textDocument/definition";
    "textDocument/references"; "textDocument/documentSymbol" ].

(** The parts of what [_handle_message] returns. *)
Definition response_of (h : result (option Response) * HALSLanguageServer * list notification)
  : result (option Response) := fst (fst h).
Definition server_of (h : result (option Response) * HALSLanguageServer * list notification)
  : HALSLanguageServer := snd (fst h).
Definition sent_by (h : result (option Response) * HALSLanguageServer * list notification)
  : list notification := snd h.

(** A request or notification about the document [uri]. *)
Definition about (uri : string) (params : Params) : Prop := uri_of params = uri.

Definition did_open_params (uri text : string) : Params :=
  Prm (Some (TD (Some uri) (Some text))) None None.

Definition did_close_params (uri : string) : Params :=
  Prm (Some (TD (Some uri) None)) None None.

Definition range_on_one_line (r : Range) : Prop := start_line r = end_line r.

(** The three queries that look a line up. *)
Definition cursor_methods : list string :=
  [ "textDocument/hover"; "textDocument/definition"; "textDocument/references" ].

Definition well_formed_symbol (j : DocumentSymbolJson) : Prop :=
  sj_selectionRange j = sj_range j /\
  range_on_one_line (sj_range j) /\
  end_character (sj_range j) = start_character (sj_range j) + String.length (sj_name j).

(** The invariant a table satisfies, for a property [P] of entries. *)
Definition table_inv (P : string * Symbol.t -> Prop) (self : HALSParser) : Prop :=
  NoDup (map fst (symbols self)) /\ Forall P (symbols self).


(** * Reported positions and the lines of the input *)








(** ** No pattern of the parser matches the empty string

    [scan] and [delete_matches] step over a match by its length; the rule
    of [re] for resuming after an empty match is never needed. *)

Lemma eat_lit_pos l : forall p s i cu,
  eat_lit l p s i = Some cu -> pos cu = i + String.length l.
Proof.
  induction l as [|a l IH]; intros p s i cu H; cbn [eat_lit] in H.
  - injection H as <-. cbn. lia.
  - destruct s as [|c s]; [discriminate|].
    destruct (Ascii.eqb _ _); [|discriminate].
    apply IH in H. cbn [String.length]. lia.
Qed.

Lemma star_greedy_reaches cs K s : forall p i res,
  star_greedy cs K p s i = Some res ->
  exists cu, i <= pos cu /\ K cu = Some res.
Proof.
  induction s as [|c s IH]; intros p i res H; cbn [star_greedy] in H.
  - eexists. split; [|exact H]. cbn. lia.
  - destruct (in_set cs c).
    + destruct (star_greedy cs K (Some c) s (S i)) eqn:E.
      * injection H as <-. destruct (IH _ _ _ E) as (cu & Hle & Hk).
        exists cu. split; [lia | exact Hk].
      * eexists. split; [|exact H]. cbn. lia.
    + eexists. split; [|exact H]. cbn. lia.
Qed.

Lemma star_lazy_reaches cs K s : forall p i res,
  star_lazy cs K p s i = Some res ->
  exists cu, i <= pos cu /\ K cu = Some res.
Proof.
  induction s as [|c s IH]; intros p i res H; cbn [star_lazy] in H.
  - destruct (K (Cur p "" i)) eqn:E; [|discriminate].
    exists (Cur p "" i). split; [cbn; lia | congruence].
  - destruct (K (Cur p (String c s) i)) eqn:E.
    + exists (Cur p (String c s) i). split; [cbn; lia | congruence].
    + destruct (in_set cs c); [|discriminate].
      destruct (IH _ _ _ H) as (cu & Hle & Hk). exists cu. split; [lia | exact Hk].
Qed.

(** A successful run hands over to its continuation at a position that
    is not before the start. *)
Lemma run_reaches r : forall cu caps k res,
  run r cu caps k = Some res ->
  exists cu' caps', pos cu <= pos cu' /\ k cu' caps' = Some res.
Proof.
  induction r as [l|cs| |cs|cs|cs|r1 IH1 r2 IH2|r1 IH1 r2 IH2|r1 IH1|n r1 IH1];
    intros cu caps k res H; cbn [run] in H.
  - destruct (eat_lit l (prev cu) (rest cu) (pos cu)) as [cu'|] eqn:E; [|discriminate].
    apply eat_lit_pos in E. exists cu', caps. split; [lia | exact H].
  - destruct (rest cu) as [|c s]; [discriminate|].
    destruct (in_set cs c); [|discriminate].
    eexists _, caps. split; [|exact H]. cbn. lia.
  - destruct (at_boundary cu); [|discriminate]. exists cu, caps. split; [lia | exact H].
  - apply star_greedy_reaches in H. destruct H as (cu' & Hle & Hk).
    exists cu', caps. split; assumption.
  - destruct (rest cu) as [|c s]; [discriminate|].
    destruct (in_set cs c); [|discriminate].
    apply star_greedy_reaches in H. destruct H as (cu' & Hle & Hk).
    exists cu', caps. split; [lia | exact Hk].
  - apply star_lazy_reaches in H. destruct H as (cu' & Hle & Hk).
    exists cu', caps. split; assumption.
  - apply IH1 in H. destruct H as (cu1 & caps1 & Hle1 & H).
    apply IH2 in H. destruct H as (cu2 & caps2 & Hle2 & H).
    exists cu2, caps2. split; [lia | exact H].
  - destruct (run r1 cu caps k) eqn:E.
    + injection H as <-. now apply IH1 in E.
    + now apply IH2 in H.
  - destruct (run r1 cu caps k) eqn:E.
    + injection H as <-. now apply IH1 in E.
    + exists cu, caps. split; [lia | exact H].
  - apply IH1 in H. destruct H as (cu1 & caps1 & Hle1 & H).
    eexists _, _. split; [exact Hle1 | exact H].
Qed.

Lemma lit_advances a l r cu caps k res :
  run (Cat (Lit (String a l)) r) cu caps k = Some res ->
  exists cu' caps', pos cu < pos cu' /\ k cu' caps' = Some res.
Proof.
  cbn [run]. intro H.
  destruct (eat_lit _ _ _ _) as [cu1|] eqn:E; [|discriminate].
  apply eat_lit_pos in E. cbn [String.length] in E.
  apply run_reaches in H. destruct H as (cu2 & caps2 & Hle & H).
  exists cu2, caps2. split; [lia | exact H].
Qed.

Lemma ident_advances n r cu caps k res :
  run (Cat (Grp n ident) r) cu caps k = Some res ->
  exists cu' caps', pos cu < pos cu' /\ k cu' caps' = Some res.
Proof.
  unfold ident. cbn [run]. intro H.
  destruct (rest cu) as [|c s]; [discriminate|].
  destruct (in_set id_start c); [|discriminate].
  apply star_greedy_reaches in H. destruct H as (cu1 & Hle1 & H).
  apply run_reaches in H. destruct H as (cu2 & caps2 & Hle2 & H).
  cbn [pos] in Hle1. exists cu2, caps2. split; [lia | exact H].
Qed.

Lemma behind_boundary r cu caps k res :
  run (Cat WordB r) cu caps k = Some res -> run r cu caps k = Some res.
Proof. cbn [run]. destruct (at_boundary cu); [tauto | discriminate]. Qed.

Lemma matches_are_nonempty :
  Forall (fun r => forall cu e caps, match_at r cu = Some (e, caps) -> pos cu < e)
         (comment_re :: all_patterns).
Proof.
  unfold all_patterns.
  repeat (apply Forall_cons;
    [ intros cu e caps; unfold match_at;
      match goal with
      | |- run ?r _ _ _ = _ -> _ => unfold r, chain; cbn [fold_right]
      end;
      intro H;
      try apply behind_boundary in H;
      first [ apply lit_advances in H | apply ident_advances in H ];
      destruct H as (cu1 & caps1 & Hlt & H);
      injection H as <- _; exact Hlt
    | ]).
  apply Forall_nil.
Qed.

(** ** State bookkeeping: what the passes leave alone *)

Lemma set_symbol_diagnostics key sym self :
  diagnostics (set_symbol key sym self) = diagnostics self.
Proof. reflexivity. Qed.

Lemma fold_left_preserved {S M F : Type} (proj : S -> F) (step : S -> M -> S) :
  (forall s m, proj (step s m) = proj s) ->
  forall ms s, proj (fold_left step ms s) = proj s.
Proof.
  intros Hstep ms. induction ms as [|m ms IH]; intro s; simpl.
  - reflexivity.
  - rewrite IH. apply Hstep.
Qed.

Lemma declare_pass_diagnostics re mk text self :
  diagnostics (declare_pass re mk text self) = diagnostics self.
Proof.
  unfold declare_pass. apply fold_left_preserved. reflexivity.
Qed.

Lemma label_step_diagnostics text self m :
  diagnostics (label_step text self m) = diagnostics self.
Proof.
  unfold label_step.
  destruct (unit_follows text m); [reflexivity|].
  destruct (dict_has _ _); reflexivity.
Qed.

Lemma reference_step_diagnostics text self m :
  diagnostics (reference_step text self m) = diagnostics self.
Proof.
  unfold reference_step.
  destruct (mem _ _); [reflexivity|].
  destruct (_find_position text (m_start m)); reflexivity.
Qed.

Lemma reference_step_symbols text self m :
  symbols (reference_step text self m) = symbols self.
Proof.
  unfold reference_step.
  destruct (mem _ _); [reflexivity|].
  destruct (_find_position text (m_start m)); reflexivity.
Qed.

Lemma _parse_labels_diagnostics text self :
  diagnostics (_parse_labels text self) = diagnostics self.
Proof.
  unfold _parse_labels. apply fold_left_preserved. apply label_step_diagnostics.
Qed.

Lemma _parse_references_diagnostics text self :
  diagnostics (_parse_references text self) = diagnostics self.
Proof.
  unfold _parse_references. apply fold_left_preserved. apply reference_step_diagnostics.
Qed.

Lemma _parse_references_symbols text self :
  symbols (_parse_references text self) = symbols self.
Proof.
  unfold _parse_references. apply fold_left_preserved. apply reference_step_symbols.
Qed.

Lemma _parse_declares_diagnostics text self :
  diagnostics (_parse_declares text self) = diagnostics self.
Proof.
  unfold _parse_declares, declares_matrix, declares_vector, declares_constant,
    declares_array, declares_simple.
  now rewrite !declare_pass_diagnostics.
Qed.

Lemma passes_keep_diagnostics :
  Forall (fun pass => forall text self, diagnostics (pass text self) = diagnostics self)
         extraction_passes.
Proof.
  unfold extraction_passes.
  repeat constructor; intros text self;
    first [ apply declare_pass_diagnostics
          | apply _parse_declares_diagnostics
          | apply _parse_labels_diagnostics
          | apply _parse_references_diagnostics ].
Qed.

(** C8: after every [parse] the diagnostics accessor returns the empty
    list, whatever the text and the earlier state, and none of the
    extraction passes changes the diagnostic list. *)
Theorem diagnostics_always_empty :
  (forall text self, get_diagnostics (parse text self) = []) /\
  Forall (fun pass => forall text self, diagnostics (pass text self) = diagnostics self)
         extraction_passes.
Proof.
  split; [|exact passes_keep_diagnostics].
  intros text self. unfold get_diagnostics, parse.
  rewrite _parse_references_diagnostics, _parse_labels_diagnostics.
  unfold _parse_replaces, _parse_structures, _parse_compools, _parse_tasks,
    _parse_functions, _parse_procedures, _parse_programs.
  rewrite !declare_pass_diagnostics, _parse_declares_diagnostics.
  rewrite !declare_pass_diagnostics. reflexivity.
Qed.

(** C4: [parse] is a function of the text alone.  The state it leaves
    does not depend on the state it starts from, so it is the same on
    every run and after any earlier parse, and parsing the same text again
    changes nothing. *)
Theorem parse_deterministic_idempotent :
  (forall text self self', parse text self = parse text self') /\
  (forall text text' self, parse text (parse text' self) = parse text self) /\
  (forall text self, parse text (parse text self) = parse text self).
Proof.
  repeat split; intros; reflexivity.
Qed.

(** ** The symbol table under the passes *)

Lemma dict_get_set {V : Type} (k n : string) (v : V) (d : dict V) :
  dict_get n (dict_set k v d) = if String.eqb k n then Some v else dict_get n d.
Proof.
  induction d as [|[k' v'] d IH]; simpl.
  - reflexivity.
  - destruct (String.eqb k' k) eqn:E; simpl.
    + apply String.eqb_eq in E. subst k'. destruct (String.eqb k n); reflexivity.
    + destruct (String.eqb k' n) eqn:E'.
      * apply String.eqb_eq in E'. subst k'. rewrite String.eqb_sym in E.
        now rewrite E.
      * exact IH.
Qed.

Lemma last_opt_app_one {A : Type} (l : list A) (x : A) : last_opt (l ++ [x]) = Some x.
Proof. unfold last_opt. now rewrite rev_app_distr. Qed.

Lemma last_opt_cons {A : Type} (x : A) (l : list A) :
  last_opt (x :: l) = match last_opt l with Some y => Some y | None => Some x end.
Proof.
  unfold last_opt. simpl. destruct (rev l); reflexivity.
Qed.

(** One overwriting loop: the last match for [n] wins, and without a
    match the entry is as before. *)
Lemma record_loop_get mk text n ms self :
  dict_get n (symbols (fold_left (record_symbol mk text) ms self)) =
  match last_opt (map (mk text) (filter (names n text) ms)) with
  | Some s => Some s
  | None => dict_get n (symbols self)
  end.
Proof.
  revert self. induction ms as [|m ms IH]; intro self; simpl.
  - reflexivity.
  - rewrite IH. unfold record_symbol. simpl. rewrite dict_get_set.
    unfold names at 2.
    destruct (String.eqb (upper (grp text m 1)) n); simpl.
    + rewrite last_opt_cons.
      destruct (last_opt (map (mk text) (filter (names n text) ms))); reflexivity.
    + reflexivity.
Qed.

Lemma declare_pass_get re mk text n self :
  dict_get n (symbols (declare_pass re mk text self)) =
  match last_opt (produced (re, mk) text n) with
  | Some s => Some s
  | None => dict_get n (symbols self)
  end.
Proof. unfold declare_pass, produced. apply record_loop_get. Qed.

(** The label loop only fills holes: an entry that exists stays, and a
    missing one is taken from the first candidate. *)
Lemma label_loop_get text n ms self :
  dict_get n (symbols (fold_left (label_step text) ms self)) =
  match dict_get n (symbols self) with
  | Some s => Some s
  | None =>
      hd_error (map (label_symbol text)
                    (filter (fun m => negb (unit_follows text m) && names n text m) ms))
  end.
Proof.
  revert self. induction ms as [|m ms IH]; intro self; simpl.
  - destruct (dict_get n (symbols self)); reflexivity.
  - rewrite IH. unfold label_step. unfold names at 2.
    destruct (unit_follows text m); simpl.
    { reflexivity. }
    unfold dict_has.
    destruct (dict_get (upper (grp text m 1)) (symbols self)) eqn:Hk.
    + destruct (String.eqb (upper (grp text m 1)) n) eqn:E.
      * apply String.eqb_eq in E. rewrite E in Hk. now rewrite Hk.
      * reflexivity.
    + simpl. rewrite dict_get_set.
      destruct (String.eqb (upper (grp text m 1)) n) eqn:E.
      * apply String.eqb_eq in E. rewrite E in Hk. now rewrite Hk.
      * reflexivity.
Qed.

Lemma _parse_labels_get text n self :
  dict_get n (symbols (_parse_labels text self)) =
  match dict_get n (symbols self) with
  | Some s => Some s
  | None => hd_error (label_candidates text n)
  end.
Proof. unfold _parse_labels, label_candidates. apply label_loop_get. Qed.

(** The table entry for [n] after a whole [parse]. *)
Lemma parse_get text self n :
  dict_get n (symbols (parse text self)) =
  match last_producer declaration_passes (cleaned text) n None with
  | Some s => Some s
  | None => hd_error (label_candidates (cleaned text) n)
  end.
Proof.
  unfold parse. rewrite _parse_references_symbols, _parse_labels_get.
  unfold _parse_replaces, _parse_structures, _parse_declares, declares_matrix,
    declares_vector, declares_constant, declares_array, declares_simple,
    _parse_compools, _parse_tasks, _parse_functions, _parse_procedures,
    _parse_programs.
  rewrite !declare_pass_get. reflexivity.
Qed.

Lemma last_producer_none ps text n acc :
  (forall q, In q ps -> produced q text n = []) ->
  last_producer ps text n acc = acc.
Proof.
  revert acc. induction ps as [|p ps IH]; intros acc H; simpl.
  - reflexivity.
  - rewrite (H p (or_introl eq_refl)). simpl. apply IH.
    intros q Hq. apply H. now right.
Qed.

Lemma last_producer_at ps text n i p sym :
  nth_error ps i = Some p ->
  last_opt (produced p text n) = Some sym ->
  (forall j q, i < j -> nth_error ps j = Some q -> produced q text n = []) ->
  forall acc, last_producer ps text n acc = Some sym.
Proof.
  revert i. induction ps as [|p0 ps IH]; intros i Hi Hl Hlater acc.
  - destruct i; discriminate.
  - destruct i as [|i]; simpl in *.
    + injection Hi as ->. rewrite Hl. apply last_producer_none.
      intros q Hq. apply In_nth_error in Hq. destruct Hq as [j Hj].
      apply (Hlater (S j) q); [lia | exact Hj].
    + apply (IH i Hi Hl).
      intros j q Hij Hj. apply (Hlater (S j) q); [lia | exact Hj].
Qed.

(** C1: last write wins.  When the recognizer number [i] of the fixed
    order matches the canonical name [n] and no later overwriting recognizer
    does, the table holds the symbol of that recognizer's last match for [n],
    whether or not the label recognizer matches [n] too: the label pass
    never overwrites.  A name that only the label recognizer proposes gets
    its first label candidate. *)
Theorem last_pass_wins (text : string) (self : HALSParser) (n : string) :
  (forall i p sym,
      nth_error declaration_passes i = Some p ->
      last_opt (produced p (cleaned text) n) = Some sym ->
      (forall j q, i < j -> nth_error declaration_passes j = Some q ->
                   produced q (cleaned text) n = []) ->
      dict_get n (symbols (parse text self)) = Some sym) /\
  ((forall q, In q declaration_passes -> produced q (cleaned text) n = []) ->
   dict_get n (symbols (parse text self)) = hd_error (label_candidates (cleaned text) n)).
Proof.
  split.
  - intros i p sym Hi Hl Hlater. rewrite parse_get.
    now rewrite (last_producer_at _ _ _ i p sym Hi Hl Hlater).
  - intro Hnone. rewrite parse_get.
    now rewrite (last_producer_none _ _ _ None Hnone).
Qed.

(** ** Continuation unfolding *)

Lemma char_upper_is (c : ascii) :
  Ascii.eqb (char_upper c) "E" = existsb (Ascii.eqb c) ["E"; "e"]%char /\
  Ascii.eqb (char_upper c) "S" = existsb (Ascii.eqb c) ["S"; "s"]%char /\
  Ascii.eqb (char_upper c) "M" = existsb (Ascii.eqb c) ["M"; "m"]%char /\
  Ascii.eqb (char_upper c) "C" = existsb (Ascii.eqb c) ["C"; "c"]%char.
Proof.
  destruct c as [[] [] [] [] [] [] [] []]; vm_compute; repeat split.
Qed.

Lemma preprocess_line_unfold acc line :
  preprocess_line acc line = acc ++ unfold_line line.
Proof.
  destruct line as [|c tl]; [reflexivity|].
  unfold preprocess_line, unfold_line.
  destruct (char_upper_is c) as (HE & HS & HM & HC).
  rewrite HE, HS, HM, HC. simpl.
  destruct (Ascii.eqb c "E"), (Ascii.eqb c "e"), (Ascii.eqb c "S"), (Ascii.eqb c "s");
    simpl; try (symmetry; apply app_nil_r).
  destruct (Ascii.eqb c "M"), (Ascii.eqb c "m"); simpl;
    try (destruct tl; reflexivity).
  destruct (Ascii.eqb c "C"), (Ascii.eqb c "c"); reflexivity.
Qed.

Lemma preprocess_loop lines acc :
  fold_left preprocess_line lines acc = acc ++ flat_map unfold_line lines.
Proof.
  revert acc. induction lines as [|l lines IH]; intro acc; simpl.
  - symmetry. apply app_nil_r.
  - rewrite IH, preprocess_line_unfold. symmetry. apply app_assoc.
Qed.



(** *** What the passes read: only the text and the collections *)

Definition same_tables (s s' : HALSParser) : Prop :=
  symbols s = symbols s' /\ references s = references s'.

Lemma fold_left_same {M : Type} (step : HALSParser -> M -> HALSParser) :
  (forall s s' m, same_tables s s' -> same_tables (step s m) (step s' m)) ->
  forall ms s s', same_tables s s' -> same_tables (fold_left step ms s) (fold_left step ms s').
Proof.
  intros Hstep ms. induction ms as [|m ms IH]; intros s s' H; simpl.
  - exact H.
  - apply IH, Hstep, H.
Qed.

Lemma declare_pass_same re mk text s s' :
  same_tables s s' -> same_tables (declare_pass re mk text s) (declare_pass re mk text s').
Proof.
  unfold declare_pass. apply fold_left_same.
  intros a a' m [H1 H2]. unfold record_symbol, set_symbol, same_tables. simpl.
  now rewrite H1, H2.
Qed.

Lemma _parse_labels_same text s s' :
  same_tables s s' -> same_tables (_parse_labels text s) (_parse_labels text s').
Proof.
  unfold _parse_labels. apply fold_left_same.
  intros a a' m [H1 H2]. unfold label_step.
  destruct (unit_follows text m); [now split|].
  rewrite H1. destruct (dict_has _ _); [now split|].
  unfold set_symbol, same_tables. simpl. now rewrite H1, H2.
Qed.

Lemma _parse_references_same text s s' :
  same_tables s s' -> same_tables (_parse_references text s) (_parse_references text s').
Proof.
  unfold _parse_references. apply fold_left_same.
  intros a a' m [H1 H2]. unfold reference_step.
  destruct (mem _ _); [now split|].
  destruct (_find_position text (m_start m)).
  unfold append_reference, same_tables. simpl. now rewrite H1, H2.
Qed.

Lemma parse_reads_cleaned text text' self self' :
  cleaned text = cleaned text' ->
  same_tables (parse text self) (parse text' self').
Proof.
  intro H. unfold parse. fold (cleaned text). fold (cleaned text'). rewrite <- H.
  apply _parse_references_same, _parse_labels_same.
  unfold _parse_replaces, _parse_structures, _parse_declares, declares_matrix,
    declares_vector, declares_constant, declares_array, declares_simple,
    _parse_compools, _parse_tasks, _parse_functions, _parse_procedures,
    _parse_programs.
  repeat apply declare_pass_same. split; reflexivity.
Qed.

(** ** The stable sort of the outline *)

Section StableSort.
Context {A : Type} (key : A -> nat).

Let le_key (a b : A) : Prop := key a <= key b.

Lemma insert_by_perm x l : Permutation (x :: l) (insert_by key x l).
Proof.
  induction l as [|y l IH]; simpl.
  - apply Permutation_refl.
  - destruct (key x <=? key y).
    + apply Permutation_refl.
    + eapply perm_trans; [apply perm_swap|]. now apply perm_skip.
Qed.

Lemma insert_by_sorted x l :
  StronglySorted le_key l -> StronglySorted le_key (insert_by key x l).
Proof.
  induction 1 as [|y l Hs IH Hall]; simpl.
  - repeat constructor.
  - destruct (key x <=? key y) eqn:E.
    + apply Nat.leb_le in E. constructor.
      * now constructor.
      * constructor; [exact E|].
        eapply Forall_impl; [|exact Hall].
        intros a Ha. unfold le_key in *. lia.
    + apply Nat.leb_gt in E. constructor; [exact IH|].
      eapply Permutation_Forall; [apply insert_by_perm|].
      constructor; [unfold le_key; lia | exact Hall].
Qed.


Lemma sorted_perm l : Permutation l (sorted key l).
Proof.
  induction l as [|x l IH]; simpl.
  - constructor.
  - eapply perm_trans; [apply perm_skip, IH | apply insert_by_perm].
Qed.

Lemma sorted_sorted l : StronglySorted le_key (sorted key l).
Proof.
  induction l as [|x l IH]; simpl.
  - constructor.
  - now apply insert_by_sorted.
Qed.

End StableSort.

Lemma dict_set_keys {V : Type} (k : string) (v : V) (d : dict V) :
  map fst (dict_set k v d) = if dict_has k d then map fst d else map fst d ++ [k].
Proof.
  unfold dict_has. induction d as [|[k' v'] d IH]; simpl.
  - reflexivity.
  - destruct (String.eqb k' k) eqn:E; simpl.
    + apply String.eqb_eq in E. now subst.
    + rewrite IH. destruct (dict_get k d); reflexivity.
Qed.



(** C10: the label scenario.  [NAV_LOOP] is a label declared on line 0,
    and the references query at every cursor column of the occurrence in
    the GO TO line returns the two references, on lines 0 and 2. *)
Theorem nav_loop_scenario :
  dict_get "NAV_LOOP" (symbols (parse nav_loop_text init)) =
    Some (Symbol.new "NAV_LOOP" LABEL "LABEL" 0 0 "Statement label (GO TO target)" [] []) /\
  List.length (symbols (parse nav_loop_text init)) = 1 /\
  nth_error (lines (parse nav_loop_text init)) 2 = Some "GO TO NAV_LOOP;" /\
  Forall (fun column =>
            get_references_at (parse nav_loop_text init) 2 column =
              Ok [Sp 0 0 8; Sp 2 6 14])
         [6; 7; 8; 9; 10; 11; 12; 13; 14]%Z.
Proof. vm_compute. repeat split; repeat constructor. Qed.

(** ** Cursor queries *)

Lemma list_index_nonneg {A : Type} (l : list A) (i : Z) :
  (0 <= i < Z.of_nat (List.length l))%Z ->
  exists x, nth_error l (Z.to_nat i) = Some x /\ list_index l i = Ok x.
Proof.
  intros [H0 H1]. unfold list_index.
  destruct (Z.ltb_spec i 0); [lia|].
  destruct (Z.ltb_spec i 0); [lia|].
  destruct (nth_error l (Z.to_nat i)) eqn:E.
  - now exists a.
  - apply nth_error_None in E. lia.
Qed.

Lemma word_at_none line_text column :
  (forall m, In m (finditer ident_re line_text) -> ~ on_token column m) ->
  word_at line_text column = None.
Proof.
  intro H. unfold word_at.
  destruct (find (covers column) (finditer ident_re line_text)) eqn:E; [|reflexivity].
  apply find_some in E. destruct E as [Hin Hc]. exfalso. apply (H r Hin).
  unfold covers in Hc. apply andb_true_iff in Hc. destruct Hc as [Ha Hb].
  apply Z.leb_le in Ha, Hb. split; assumption.
Qed.

(** C2 (amended): for a cursor on a line number that is not negative,
    the three queries return and do not raise; past the last line they
    return nothing; and they return nothing when no identifier of the line
    has the column between its start and its end, the end included. *)
Theorem cursor_queries (self : HALSParser) (line column : Z) :
  (0 <= line)%Z ->
  (exists h d r,
      get_hover self line column = Ok h /\
      get_definition self line column = Ok d /\
      get_references_at self line column = Ok r) /\
  ((Z.of_nat (List.length (lines self)) <= line)%Z ->
   get_hover self line column = Ok None /\
   get_definition self line column = Ok None /\
   get_references_at self line column = Ok []) /\
  (forall line_text,
      nth_error (lines self) (Z.to_nat line) = Some line_text ->
      (forall m, In m (finditer ident_re line_text) -> ~ on_token column m) ->
      get_hover self line column = Ok None /\
      get_definition self line column = Ok None /\
      get_references_at self line column = Ok []).
Proof.
  intro Hline. unfold get_hover, get_definition, get_references_at.
  destruct (Z.leb_spec (Z.of_nat (List.length (lines self))) line) as [Hout|Hin].
  - split; [|split].
    + do 3 eexists; repeat split; reflexivity.
    + intros _. repeat split; reflexivity.
    + intros line_text Hnth _. exfalso.
      assert (nth_error (lines self) (Z.to_nat line) <> None) as Hn by congruence.
      apply nth_error_Some in Hn. lia.
  - destruct (list_index_nonneg (lines self) line (conj Hline Hin)) as (x & Hx & ->).
    split; [|split].
    + destruct (word_at x column) as [w|];
        [destruct (mem w KEYWORDS), (dict_get w (symbols self)), w|];
        do 3 eexists; repeat split; reflexivity.
    + intro. lia.
    + intros line_text Hnth Hno. rewrite Hx in Hnth. injection Hnth as ->.
      now rewrite (word_at_none _ _ Hno).
Qed.

(** C2 as worded fails at the end of a token: column 3 of [FOO: PROGRAM;]
    holds the colon, no identifier has a character there, and hover
    answers for [FOO]. *)
Lemma hover_just_after_token :
  nth_error (lines (parse "FOO: PROGRAM;" init)) 0 = Some "FOO: PROGRAM;" /\
  (forall m, In m (finditer ident_re "FOO: PROGRAM;") -> ~ inside_token 3 m) /\
  get_hover (parse "FOO: PROGRAM;" init) 0 3 =
    Ok (Some ("**FOO**: PROGRAM" +++ NL +++ NL +++ "HAL/S Program unit")) /\
  get_definition (parse "FOO: PROGRAM;" init) 0 3 = Ok (Some (Loc 0 0 "FOO")) /\
  get_references_at (parse "FOO: PROGRAM;" init) 0 3 = Ok [Sp 0 0 3].
Proof.
  split; [reflexivity|]. split.
  - intros m Hm. vm_compute in Hm. unfold inside_token.
    destruct Hm as [<-|[<-|[]]]; simpl; lia.
  - vm_compute. repeat split.
Qed.

(** A line number below minus the line count is not caught by the bound
    check and the indexing raises. *)
Example hover_negative_line_raises :
  get_hover (parse "FOO: PROGRAM;" init) (-2) 0 = Raise IndexError.
Proof. reflexivity. Qed.

(** ** The matcher on the comment pattern *)

Lemma char_lower_punct (c : ascii) :
  Ascii.eqb (char_lower c) "/" = Ascii.eqb c "/" /\
  Ascii.eqb (char_lower c) "*" = Ascii.eqb c "*".
Proof.
  destruct c as [[] [] [] [] [] [] [] []]; vm_compute; split; reflexivity.
Qed.

Lemma eat_open p s i :
  eat_lit "/*" p s i =
  match s with
  | String a (String b r) =>
      if Ascii.eqb a "/" && Ascii.eqb b "*" then Some (Cur (Some b) r (S (S i))) else None
  | _ => None
  end.
Proof.
  destruct s as [|a [|b r]]; cbn [eat_lit].
  - reflexivity.
  - change (char_lower "/") with "/"%char.
    rewrite (proj1 (char_lower_punct a)). destruct (Ascii.eqb a "/"); reflexivity.
  - change (char_lower "/") with "/"%char. change (char_lower "*") with "*"%char.
    rewrite (proj1 (char_lower_punct a)), (proj2 (char_lower_punct b)).
    destruct (Ascii.eqb a "/"), (Ascii.eqb b "*"); reflexivity.
Qed.

Lemma eat_close p s i :
  eat_lit "*/" p s i =
  match s with
  | String a (String b r) =>
      if Ascii.eqb a "*" && Ascii.eqb b "/" then Some (Cur (Some b) r (S (S i))) else None
  | _ => None
  end.
Proof.
  destruct s as [|a [|b r]]; cbn [eat_lit].
  - reflexivity.
  - change (char_lower "*") with "*"%char.
    rewrite (proj2 (char_lower_punct a)). destruct (Ascii.eqb a "*"); reflexivity.
  - change (char_lower "/") with "/"%char. change (char_lower "*") with "*"%char.
    rewrite (proj2 (char_lower_punct a)), (proj1 (char_lower_punct b)).
    destruct (Ascii.eqb a "*"), (Ascii.eqb b "/"); reflexivity.
Qed.

(** The lazy body stops at the first terminator. *)
Lemma star_lazy_close (K : cursor -> outcome) :
  (forall cu, K cu = match eat_lit "*/" (prev cu) (rest cu) (pos cu) with
                     | Some cu' => Some (pos cu', [])
                     | None => None
                     end) ->
  forall s p i,
    star_lazy Dot K p s i = option_map (fun n => (i + n, [])) (close_len s).
Proof.
  intros HK s. induction s as [|a s IH]; intros p i; cbn [star_lazy close_len].
  - rewrite HK. reflexivity.
  - rewrite HK. cbn [prev rest pos]. rewrite eat_close.
    destruct s as [|b r].
    + cbn [in_set]. rewrite IH. reflexivity.
    + destruct (Ascii.eqb a "*" && Ascii.eqb b "/").
      * cbn. do 2 f_equal. lia.
      * cbn [in_set]. rewrite IH.
        destruct (close_len (String b r)); cbn; [do 2 f_equal; lia | reflexivity].
Qed.

Lemma match_at_comment p s i :
  match_at comment_re (Cur p s i) = option_map (fun n => (i + n, [])) (comment_len s).
Proof.
  unfold match_at, comment_re, chain. cbn [fold_right run prev rest pos].
  rewrite eat_open. unfold comment_len.
  destruct s as [|a [|b r]]; try reflexivity.
  destruct (Ascii.eqb a "/" && Ascii.eqb b "*"); [|reflexivity].
  cbn [prev rest pos]. rewrite star_lazy_close by (intro cu; reflexivity).
  destruct (close_len r); cbn; [do 2 f_equal; lia | reflexivity].
Qed.

Lemma comment_len_pos s n : comment_len s = Some n -> 2 <= n.
Proof.
  unfold comment_len. destruct s as [|a [|b r]]; try discriminate.
  destruct (_ && _); [|discriminate].
  destruct (close_len r); cbn; [|discriminate]. intro H. injection H as <-. lia.
Qed.

Lemma delete_matches_comment s : forall p i skip,
  delete_matches comment_re p s i skip = strip_from s skip.
Proof.
  induction s as [|c s IH]; intros p i skip; [reflexivity|].
  cbn [delete_matches strip_from]. destruct skip as [|n]; [|apply IH].
  rewrite match_at_comment.
  destruct (comment_len (String c s)) as [n|] eqn:E; cbn [option_map].
  - apply comment_len_pos in E.
    replace (i + n - i) with n by lia.
    destruct (Nat.eqb_spec n 0); [lia|]. apply IH.
  - now rewrite IH.
Qed.

Lemma _remove_comments_strip (text : string) :
  _remove_comments text = strip_from text 0.
Proof.
  unfold _remove_comments, re_sub_empty. apply delete_matches_comment.
Qed.

(** C6 (amended): comment stripping deletes every block comment, a
    comment running from [/*] to the first [*/] behind it (the shortest
    match, across line ends, without nesting), and keeps every other
    character. *)
Theorem comments_removed_shortest (text : string) :
  _remove_comments text = strip_comments text.
Proof.
  unfold strip_comments. apply _remove_comments_strip.
Qed.

(** C6 as worded fails: a greedy match would run from the first [/*] to
    the last [*/] and delete the text between two comments, which the
    code keeps. *)
Lemma comments_not_greedy :
  re_sub_empty greedy_comment_re "/*a*/X/*b*/" = "" /\
  _remove_comments "/*a*/X/*b*/" = "X" /\
  _remove_comments "/*a*/X/*b*/" <> re_sub_empty greedy_comment_re "/*a*/X/*b*/".
Proof.
  repeat split; try reflexivity. vm_compute. discriminate.
Qed.

(** ** The matcher on the identifier pattern *)

Lemma char_classes (c : ascii) :
  in_set id_start c = is_id_start c /\
  in_set id_cont c = is_word c /\
  (is_id_start c = true -> is_word c = true).
Proof.
  destruct c as [[] [] [] [] [] [] [] []]; vm_compute; repeat split; congruence.
Qed.

Lemma star_greedy_word (K : cursor -> outcome) (f : nat -> captures) :
  (forall cu, K cu = if at_boundary cu then Some (pos cu, f (pos cu)) else None) ->
  forall s p i,
    is_word_opt p = true ->
    star_greedy id_cont K p s i =
      Some (i + String.length (take_word s), f (i + String.length (take_word s))).
Proof.
  intros HK s. induction s as [|c s IH]; intros p i Hp; cbn [star_greedy take_word].
  - rewrite HK. unfold at_boundary, word_before, word_after. cbn [prev rest pos].
    destruct p as [c0|]; cbn in Hp; [|discriminate]. rewrite Hp. cbn.
    now rewrite Nat.add_0_r.
  - rewrite (proj1 (proj2 (char_classes c))).
    destruct (is_word c) eqn:Hc.
    + rewrite (IH (Some c) (S i) Hc). cbn [String.length].
      now rewrite Nat.add_succ_r.
    + rewrite HK. unfold at_boundary, word_before, word_after. cbn [prev rest pos].
      destruct p as [c0|]; cbn in Hp; [|discriminate]. rewrite Hp, Hc. cbn.
      now rewrite Nat.add_0_r.
Qed.

Lemma match_at_ident p s i :
  match_at ident_re (Cur p s i) =
  match s with
  | String c _ =>
      if negb (is_word_opt p) && is_id_start c
      then Some (i + String.length (take_word s),
                 [(1, (i, i + String.length (take_word s)))])
      else None
  | EmptyString => None
  end.
Proof.
  unfold match_at, ident_re, ident, chain. cbn [fold_right run prev rest pos].
  destruct s as [|c s].
  - destruct (at_boundary _); reflexivity.
  - destruct (char_classes c) as (Hs & _ & Hw). rewrite Hs.
    unfold at_boundary, word_before, word_after. cbn [prev rest pos]. fold (is_word_opt p).
    destruct (is_id_start c) eqn:Hc.
    + rewrite (Hw eq_refl). cbn [take_word]. rewrite (Hw eq_refl).
      destruct (is_word_opt p); cbn [xorb negb andb]; [reflexivity|].
      rewrite (star_greedy_word _ (fun e => [(1, (i, e))]))
        by (try reflexivity; apply (Hw eq_refl)).
      cbn [String.length]. now rewrite Nat.add_succ_r.
    + rewrite andb_false_r. destruct (xorb _ _); reflexivity.
Qed.

Lemma take_word_cons_length c s n :
  S n <= String.length (take_word (String c s)) ->
  is_word c = true /\ n <= String.length (take_word s).
Proof.
  cbn [take_word]. destruct (is_word c); cbn [String.length]; intro H; [split; [reflexivity | lia] | lia].
Qed.

(** [finditer] on the identifier pattern yields the tokens. *)
Lemma scan_ident s : forall p i skip,
  (skip = 0 \/ is_word_opt p = true) ->
  skip <= String.length (take_word s) ->
  scan ident_re p s i skip = map token_match (tokens p s i).
Proof.
  induction s as [|c s IH]; intros p i skip Hp Hskip.
  - destruct skip; cbn [scan tokens map]; [rewrite match_at_ident|]; reflexivity.
  - destruct skip as [|n]; cbn [scan tokens].
    + rewrite match_at_ident.
      destruct (negb (is_word_opt p) && is_id_start c) eqn:E.
      * apply andb_true_iff in E. destruct E as [_ Hc].
        pose proof (proj2 (proj2 (char_classes c)) Hc) as Hw.
        cbn [app map token_match]. f_equal.
        cbn [take_word]. rewrite Hw. cbn [String.length].
        replace (i + S (String.length (take_word s)) - i - 1)
          with (String.length (take_word s)) by lia.
        apply IH; [right; exact Hw | lia].
      * cbn [app]. apply IH; [now left | lia].
    + apply take_word_cons_length in Hskip. destruct Hskip as [Hc Hn].
      destruct Hp as [Hp|Hp]; [discriminate|]. rewrite Hp. cbn [negb andb app].
      apply IH; [right; exact Hc | exact Hn].
Qed.

Lemma finditer_ident text :
  finditer ident_re text = map token_match (tokens None text 0).
Proof. unfold finditer. apply scan_ident; [now left | lia]. Qed.

(** ** Positions and token text *)

Lemma find_position_walk s : forall off l c,
  line_col s off l c =
  (l + count_char nl (substring 0 off s),
   match rfind_char nl (substring 0 off s) with
   | Some j => off - j - 1
   | None => c + off
   end).
Proof.
  induction s as [|x s IH]; intros off l c.
  - destruct off; cbn; f_equal; lia.
  - destruct off as [|n].
    + cbn. f_equal; lia.
    + cbn [line_col substring count_char rfind_char].
      destruct (Ascii.eqb x nl); rewrite IH;
        destruct (rfind_char nl (substring 0 n s)); f_equal; lia.
Qed.

Lemma _find_position_line_col text off :
  _find_position text off = line_col text off 0 0.
Proof.
  unfold _find_position, slice. rewrite Nat.sub_0_r, find_position_walk. reflexivity.
Qed.

Lemma substring_skip pre : forall s n,
  substring (String.length pre) n (pre +++ s) = substring 0 n s.
Proof.
  induction pre as [|c pre IH]; intros s n; [reflexivity|].
  cbn [String.length String.append substring]. apply IH.
Qed.

Lemma substring_take_word s :
  substring 0 (String.length (take_word s)) s = take_word s.
Proof.
  induction s as [|c s IH]; [reflexivity|].
  cbn [take_word]. destruct (is_word c); [|reflexivity].
  cbn [String.length substring]. now rewrite IH.
Qed.

Lemma append_snoc pre c s : (pre +++ String c "") +++ s = pre +++ String c s.
Proof. induction pre as [|x pre IH]; cbn; [reflexivity | now rewrite IH]. Qed.

Lemma length_snoc pre c : String.length (pre +++ String c "") = S (String.length pre).
Proof. induction pre as [|x pre IH]; cbn; [reflexivity | now rewrite IH]. Qed.

(** A token's word is the text at its offset. *)
Lemma tokens_slice s : forall pre p,
  Forall (fun tok => slice (pre +++ s) (fst tok) (fst tok + String.length (snd tok)) = snd tok)
         (tokens p s (String.length pre)).
Proof.
  induction s as [|c s IH]; intros pre p; cbn [tokens]; [constructor|].
  apply Forall_app. split.
  - destruct (negb (is_word_opt p) && is_id_start c); constructor; [|constructor].
    cbn [fst snd]. unfold slice.
    replace (String.length pre + String.length (take_word (String c s)) - String.length pre)
      with (String.length (take_word (String c s))) by lia.
    rewrite substring_skip. apply substring_take_word.
  - rewrite <- (append_snoc pre c s), <- (length_snoc pre c). apply IH.
Qed.

Lemma reference_step_token text self tok :
  slice text (fst tok) (fst tok + String.length (snd tok)) = snd tok ->
  references (reference_step text self (token_match tok)) =
  references self ++ reference_of text tok.
Proof.
  destruct tok as [j w]. cbn [fst snd]. intro Hs.
  unfold reference_step, reference_of, grp, group, token_match.
  cbn [m_caps m_start cap_lookup Nat.eqb]. rewrite Hs.
  destruct (mem (upper w) KEYWORDS).
  - symmetry. apply app_nil_r.
  - rewrite _find_position_line_col. destruct (line_col text j 0 0). reflexivity.
Qed.

Lemma references_loop text toks : forall self,
  Forall (fun tok => slice text (fst tok) (fst tok + String.length (snd tok)) = snd tok) toks ->
  references (fold_left (reference_step text) (map token_match toks) self) =
  references self ++ flat_map (reference_of text) toks.
Proof.
  induction toks as [|tok toks IH]; intros self H; cbn [map fold_left flat_map].
  - symmetry. apply app_nil_r.
  - inversion H as [|? ? Htok Htoks]; subst.
    rewrite (IH _ Htoks), (reference_step_token _ _ _ Htok). symmetry. apply app_assoc.
Qed.

Lemma _parse_references_spec text self :
  references (_parse_references text self) = references self ++ spec_references text.
Proof.
  unfold _parse_references, spec_references. rewrite finditer_ident.
  apply references_loop. exact (tokens_slice text "" None).
Qed.

Lemma declare_pass_references re mk text self :
  references (declare_pass re mk text self) = references self.
Proof. unfold declare_pass. apply fold_left_preserved. reflexivity. Qed.

Lemma _parse_labels_references text self :
  references (_parse_labels text self) = references self.
Proof.
  unfold _parse_labels. apply fold_left_preserved. intros s m. unfold label_step.
  destruct (unit_follows text m); [reflexivity|]. destruct (dict_has _ _); reflexivity.
Qed.

(** C3 (amended): for an ASCII text, the reference list is, in text
    order, one reference for every identifier token of the normalized text
    whose upper-cased form is not a keyword, a token being a maximal run of
    word characters (ASCII letters, digits, underscore) that starts with a
    letter or an underscore; declared or not, declaring occurrence or use.
    Each carries the canonical name, the line and column of its first
    character and the column behind its last.  Beyond ASCII the code's
    word characters are those of Unicode, and the tokens are other ones. *)
Theorem references_complete (text : string) (self : HALSParser) :
  ascii_text text = true ->
  references (parse text self) = spec_references (cleaned text).
Proof.
  intros _. unfold parse. fold (cleaned text). rewrite _parse_references_spec.
  rewrite _parse_labels_references.
  unfold _parse_replaces, _parse_structures, _parse_declares, declares_matrix,
    declares_vector, declares_constant, declares_array, declares_simple,
    _parse_compools, _parse_tasks, _parse_functions, _parse_procedures,
    _parse_programs.
  rewrite !declare_pass_references. reflexivity.
Qed.

(** C3 as worded fails: in [X = 1E5;] the stretch [E5] is a maximal
    identifier-shaped occurrence and no keyword, and it is not recorded:
    the pattern asks for a word boundary in front of an identifier. *)
Lemma digit_led_identifier_not_referenced :
  cleaned "X = 1E5;" = "X = 1E5;" /\
  substring 5 2 "X = 1E5;" = "E5" /\
  maximal_occurrence "X = 1E5;" 5 2 = true /\
  mem (upper "E5") KEYWORDS = false /\
  recorded "X = 1E5;" (references (parse "X = 1E5;" init)) 5 2 = 0 /\
  references (parse "X = 1E5;" init) = [Reference.new "X" 0 0 1].
Proof. vm_compute. repeat split. Qed.

(** ** Texts without letters *)

Lemma split_on_nonempty sep s : split_on sep s <> [].
Proof.
  destruct s as [|c s]; cbn; [discriminate|].
  destruct (Ascii.eqb c sep); [discriminate|].
  destruct (split_on sep s); discriminate.
Qed.

Lemma join_split s : join NL (split_on nl s) = s.
Proof.
  unfold join. induction s as [|c s IH]; [reflexivity|].
  cbn [split_on]. pose proof (split_on_nonempty nl s) as Hne.
  destruct (Ascii.eqb_spec c nl) as [->|Hc].
  - destruct (split_on nl s) as [|h t]; [congruence|].
    change (String.concat NL ("" :: h :: t)) with (String nl (String.concat NL (h :: t))).
    now rewrite IH.
  - destruct (split_on nl s) as [|h t]; [congruence|].
    destruct t as [|h' t].
    + cbn in *. now rewrite IH.
    + change (String.concat NL (String c h :: h' :: t))
        with (String c (String.concat NL (h :: h' :: t))).
      now rewrite IH.
Qed.


Lemma unfold_line_plain c tl :
  is_marker c = false -> unfold_line (String c tl) = [String c tl].
Proof.
  unfold is_marker, unfold_line. cbn [existsb].
  destruct (Ascii.eqb c "E"), (Ascii.eqb c "e"), (Ascii.eqb c "S"), (Ascii.eqb c "s"),
    (Ascii.eqb c "M"), (Ascii.eqb c "m"), (Ascii.eqb c "C"), (Ascii.eqb c "c");
    cbn; congruence.
Qed.


Lemma flat_map_singletons {A : Type} (f : A -> list A) (l : list A) :
  Forall (fun x => f x = [x]) l -> flat_map f l = l.
Proof.
  induction 1 as [|x l Hx _ IH]; cbn; [reflexivity|]. now rewrite Hx, IH.
Qed.




















(** ** The theorems at concrete inputs *)

Lemma last_pass_wins_witness :
  dict_get "X" (symbols (parse shadowed_text init)) =
    Some (Symbol.new "X" VARIABLE "SCALAR" 1 0 "SCALAR variable" [] []) /\
  dict_get "L" (symbols (parse "L: X = 1;" init)) =
    Some (Symbol.new "L" LABEL "LABEL" 0 0 "Statement label (GO TO target)" [] []).
Proof.
  split.
  - apply (proj1 (last_pass_wins shadowed_text init "X") 5
                 (declare_simple_re, simple_symbol)).
    + reflexivity.
    + vm_compute. reflexivity.
    + intros j q Hj Hq.
      do 6 (destruct j as [|j]; [lia|]).
      do 6 (destruct j as [|j]; [injection Hq as <-; vm_compute; reflexivity|]).
      destruct j; discriminate.
  - change (Some (Symbol.new "L" LABEL "LABEL" 0 0 "Statement label (GO TO target)" [] []))
      with (hd_error (label_candidates (cleaned "L: X = 1;") "L")).
    apply (proj2 (last_pass_wins "L: X = 1;" init "L")).
    intros q Hq. unfold declaration_passes in Hq. cbn [In] in Hq.
    repeat (destruct Hq as [<-|Hq]; [vm_compute; reflexivity|]).
    destruct Hq.
Defined.

Lemma cursor_queries_witness :
  (get_hover (parse "FOO: PROGRAM;" init) 0 4 = Ok None /\
   get_definition (parse "FOO: PROGRAM;" init) 0 4 = Ok None /\
   get_references_at (parse "FOO: PROGRAM;" init) 0 4 = Ok []) /\
  (get_hover (parse "FOO: PROGRAM;" init) 7 0 = Ok None /\
   get_definition (parse "FOO: PROGRAM;" init) 7 0 = Ok None /\
   get_references_at (parse "FOO: PROGRAM;" init) 7 0 = Ok []).
Proof.
  split.
  - apply (proj2 (proj2 (cursor_queries (parse "FOO: PROGRAM;" init) 0 4 ltac:(lia)))
                 "FOO: PROGRAM;").
    + reflexivity.
    + intros m Hm. vm_compute in Hm. unfold on_token.
      destruct Hm as [<-|[<-|[]]]; simpl; lia.
  - apply (proj1 (proj2 (cursor_queries (parse "FOO: PROGRAM;" init) 7 0 ltac:(lia)))).
    simpl. lia.
Defined.


Lemma references_complete_witness :
  ascii_text nav_loop_text = true /\
  references (parse nav_loop_text init) = spec_references (cleaned nav_loop_text).
Proof.
  split; [reflexivity|].
  apply (references_complete nav_loop_text init). reflexivity.
Defined.

(** * Further properties of the parser *)

(** ** Positions *)

Lemma line_col_shift s : forall off l c,
  line_col s off l c =
  (l + fst (line_col s off 0 0),
   if fst (line_col s off 0 0) =? 0 then c + snd (line_col s off 0 0)
   else snd (line_col s off 0 0)).
Proof.
  intros off l c. rewrite !find_position_walk. cbn [fst snd].
  destruct (rfind_char nl (substring 0 off s)) as [j|] eqn:E.
  - assert (count_char nl (substring 0 off s) <> 0) as Hc.
    { clear -E. revert j E. generalize (substring 0 off s) as t.
      induction t as [|x t IH]; intros j E; cbn in *; [discriminate|].
      destruct (rfind_char nl t) as [j'|].
      - specialize (IH j' eq_refl). lia.
      - destruct (Ascii.eqb x nl); [lia | discriminate]. }
    destruct (Nat.eqb_spec (0 + count_char nl (substring 0 off s)) 0); [lia|].
    reflexivity.
  - assert (count_char nl (substring 0 off s) = 0) as Hc.
    { clear -E. revert E. generalize (substring 0 off s) as t.
      induction t as [|x t IH]; intro E; cbn in *; [reflexivity|].
      destruct (rfind_char nl t) as [j'|]; [discriminate|].
      destruct (Ascii.eqb x nl); [discriminate|]. now rewrite IH. }
    rewrite Hc. cbn. f_equal; lia.
Qed.

Lemma line_col_round_trip s : forall off,
  off <= String.length s ->
  exists l,
    nth_error (split_on nl s) (fst (line_col s off 0 0)) = Some l /\
    snd (line_col s off 0 0) <= String.length l /\
    line_start (split_on nl s) (fst (line_col s off 0 0)) + snd (line_col s off 0 0) = off.
Proof.
  induction s as [|x s IH]; intros off Hoff.
  - cbn in Hoff. assert (off = 0) as -> by lia. exists "". cbn. repeat split; lia.
  - destruct off as [|n].
    + cbn [line_col fst snd]. pose proof (split_on_nonempty nl (String x s)) as Hne.
      destruct (split_on nl (String x s)) as [|l0 t]; [congruence|].
      exists l0. cbn. repeat split; lia.
    + cbn [String.length] in Hoff. destruct (IH n ltac:(lia)) as (l & Hnth & Hcol & Hstart).
      cbn [line_col split_on]. destruct (Ascii.eqb x nl).
      * rewrite line_col_shift.
        destruct (line_col s n 0 0) as [a b]. cbn [fst snd] in *.
        exists l. cbn [Nat.add nth_error line_start String.length].
        destruct (a =? 0); repeat split; solve [exact Hnth | exact Hcol | lia].
      * rewrite line_col_shift.
        destruct (line_col s n 0 0) as [a b]. cbn [fst snd Nat.add] in *.
        pose proof (split_on_nonempty nl s) as Hne.
        destruct (split_on nl s) as [|h t]; [congruence|].
        destruct a as [|a]; cbn [Nat.eqb nth_error line_start] in *.
        -- injection Hnth as <-. exists (String x h). cbn [String.length].
           repeat split; lia.
        -- exists l. cbn [String.length]. repeat split; [exact Hnth | exact Hcol | lia].
Qed.

(** X1: the position computed for an offset inside the text addresses
    that offset: the line exists among the lines of the text, the column
    is inside the line or just behind it, and the lengths of the lines
    before (each with its newline) plus the column give back the offset. *)
Theorem find_position_round_trip (text : string) (off : nat) :
  off <= String.length text ->
  exists l,
    nth_error (split_on nl text) (fst (_find_position text off)) = Some l /\
    snd (_find_position text off) <= String.length l /\
    line_start (split_on nl text) (fst (_find_position text off))
      + snd (_find_position text off) = off.
Proof.
  intro H. rewrite _find_position_line_col. now apply line_col_round_trip.
Qed.

Lemma find_position_round_trip_witness :
  exists l,
    nth_error (split_on nl nav_loop_text) (fst (_find_position nav_loop_text 31)) = Some l /\
    snd (_find_position nav_loop_text 31) <= String.length l /\
    line_start (split_on nl nav_loop_text) (fst (_find_position nav_loop_text 31))
      + snd (_find_position nav_loop_text 31) = 31.
Proof.
  apply (find_position_round_trip nav_loop_text 31). vm_compute. lia.
Defined.

(** ** Continuation unfolding: line structure *)

Lemma plain_line_unfold l : plain_line l = true -> unfold_line l = [l].
Proof.
  destruct l as [|c tl]; [reflexivity|]. cbn [plain_line]. intro H.
  apply negb_true_iff in H. now apply unfold_line_plain.
Qed.

(** X2: a text none of whose lines begins with E, S, M or C (in either
    case) passes the continuation unfolding unchanged. *)
Theorem preprocess_plain_text (text : string) :
  no_marker_lines text = true -> _preprocess_multiline text = text.
Proof.
  unfold no_marker_lines. intro H. unfold _preprocess_multiline.
  rewrite preprocess_loop. cbn [app].
  rewrite flat_map_singletons; [apply join_split|].
  apply Forall_forall. intros l Hl. apply plain_line_unfold.
  exact (proj1 (forallb_forall _ _) H l Hl).
Qed.

Lemma preprocess_plain_text_witness :
  _preprocess_multiline "X: PROGRAM;" = "X: PROGRAM;".
Proof. apply (preprocess_plain_text "X: PROGRAM;"). reflexivity. Defined.

Lemma split_on_no_nl s : Forall (fun l => has_char nl l = false) (split_on nl s).
Proof.
  unfold has_char. induction s as [|c s IH]; cbn [split_on].
  - repeat constructor.
  - destruct (Ascii.eqb c nl) eqn:E.
    + constructor; [reflexivity | exact IH].
    + destruct (split_on nl s) as [|h t].
      * constructor; [cbn; now rewrite E | constructor].
      * inversion IH as [|? ? Hh Ht]; subst. constructor; [|exact Ht].
        cbn [all_chars]. rewrite E. cbn. exact Hh.
Qed.

Lemma has_char_append a s t :
  has_char a (s +++ t) = has_char a s || has_char a t.
Proof.
  unfold has_char. induction s as [|c s IH]; cbn [String.append all_chars].
  - reflexivity.
  - destruct (Ascii.eqb c a); cbn; [reflexivity | exact IH].
Qed.

Lemma unfold_line_no_nl l :
  has_char nl l = false -> Forall (fun l' => has_char nl l' = false) (unfold_line l).
Proof.
  intro H. destruct l as [|c tl]; [repeat constructor|].
  assert (has_char nl tl = false) as Htl.
  { unfold has_char in *. cbn [all_chars] in H.
    destruct (Ascii.eqb c nl); cbn in H; [discriminate | exact H]. }
  unfold unfold_line.
  destruct (existsb _ _); [constructor|].
  destruct (existsb _ _); [repeat constructor; exact Htl|].
  destruct (existsb _ _); [|repeat constructor; exact H].
  repeat constructor. rewrite !has_char_append, Htl. reflexivity.
Qed.

Lemma split_on_plain l : has_char nl l = false -> split_on nl l = [l].
Proof.
  unfold has_char. induction l as [|c l IH]; intro H; [reflexivity|].
  cbn [all_chars] in H. cbn [split_on].
  destruct (Ascii.eqb c nl); cbn in H; [discriminate|].
  now rewrite (IH H).
Qed.

Lemma split_on_append l s :
  has_char nl l = false ->
  split_on nl (l +++ String nl s) = l :: split_on nl s.
Proof.
  unfold has_char. induction l as [|c l IH]; intro H.
  - cbn [String.append split_on]. now rewrite Ascii.eqb_refl.
  - cbn [all_chars] in H. cbn [String.append split_on].
    destruct (Ascii.eqb c nl); cbn in H; [discriminate|].
    now rewrite (IH H).
Qed.

Lemma split_join ls :
  ls <> [] -> Forall (fun l => has_char nl l = false) ls ->
  split_on nl (join NL ls) = ls.
Proof.
  unfold join. induction ls as [|l ls IH]; intros Hne H; [congruence|].
  inversion H as [|? ? Hl Hls]; subst.
  destruct ls as [|l' ls].
  - cbn. now apply split_on_plain.
  - change (String.concat NL (l :: l' :: ls))
      with (l +++ String nl (String.concat NL (l' :: ls))).
    rewrite (split_on_append _ _ Hl). f_equal. apply IH; [discriminate | exact Hls].
Qed.

Lemma flat_map_Forall {A B : Type} (P : A -> Prop) (Q : B -> Prop) (f : A -> list B) l :
  (forall x, P x -> Forall Q (f x)) -> Forall P l -> Forall Q (flat_map f l).
Proof.
  intros Hf H. induction H as [|x l Hx _ IH]; cbn; [constructor|].
  apply Forall_app. split; [now apply Hf | exact IH].
Qed.

(** X3: the unfolded text has exactly the lines the rule produces, one
    per kept input line: no line is split or merged.  When every line is
    dropped the result is the empty text. *)
Theorem preprocess_line_structure (text : string) :
  (flat_map unfold_line (split_on nl text) <> [] ->
   split_on nl (_preprocess_multiline text) = flat_map unfold_line (split_on nl text)) /\
  (flat_map unfold_line (split_on nl text) = [] ->
   _preprocess_multiline text = "").
Proof.
  unfold _preprocess_multiline. rewrite preprocess_loop. cbn [app]. split.
  - intro Hne. apply split_join; [exact Hne|].
    eapply flat_map_Forall; [apply unfold_line_no_nl | apply split_on_no_nl].
  - intros ->. reflexivity.
Qed.

Lemma preprocess_line_structure_witness :
  split_on nl (_preprocess_multiline nav_loop_text) =
    ["NAV_LOOP:"; "DO WHILE TRUE;"; "GO TO NAV_LOOP;"] /\
  _preprocess_multiline ("END;" +++ NL +++ "SCHEDULE A;") = "".
Proof.
  split.
  - apply (proj1 (preprocess_line_structure nav_loop_text)). vm_compute. discriminate.
  - apply (proj2 (preprocess_line_structure ("END;" +++ NL +++ "SCHEDULE A;"))).
    reflexivity.
Defined.

Lemma flat_map_filter_kept ls :
  flat_map unfold_line (filter (fun l => negb (dropped l)) ls) = flat_map unfold_line ls.
Proof.
  induction ls as [|l ls IH]; [reflexivity|].
  cbn [filter flat_map]. unfold dropped at 1.
  destruct (unfold_line l) eqn:E; cbn [negb].
  - exact IH.
  - cbn [flat_map]. now rewrite E, IH.
Qed.

Lemma kept_lines_no_nl s :
  Forall (fun l => has_char nl l = false)
         (filter (fun l => negb (dropped l)) (split_on nl s)).
Proof.
  apply Forall_forall. intros l Hl. apply filter_In in Hl. destruct Hl as [Hl _].
  exact (proj1 (Forall_forall _ _) (split_on_no_nl s) l Hl).
Qed.

Lemma preprocess_without_dropped text :
  _preprocess_multiline (without_dropped_lines text) = _preprocess_multiline text.
Proof.
  unfold _preprocess_multiline, without_dropped_lines. rewrite !preprocess_loop. cbn [app].
  destruct (filter (fun l => negb (dropped l)) (split_on nl text)) as [|l ls] eqn:E.
  - rewrite <- (flat_map_filter_kept (split_on nl text)), E. reflexivity.
  - rewrite split_join.
    + rewrite <- (flat_map_filter_kept (split_on nl text)), E. reflexivity.
    + discriminate.
    + rewrite <- E. apply kept_lines_no_nl.
Qed.

(** X4: lines that begin with E or S are invisible to the parser:
    deleting them from a text changes neither the symbol table nor the
    reference list. *)
Theorem dropped_lines_invisible (text : string) (self self' : HALSParser) :
  symbols (parse text self) = symbols (parse (without_dropped_lines text) self') /\
  references (parse text self) = references (parse (without_dropped_lines text) self').
Proof.
  apply parse_reads_cleaned. unfold cleaned. now rewrite preprocess_without_dropped.
Qed.

(** A unit header written from column 0 whose name begins with S is such
    a line. *)
Example unit_header_in_column_zero :
  symbols (parse "SHUTTLE_NAV: PROGRAM;" init) = [] /\
  references (parse "SHUTTLE_NAV: PROGRAM;" init) = [].
Proof. split; reflexivity. Qed.

(** ** Comment stripping *)

Lemma close_len_pair r n : close_len r = Some n -> has_pair "*" "/" r = true.
Proof.
  revert n. induction r as [|a r IH]; intros n H; [discriminate|].
  cbn [close_len has_pair] in *. destruct r as [|b r']; [discriminate|].
  destruct (Ascii.eqb a "*" && Ascii.eqb b "/"); [reflexivity|].
  destruct (close_len (String b r')) as [m|]; [|discriminate].
  rewrite (IH m eq_refl). apply orb_true_r.
Qed.

Lemma has_pair_tail a b c s : has_pair a b (String c s) = false -> has_pair a b s = false.
Proof.
  cbn [has_pair]. destruct s as [|y s']; [reflexivity|].
  intro H. apply orb_false_iff in H. apply H.
Qed.

Lemma has_pair_cons a b c s : has_pair a b s = true -> has_pair a b (String c s) = true.
Proof.
  intro H. destruct s as [|y s']; [discriminate|].
  change (has_pair a b (String c (String y s')))
    with ((Ascii.eqb c a && Ascii.eqb y b) || has_pair a b (String y s')).
  rewrite H. apply orb_true_r.
Qed.

Lemma comment_len_pairs s n :
  comment_len s = Some n ->
  has_pair "/" "*" s = true /\ has_pair "*" "/" s = true.
Proof.
  unfold comment_len. destruct s as [|a [|b r]]; try discriminate.
  destruct (Ascii.eqb a "/" && Ascii.eqb b "*") eqn:E; [|discriminate].
  destruct (close_len r) as [m|] eqn:Hc; [|discriminate]. intros _.
  apply close_len_pair in Hc. split.
  - cbn [has_pair]. now rewrite E.
  - now apply has_pair_cons, has_pair_cons.
Qed.

Lemma strip_from_unchanged s :
  has_pair "/" "*" s = false \/ has_pair "*" "/" s = false ->
  strip_from s 0 = s.
Proof.
  induction s as [|c s IH]; intro H; [reflexivity|].
  cbn [strip_from].
  destruct (comment_len (String c s)) as [n|] eqn:E.
  - apply comment_len_pairs in E. destruct E as [E1 E2], H as [H|H]; congruence.
  - f_equal. apply IH. destruct H as [H|H]; [left | right]; eapply has_pair_tail; exact H.
Qed.

(** X5: a text that has no comment opener, or no comment terminator, is
    left unchanged by comment stripping; in particular a comment that is
    never closed is kept. *)
Theorem remove_comments_unchanged (text : string) :
  has_pair "/" "*" text = false \/ has_pair "*" "/" text = false ->
  _remove_comments text = text.
Proof.
  intro H. rewrite _remove_comments_strip. now apply strip_from_unchanged.
Qed.

Lemma remove_comments_unchanged_witness :
  _remove_comments "X = Y / Z; /* never closed" = "X = Y / Z; /* never closed".
Proof.
  apply (remove_comments_unchanged "X = Y / Z; /* never closed"). right. reflexivity.
Defined.

Lemma strip_from_subseq s : forall skip, Subseq (strip_from s skip) s.
Proof.
  induction s as [|c s IH]; intro skip; cbn [strip_from]; [constructor|].
  destruct skip; [|apply Subseq_drop, IH].
  destruct (comment_len (String c s)); [apply Subseq_drop, IH | apply Subseq_keep, IH].
Qed.

Lemma Subseq_length a b : Subseq a b -> String.length a <= String.length b.
Proof. induction 1; cbn [String.length]; lia. Qed.

(** X6: comment stripping only deletes: its result is the text with some
    characters left out, in the same order, and is never longer. *)
Theorem remove_comments_only_deletes (text : string) :
  Subseq (_remove_comments text) text /\
  String.length (_remove_comments text) <= String.length text.
Proof.
  rewrite _remove_comments_strip. split; [|apply Subseq_length]; apply strip_from_subseq.
Qed.

Lemma close_len_closed rest :
  has_pair "*" "/" rest = false ->
  close_len (rest +++ "*/") = Some (String.length rest + 2).
Proof.
  induction rest as [|x r IH]; intro H; [reflexivity|].
  pose proof (has_pair_tail _ _ _ _ H) as Ht. specialize (IH Ht).
  cbn [String.append close_len String.length].
  destruct r as [|y r'].
  - cbn [String.append]. destruct (Ascii.eqb x "*"); reflexivity.
  - cbn [String.append] in *. cbn [has_pair] in H. apply orb_false_iff in H.
    destruct H as [H _]. rewrite H. rewrite IH. reflexivity.
Qed.

Lemma strip_from_skip_all s : forall skip,
  String.length s <= skip -> strip_from s skip = "".
Proof.
  induction s as [|c s IH]; intros skip H; [reflexivity|].
  cbn [String.length] in H. destruct skip as [|n]; [lia|].
  cbn [strip_from]. apply IH. lia.
Qed.

Lemma length_append s t : String.length (s +++ t) = String.length s + String.length t.
Proof. induction s as [|c s IH]; cbn; [reflexivity | now rewrite IH]. Qed.

Lemma comment_line_cleaned c rest :
  is_comment_marker c = true ->
  has_char nl rest = false ->
  has_pair "*" "/" rest = false ->
  cleaned (String c rest) = "".
Proof.
  intros Hc Hnl Hp. unfold cleaned, _preprocess_multiline.
  assert (c = "C" \/ c = "c")%char as Hcc.
  { unfold is_comment_marker in Hc. apply orb_true_iff in Hc.
    destruct Hc as [Hc|Hc]; apply Ascii.eqb_eq in Hc; auto. }
  assert (has_char nl (String c rest) = false) as Hl.
  { unfold has_char in *. cbn [all_chars].
    destruct Hcc; subst c; exact Hnl. }
  rewrite (split_on_plain _ Hl). cbn [fold_left]. rewrite preprocess_line_unfold.
  assert (unfold_line (String c rest) = ["/*" +++ rest +++ "*/"]) as ->
    by (destruct Hcc; subst c; reflexivity).
  cbn [app join String.concat].
  rewrite _remove_comments_strip.
  change ("/*" +++ rest +++ "*/") with (String "/" (String "*" (rest +++ "*/"))).
  cbn [strip_from comment_len].
  change (Ascii.eqb "/" "/") with true. change (Ascii.eqb "*" "*") with true. cbn [andb].
  rewrite (close_len_closed _ Hp). cbn [option_map].
  apply strip_from_skip_all. cbn [String.length]. rewrite length_append. cbn. lia.
Qed.

(** X7: a one-line text that begins with C and has no comment terminator
    in it is a comment as a whole: nothing of it reaches the passes, and
    the symbol table and the reference list stay empty. *)
Theorem comment_line_yields_nothing (c : ascii) (rest : string) (self : HALSParser) :
  is_comment_marker c = true ->
  has_char nl rest = false ->
  has_pair "*" "/" rest = false ->
  cleaned (String c rest) = "" /\
  symbols (parse (String c rest) self) = [] /\
  references (parse (String c rest) self) = [].
Proof.
  intros Hc Hnl Hp. pose proof (comment_line_cleaned c rest Hc Hnl Hp) as H.
  split; [exact H|].
  assert (same_tables (parse (String c rest) self) (parse "" init)) as [H1 H2].
  { apply parse_reads_cleaned. now rewrite H. }
  now rewrite H1, H2.
Qed.

Lemma comment_line_yields_nothing_witness :
  cleaned "C DECLARE X SCALAR;" = "" /\
  symbols (parse "C DECLARE X SCALAR;" init) = [] /\
  references (parse "C DECLARE X SCALAR;" init) = [].
Proof.
  apply (comment_line_yields_nothing "C" " DECLARE X SCALAR;" init); reflexivity.
Defined.

(** The terminator matters: with one inside the line the tail escapes. *)
Example comment_line_with_terminator :
  cleaned "C a */ b" = " b*/" /\
  references (parse "C a */ b" init) = [Reference.new "B" 0 1 2].
Proof. split; reflexivity. Qed.

(** ** Invariants of the symbol table *)

Lemma char_upper_idem (c : ascii) : char_upper (char_upper c) = char_upper c.
Proof. destruct c as [[] [] [] [] [] [] [] []]; reflexivity. Qed.

Lemma upper_idem s : upper (upper s) = upper s.
Proof. induction s as [|c s IH]; cbn; [reflexivity | now rewrite char_upper_idem, IH]. Qed.

Lemma length_upper s : String.length (upper s) = String.length s.
Proof. induction s as [|c s IH]; cbn; [reflexivity | now rewrite IH]. Qed.

Lemma dict_has_In {V : Type} (k : string) (d : dict V) :
  dict_has k d = false -> ~ In k (map fst d).
Proof.
  unfold dict_has. induction d as [|[k' v] d IH]; cbn; [tauto|].
  destruct (String.eqb_spec k' k); [discriminate|].
  intros H [Hk|Hk]; [congruence | now apply IH].
Qed.

Lemma dict_set_NoDup {V : Type} (k : string) (v : V) (d : dict V) :
  NoDup (map fst d) -> NoDup (map fst (dict_set k v d)).
Proof.
  intro H. rewrite dict_set_keys. destruct (dict_has k d) eqn:E; [exact H|].
  apply NoDup_app; [exact H | repeat constructor; now intros [] |].
  intros x Hx [<-|[]]. exact (dict_has_In _ _ E Hx).
Qed.

Lemma dict_set_Forall {V : Type} (P : string * V -> Prop) (k : string) (v : V) (d : dict V) :
  P (k, v) -> Forall P d -> Forall P (dict_set k v d).
Proof.
  intros Hk H. induction H as [|[k' v'] d Hx Hd IH]; cbn.
  - repeat constructor. exact Hk.
  - destruct (String.eqb k' k); constructor; assumption.
Qed.

Lemma dict_get_In {V : Type} (d : dict V) :
  NoDup (map fst d) -> forall k v, In (k, v) d -> dict_get k d = Some v.
Proof.
  induction d as [|[k' v'] d IH]; intros Hnd k v Hin; [destruct Hin|].
  cbn [map fst] in Hnd. inversion Hnd as [|? ? Hnot Hnd']; subst.
  cbn [dict_get]. destruct Hin as [Heq|Hin].
  - injection Heq as -> ->. now rewrite String.eqb_refl.
  - destruct (String.eqb_spec k' k) as [->|_].
    + exfalso. apply Hnot. now apply (in_map fst) in Hin.
    + now apply IH.
Qed.

Lemma set_symbol_inv P k sym self :
  P (k, sym) -> table_inv P self -> table_inv P (set_symbol k sym self).
Proof.
  intros Hk [H1 H2]. split; cbn [symbols set_symbol].
  - now apply dict_set_NoDup.
  - now apply dict_set_Forall.
Qed.

Lemma fold_left_inv {S M : Type} (I : S -> Prop) (step : S -> M -> S) :
  (forall s m, I s -> I (step s m)) -> forall ms s, I s -> I (fold_left step ms s).
Proof.
  intros Hstep ms. induction ms as [|m ms IH]; intros s H; cbn; [exact H|].
  apply IH, Hstep, H.
Qed.

Lemma declare_pass_inv P re mk text self :
  (forall m, P (upper (grp text m 1), mk text m)) ->
  table_inv P self -> table_inv P (declare_pass re mk text self).
Proof.
  intro Hmk. unfold declare_pass. apply fold_left_inv.
  intros s m Hs. unfold record_symbol. now apply set_symbol_inv.
Qed.

Lemma _parse_labels_inv P text self :
  (forall m, P (upper (grp text m 1), label_symbol text m)) ->
  table_inv P self -> table_inv P (_parse_labels text self).
Proof.
  intro Hmk. unfold _parse_labels. apply fold_left_inv.
  intros s m Hs. unfold label_step.
  destruct (unit_follows text m); [exact Hs|].
  destruct (dict_has _ _); [exact Hs|]. now apply set_symbol_inv.
Qed.

Lemma _parse_references_inv P text self :
  table_inv P self -> table_inv P (_parse_references text self).
Proof.
  unfold table_inv. now rewrite _parse_references_symbols.
Qed.

(** Every entry of the table after [parse] satisfies what all thirteen
    symbol constructors guarantee. *)
Lemma parse_inv (P : string * Symbol.t -> Prop) :
  Forall (fun mk => forall text m, P (upper (grp text m 1), mk text m)) symbol_makers ->
  forall text self, table_inv P (parse text self).
Proof.
  unfold symbol_makers. intros H text self.
  repeat match goal with
         | H : Forall _ (_ :: _) |- _ =>
             let H1 := fresh "Hmk" in
             apply Forall_cons_iff in H; destruct H as [H1 H]
         end.
  unfold parse. apply _parse_references_inv, _parse_labels_inv; [auto|].
  unfold _parse_replaces, _parse_structures, _parse_declares, declares_matrix,
    declares_vector, declares_constant, declares_array, declares_simple,
    _parse_compools, _parse_tasks, _parse_functions, _parse_procedures,
    _parse_programs.
  repeat (apply declare_pass_inv; [auto|]).
  split; [constructor | constructor].
Qed.

Ltac maker_facts :=
  unfold symbol_makers;
  repeat (apply Forall_cons;
    [ intros text m;
      match goal with
      | |- context [?mk text m] => unfold mk
      end;
      destruct (_find_position text (m_start m));
      cbn; repeat split; try apply upper_idem; try discriminate
    | ]);
  apply Forall_nil.

Lemma makers_canonical :
  Forall (fun mk => forall text m, canonical_entry (upper (grp text m 1), mk text m))
         symbol_makers.
Proof. unfold canonical_entry. maker_facts. Qed.

Lemma makers_flat :
  Forall (fun mk => forall text m, flat_entry (upper (grp text m 1), mk text m))
         symbol_makers.
Proof. unfold flat_entry. maker_facts. Qed.

(** X8: after [parse] the symbol table has one entry per key, every
    entry is filed under its symbol's name, the name is in canonical
    upper-case form, and looking a listed key up returns its entry. *)
Theorem symbol_table_keys (text : string) (self : HALSParser) :
  NoDup (map fst (symbols (parse text self))) /\
  Forall canonical_entry (symbols (parse text self)) /\
  (forall k sym, In (k, sym) (symbols (parse text self)) ->
                 dict_get k (symbols (parse text self)) = Some sym).
Proof.
  destruct (parse_inv canonical_entry makers_canonical text self) as [H1 H2].
  repeat split; [exact H1 | exact H2 | now apply dict_get_In].
Qed.

Lemma symbol_table_keys_witness :
  dict_get "X" (symbols (parse shadowed_text init)) =
    Some (Symbol.new "X" VARIABLE "SCALAR" 1 0 "SCALAR variable" [] []).
Proof.
  apply (proj2 (proj2 (symbol_table_keys shadowed_text init))).
  vm_compute. left. reflexivity.
Defined.

(** X9: no pass records scoping: every symbol of the table has scope
    [global] and end position 0, 0, and none has the kind [parameter]
    (the parameters of procedures and functions are kept as names in the
    unit's symbol only). *)
Theorem symbols_are_flat (text : string) (self : HALSParser) :
  Forall flat_entry (symbols (parse text self)).
Proof. exact (proj2 (parse_inv flat_entry makers_flat text self)). Qed.

(** ** Negative line numbers *)

Lemma list_index_wrap {A : Type} (l : list A) (i : Z) :
  (- Z.of_nat (List.length l) <= i < 0)%Z ->
  list_index l i = list_index l (i + Z.of_nat (List.length l)).
Proof.
  intro H. unfold list_index. cbv zeta.
  assert ((i <? 0)%Z = true) as Hi by (apply Z.ltb_lt; lia).
  assert ((i + Z.of_nat (List.length l) <? 0)%Z = false) as Hj by (apply Z.ltb_ge; lia).
  rewrite Hi. cbv iota. rewrite !Hj. reflexivity.
Qed.

Lemma list_index_below {A : Type} (l : list A) (i : Z) :
  (i < - Z.of_nat (List.length l))%Z -> list_index l i = Raise IndexError.
Proof.
  intro H. unfold list_index.
  destruct (Z.ltb_spec i 0); [|lia].
  destruct (Z.ltb_spec (i + Z.of_nat (List.length l)) 0); [reflexivity | lia].
Qed.

(** X10: the queries guard only the upper bound of the line number.  A
    negative line within the line count addresses the lines from the end
    (-1 is the last line), and a line below minus the line count makes all
    three queries raise [IndexError]. *)
Theorem negative_line_numbers (self : HALSParser) (line column : Z) :
  ((- Z.of_nat (List.length (lines self)) <= line < 0)%Z ->
   get_hover self line column =
     get_hover self (line + Z.of_nat (List.length (lines self))) column /\
   get_definition self line column =
     get_definition self (line + Z.of_nat (List.length (lines self))) column /\
   get_references_at self line column =
     get_references_at self (line + Z.of_nat (List.length (lines self))) column) /\
  ((line < - Z.of_nat (List.length (lines self)))%Z ->
   get_hover self line column = Raise IndexError /\
   get_definition self line column = Raise IndexError /\
   get_references_at self line column = Raise IndexError).
Proof.
  unfold get_hover, get_definition, get_references_at. split; intro H.
  - rewrite (list_index_wrap _ _ H).
    destruct (Z.leb_spec (Z.of_nat (List.length (lines self))) line); [lia|].
    destruct (Z.leb_spec (Z.of_nat (List.length (lines self)))
                         (line + Z.of_nat (List.length (lines self)))); [lia|].
    repeat split.
  - rewrite (list_index_below _ _ H).
    destruct (Z.leb_spec (Z.of_nat (List.length (lines self))) line); [lia|].
    repeat split.
Qed.

Lemma negative_line_numbers_witness :
  (get_hover (parse nav_loop_text init) (-2) 8 = get_hover (parse nav_loop_text init) 2 8 /\
   get_definition (parse nav_loop_text init) (-2) 8 =
     get_definition (parse nav_loop_text init) 2 8 /\
   get_references_at (parse nav_loop_text init) (-2) 8 =
     get_references_at (parse nav_loop_text init) 2 8) /\
  (get_hover (parse nav_loop_text init) (-5) 0 = Raise IndexError /\
   get_definition (parse nav_loop_text init) (-5) 0 = Raise IndexError /\
   get_references_at (parse nav_loop_text init) (-5) 0 = Raise IndexError).
Proof.
  split.
  - apply (proj1 (negative_line_numbers (parse nav_loop_text init) (-2) 8)).
    change (List.length (lines (parse nav_loop_text init))) with 4. lia.
  - apply (proj2 (negative_line_numbers (parse nav_loop_text init) (-5) 0)).
    change (List.length (lines (parse nav_loop_text init))) with 4. lia.
Defined.

(** ** The reference list *)

Lemma references_of_parse text self :
  references (parse text self) = spec_references (cleaned text).
Proof.
  unfold parse. fold (cleaned text). rewrite _parse_references_spec.
  rewrite _parse_labels_references.
  unfold _parse_replaces, _parse_structures, _parse_declares, declares_matrix,
    declares_vector, declares_constant, declares_array, declares_simple,
    _parse_compools, _parse_tasks, _parse_functions, _parse_procedures,
    _parse_programs.
  rewrite !declare_pass_references. reflexivity.
Qed.

Lemma tokens_bounds s : forall p i,
  Forall (fun t => i <= fst t < i + String.length s /\ snd t <> "") (tokens p s i).
Proof.
  induction s as [|c s IH]; intros p i; cbn [tokens]; [constructor|].
  apply Forall_app. split.
  - destruct (negb (is_word_opt p) && is_id_start c) eqn:E; [|constructor].
    apply andb_true_iff in E. destruct E as [_ Hc].
    constructor; [|constructor]. cbn [fst snd String.length take_word].
    rewrite (proj2 (proj2 (char_classes c)) Hc). split; [lia | discriminate].
  - eapply Forall_impl; [|apply (IH (Some c) (S i))].
    intros t [H1 H2]. cbn [String.length]. split; [lia | exact H2].
Qed.

Lemma tokens_sorted s : forall p i,
  StronglySorted (fun a b => fst a < fst b) (tokens p s i).
Proof.
  induction s as [|c s IH]; intros p i; cbn [tokens]; [constructor|].
  destruct (negb (is_word_opt p) && is_id_start c); cbn [app]; [|apply IH].
  constructor; [apply IH|].
  eapply Forall_impl; [|apply (tokens_bounds s (Some c) (S i))].
  intros t [H _]. cbn [fst]. lia.
Qed.

Lemma line_col_lower s : forall n l c,
  l <= fst (line_col s n l c) /\
  (fst (line_col s n l c) = l -> c <= snd (line_col s n l c)).
Proof.
  induction s as [|x s IH]; intros n l c.
  - destruct n; cbn; split; lia.
  - destruct n as [|n]; [cbn; split; lia|].
    cbn [line_col]. destruct (Ascii.eqb x nl).
    + destruct (IH n (S l) 0) as [H1 H2]. split; lia.
    + destruct (IH n l (S c)) as [H1 H2]. split; [exact H1|]. intro H. specialize (H2 H). lia.
Qed.

Lemma line_col_monotone s : forall o1 o2 l c,
  o1 < o2 -> o2 <= String.length s ->
  pos_before (line_col s o1 l c) (line_col s o2 l c).
Proof.
  unfold pos_before.
  induction s as [|x s IH]; intros o1 o2 l c Hlt Hle; cbn [String.length] in Hle; [lia|].
  destruct o2 as [|b]; [lia|]. destruct o1 as [|a].
  - cbn [line_col fst snd]. destruct (Ascii.eqb x nl).
    + destruct (line_col_lower s b (S l) 0) as [H1 _]. left. lia.
    + destruct (line_col_lower s b l (S c)) as [H1 H2].
      destruct (Nat.eq_dec (fst (line_col s b l (S c))) l) as [E|E].
      * right. specialize (H2 E). split; [now rewrite E | lia].
      * left. lia.
  - cbn [line_col]. destruct (Ascii.eqb x nl); apply IH; lia.
Qed.

Lemma reference_of_cases text tok r :
  In r (reference_of text tok) ->
  mem (upper (snd tok)) KEYWORDS = false /\
  r = Reference.new (upper (snd tok)) (fst (line_col text (fst tok) 0 0))
        (snd (line_col text (fst tok) 0 0))
        (snd (line_col text (fst tok) 0 0) + String.length (snd tok)).
Proof.
  destruct tok as [off w]. unfold reference_of. cbn [fst snd].
  destruct (mem (upper w) KEYWORDS); [intros []|].
  destruct (line_col text off 0 0) as [line col]. intros [<-|[]]. split; reflexivity.
Qed.

Lemma upper_nonempty w : w <> "" -> upper w <> "".
Proof. destruct w; [congruence | discriminate]. Qed.

Lemma references_sorted text toks :
  StronglySorted (fun a b => fst a < fst b) toks ->
  Forall (fun t => fst t <= String.length text) toks ->
  StronglySorted ref_before (flat_map (reference_of text) toks).
Proof.
  induction 1 as [|tok toks Hs IH Hall]; intro Hb; cbn [flat_map]; [constructor|].
  inversion Hb as [|? ? Htok Hrest]; subst. specialize (IH Hrest).
  destruct (reference_of text tok) as [|r [|r' rs]] eqn:E; cbn [app].
  - exact IH.
  - constructor; [exact IH|].
    assert (In r (reference_of text tok)) as Hr by (rewrite E; now left).
    apply reference_of_cases in Hr. destruct Hr as [_ ->].
    apply Forall_forall. intros r2 Hr2. apply in_flat_map in Hr2.
    destruct Hr2 as (tok2 & Hin2 & Hr2). apply reference_of_cases in Hr2.
    destruct Hr2 as [_ ->]. unfold ref_before. cbn.
    apply line_col_monotone.
    + exact (proj1 (Forall_forall _ _) Hall tok2 Hin2).
    + exact (proj1 (Forall_forall _ _) Hrest tok2 Hin2).
  - exfalso. destruct tok as [off w]. unfold reference_of in E.
    destruct (mem (upper w) KEYWORDS); [discriminate|].
    destruct (line_col text off 0 0); discriminate.
Qed.

(** X11: the reference list is in document order, strictly: each
    reference is further down the normalized text than the one before, so
    no occurrence is listed twice. *)
Theorem references_in_document_order (text : string) (self : HALSParser) :
  StronglySorted ref_before (references (parse text self)).
Proof.
  rewrite references_of_parse. unfold spec_references.
  apply references_sorted; [apply tokens_sorted|].
  eapply Forall_impl; [|apply (tokens_bounds (cleaned text) None 0)].
  intros t [H _]. cbn in H. lia.
Qed.

(** X12: every reference carries a canonical, non-empty name that is not
    a keyword, spans exactly the length of its name, and has no context
    text. *)
Theorem references_well_formed (text : string) (self : HALSParser) :
  Forall reference_ok (references (parse text self)).
Proof.
  rewrite references_of_parse. unfold spec_references.
  apply Forall_forall. intros r Hr. apply in_flat_map in Hr.
  destruct Hr as (tok & Hin & Hr). apply reference_of_cases in Hr.
  destruct Hr as [Hk ->].
  pose proof (proj1 (Forall_forall _ _) (tokens_bounds (cleaned text) None 0) tok Hin)
    as [_ Hne].
  unfold reference_ok. cbn. repeat split.
  - apply upper_idem.
  - exact Hk.
  - now rewrite length_upper.
  - now apply upper_nonempty.
Qed.

(** ** Completion *)

Lemma insert_str_perm x l : Permutation (x :: l) (insert_str x l).
Proof.
  induction l as [|y l IH]; cbn; [apply Permutation_refl|].
  destruct (String.leb x y); [apply Permutation_refl|].
  eapply perm_trans; [apply perm_swap | now apply perm_skip].
Qed.

Lemma sorted_strings_perm l : Permutation l (sorted_strings l).
Proof.
  induction l as [|x l IH]; cbn; [constructor|].
  eapply perm_trans; [apply perm_skip, IH | apply insert_str_perm].
Qed.

Lemma ascending_sorted l :
  ascending l = true -> Sorted (fun a b => String.ltb a b = true) l.
Proof.
  induction l as [|a l IH]; intro H; [constructor|].
  cbn [ascending] in H. destruct l as [|b l]; [repeat constructor|].
  apply andb_true_iff in H. destruct H as [Hab Hl].
  constructor; [now apply IH | now constructor].
Qed.

(** X13: completion ignores the cursor.  It lists the 122 keywords
    first, each once and in ascending order, all of kind [keyword], and
    then one item per entry of the symbol table in table order; nothing is
    filtered by prefix. *)
Theorem completions_layout (self : HALSParser) (line column : Z) :
  List.length (get_completions self line column) = 122 + List.length (symbols self) /\
  Permutation KEYWORDS (map comp_label (firstn 122 (get_completions self line column))) /\
  Sorted (fun a b => String.ltb a b = true)
         (map comp_label (firstn 122 (get_completions self line column))) /\
  Forall (fun c => comp_kind c = "keyword") (firstn 122 (get_completions self line column)) /\
  skipn 122 (get_completions self line column) = map symbol_item (symbols self).
Proof.
  unfold get_completions.
  set (A := map keyword_item (sorted_strings KEYWORDS)).
  set (B := map symbol_item (symbols self)).
  assert (List.length A = 122) as Hlen by (vm_compute; reflexivity).
  assert (firstn 122 (A ++ B) = A) as ->.
  { rewrite <- Hlen, firstn_app, Nat.sub_diag, firstn_all.
    change (firstn 0 B) with (@nil Completion). apply app_nil_r. }
  assert (skipn 122 (A ++ B) = B) as ->.
  { rewrite <- Hlen, skipn_app, Nat.sub_diag, skipn_all. reflexivity. }
  subst A B. repeat split.
  - rewrite length_app, Hlen, length_map. reflexivity.
  - rewrite map_map. cbn [keyword_item comp_label]. rewrite map_id.
    apply sorted_strings_perm.
  - rewrite map_map. cbn [keyword_item comp_label]. rewrite map_id.
    apply ascending_sorted. vm_compute. reflexivity.
  - apply Forall_forall. intros c Hc. apply in_map_iff in Hc.
    destruct Hc as (kw & <- & _). reflexivity.
Qed.

(** ** Tokens of a line and tokens of the text *)

Lemma lines_of_parse text self : lines (parse text self) = split_on nl text.
Proof.
  unfold parse, _parse_references, _parse_labels, _parse_replaces, _parse_structures,
    _parse_declares, declares_matrix, declares_vector, declares_constant,
    declares_array, declares_simple, _parse_compools, _parse_tasks,
    _parse_functions, _parse_procedures, _parse_programs, declare_pass.
  repeat (rewrite (fold_left_preserved lines);
          [| intros s m;
             first [ reflexivity
                   | unfold label_step; destruct (unit_follows _ m); [reflexivity|];
                     destruct (dict_has _ _); reflexivity
                   | unfold reference_step; destruct (mem _ _); [reflexivity|];
                     destruct (_find_position _ (m_start m)); reflexivity ]]).
  reflexivity.
Qed.

Lemma tokens_ext s p p' i :
  is_word_opt p = is_word_opt p' -> tokens p s i = tokens p' s i.
Proof. intro H. destruct s as [|c s]; [reflexivity|]. cbn [tokens]. now rewrite H. Qed.

Lemma tokens_shift s d : forall p i,
  tokens p s (i + d) = map (fun t => (fst t + d, snd t)) (tokens p s i).
Proof.
  induction s as [|c s IH]; intros p i; [reflexivity|].
  cbn [tokens]. rewrite map_app. f_equal.
  - destruct (negb (is_word_opt p) && is_id_start c); reflexivity.
  - apply (IH (Some c) (S i)).
Qed.

Lemma take_word_first_line s : forall h t,
  split_on nl s = h :: t -> take_word h = take_word s.
Proof.
  induction s as [|x s IH]; intros h t H; cbn [split_on] in H.
  - now injection H as <- <-.
  - destruct (Ascii.eqb_spec x nl) as [->|Hx].
    + injection H as <- <-. reflexivity.
    + pose proof (split_on_nonempty nl s) as Hne.
      destruct (split_on nl s) as [|h' t']; [congruence|].
      injection H as <- <-. cbn [take_word]. now rewrite (IH h' t' eq_refl).
Qed.

Lemma tokens_of_line s : forall p i n l j w p',
  nth_error (split_on nl s) n = Some l ->
  (if n =? 0 then is_word_opt p' = is_word_opt p else is_word_opt p' = false) ->
  In (j, w) (tokens p' l 0) ->
  In (i + line_start (split_on nl s) n + j, w) (tokens p s i).
Proof.
  induction s as [|x s IH]; intros p i n l j w p' Hn Hp Hin.
  - cbn [split_on] in Hn. destruct n as [|[|n]]; cbn in Hn; try discriminate.
    injection Hn as <-. destruct Hin.
  - cbn [split_on] in *. destruct (Ascii.eqb_spec x nl) as [->|Hx].
    + destruct n as [|n]; cbn [nth_error] in Hn.
      * injection Hn as <-. destruct Hin.
      * cbn [tokens line_start String.length].
        apply in_or_app. right.
        replace (i + (1 + line_start (split_on nl s) n) + j)
          with (S i + line_start (split_on nl s) n + j) by lia.
        apply (IH (Some nl) (S i) n l j w p' Hn); [|exact Hin].
        cbn [Nat.eqb] in Hp. destruct (n =? 0); exact Hp.
    + pose proof (split_on_nonempty nl s) as Hne.
      destruct (split_on nl s) as [|h t] eqn:Es; [congruence|].
      destruct n as [|n]; cbn [nth_error] in Hn.
      * injection Hn as <-. cbn [Nat.eqb] in Hp. cbn [line_start].
        cbn [tokens] in Hin |- *. apply in_app_or in Hin. apply in_or_app.
        destruct Hin as [Hin|Hin].
        -- left. rewrite <- Hp.
           destruct (negb (is_word_opt p') && is_id_start x); [|destruct Hin].
           destruct Hin as [Heq|[]]. injection Heq as <- <-. left.
           f_equal; [lia|]. cbn [take_word].
           now rewrite (take_word_first_line s h t Es).
        -- right. change 1 with (0 + 1) in Hin. rewrite tokens_shift in Hin.
           apply in_map_iff in Hin. destruct Hin as ([j0 w0] & Heq & Hin).
           cbn [fst snd] in Heq. injection Heq as <- <-.
           replace (i + 0 + (j0 + 1)) with (S i + line_start (h :: t) 0 + j0)
             by (cbn [line_start]; lia).
           apply (IH (Some x) (S i) 0 h j0 w0 (Some x)); [reflexivity | reflexivity | exact Hin].
      * cbn [tokens]. apply in_or_app. right.
        replace (i + line_start (String x h :: t) (S n) + j)
          with (S i + line_start (h :: t) (S n) + j)
          by (cbn [line_start String.length]; lia).
        apply (IH (Some x) (S i) (S n) l j w p'); [exact Hn | exact Hp | exact Hin].
Qed.

Lemma line_col_of_line s : forall n l j,
  nth_error (split_on nl s) n = Some l ->
  j <= String.length l ->
  line_col s (line_start (split_on nl s) n + j) 0 0 = (n, j).
Proof.
  induction s as [|x s IH]; intros n l j Hn Hj.
  - cbn [split_on] in Hn. destruct n as [|[|n]]; cbn in Hn; try discriminate.
    injection Hn as <-. cbn in Hj. assert (j = 0) as -> by lia. reflexivity.
  - cbn [split_on] in *. destruct (Ascii.eqb x nl) eqn:Ex.
    + destruct n as [|n]; cbn [nth_error] in Hn.
      * injection Hn as <-. cbn in Hj. assert (j = 0) as -> by lia. reflexivity.
      * cbn [line_start String.length Nat.add line_col]. rewrite Ex.
        rewrite line_col_shift, (IH n l j Hn Hj). cbn [fst snd].
        destruct (n =? 0); reflexivity.
    + pose proof (split_on_nonempty nl s) as Hne.
      destruct (split_on nl s) as [|h t] eqn:Es; [congruence|].
      destruct n as [|n]; cbn [nth_error] in Hn.
      * injection Hn as <-. cbn [line_start Nat.add]. destruct j as [|j]; [reflexivity|].
        cbn [line_col]. rewrite Ex. cbn [String.length] in Hj.
        rewrite line_col_shift.
        assert (line_col s j 0 0 = (0, j)) as ->.
        { apply (IH 0 h j); [reflexivity | lia]. }
        reflexivity.
      * change (line_start (String x h :: t) (S n) + j)
          with (S (line_start (h :: t) (S n) + j)).
        cbn [line_col]. rewrite Ex.
        rewrite line_col_shift, (IH (S n) l j Hn Hj). reflexivity.
Qed.

Lemma word_at_token line_text column w :
  word_at line_text column = Some w ->
  exists j w',
    In (j, w') (tokens None line_text 0) /\ w = upper w' /\
    (Z.of_nat j <= column <= Z.of_nat (j + String.length w'))%Z.
Proof.
  unfold word_at. rewrite finditer_ident.
  destruct (find (covers column) (map token_match (tokens None line_text 0))) as [m|] eqn:E;
    [|discriminate].
  intro H. injection H as <-. apply find_some in E. destruct E as [Hin Hc].
  apply in_map_iff in Hin. destruct Hin as ([j w'] & <- & Hin).
  exists j, w'. split; [exact Hin|].
  pose proof (proj1 (Forall_forall _ _) (tokens_slice line_text "" None) (j, w') Hin) as Hs.
  cbn [fst snd String.append] in Hs.
  unfold covers, token_match in Hc. cbn [m_start m_end] in Hc.
  apply andb_true_iff in Hc. destruct Hc as [H1 H2]. apply Z.leb_le in H1, H2.
  split; [|split; assumption].
  unfold grp, group, token_match. cbn [m_caps cap_lookup Nat.eqb]. now rewrite Hs.
Qed.

(** X14: find-references finds the occurrence under the cursor.  When
    the text is its own normalized form (no continuation markers, no
    comments), and the cursor is on an identifier of an existing line that
    is not a keyword, the query returns a list that contains the span of
    that very identifier on that line. *)
Theorem references_include_cursor
        (text : string) (self : HALSParser) (line column : Z) (line_text w : string) :
  cleaned text = text ->
  (0 <= line)%Z ->
  nth_error (split_on nl text) (Z.to_nat line) = Some line_text ->
  word_at line_text column = Some w ->
  mem w KEYWORDS = false ->
  exists j e result,
    (Z.of_nat j <= column <= Z.of_nat e)%Z /\
    get_references_at (parse text self) line column = Ok result /\
    In (Sp (Z.to_nat line) j e) result.
Proof.
  intros Hc Hline Hnth Hw Hk.
  destruct (word_at_token _ _ _ Hw) as (j & w' & Hin & -> & Hcol).
  pose proof (proj1 (Forall_forall _ _) (tokens_bounds line_text None 0) (j, w') Hin)
    as [Hj Hne]. cbn [fst snd] in Hj, Hne.
  exists j, (j + String.length w').
  unfold get_references_at. rewrite lines_of_parse.
  assert (Z.to_nat line < List.length (split_on nl text)) as Hlt
    by (apply nth_error_Some; congruence).
  destruct (Z.leb_spec (Z.of_nat (List.length (split_on nl text))) line); [lia|].
  destruct (list_index_nonneg (split_on nl text) line ltac:(lia)) as (x & Hx & ->).
  rewrite Hnth in Hx. injection Hx as <-. rewrite Hw.
  destruct (upper w') as [|c0 u] eqn:Eu.
  { exfalso. now apply (upper_nonempty w' Hne). }
  eexists. split; [exact Hcol|]. split; [reflexivity|].
  rewrite references_of_parse, Hc. unfold spec_references.
  apply in_map_iff.
  exists (Reference.new (upper w') (Z.to_nat line) j (j + String.length w')).
  split; [reflexivity|]. apply filter_In. split.
  - apply in_flat_map. exists (line_start (split_on nl text) (Z.to_nat line) + j, w').
    split.
    + apply (tokens_of_line text None 0 (Z.to_nat line) line_text j w' None Hnth);
        [destruct (Z.to_nat line =? 0); reflexivity | exact Hin].
    + unfold reference_of. rewrite Eu, Hk.
      rewrite (line_col_of_line text _ line_text j Hnth) by lia. now left.
  - cbn [Reference.name Reference.new]. rewrite <- Eu. apply String.eqb_refl.
Qed.

Lemma references_include_cursor_witness :
  exists j e result,
    (Z.of_nat j <= 8 <= Z.of_nat e)%Z /\
    get_references_at (parse "GO TO NAV_LOOP;" init) 0 8 = Ok result /\
    In (Sp (Z.to_nat 0) j e) result.
Proof.
  apply (references_include_cursor "GO TO NAV_LOOP;" init 0 8 "GO TO NAV_LOOP;" "NAV_LOOP");
    first [reflexivity | lia].
Defined.

(** Without the premise the answer can miss the cursor: behind a dropped
    line the references are one line up. *)
Example references_shifted_by_dropped_line :
  get_references_at (parse continued_text init) 1 0 = Ok [Sp 0 0 1].
Proof. reflexivity. Qed.

(** ** Walking the subject *)

Lemma ahead_trans cu1 cu2 cu3 : ahead cu1 cu2 -> ahead cu2 cu3 -> ahead cu1 cu3.
Proof.
  induction 1 as [cu|p c s i cu' H IH]; intro H3; [exact H3|].
  apply ahead_step, IH, H3.
Qed.

Lemma ahead_one p c s i : ahead (Cur p (String c s) i) (Cur (Some c) s (S i)).
Proof. apply ahead_step, ahead_here. Qed.

Lemma ahead_suffix cu cu' :
  ahead cu cu' ->
  exists pre, rest cu = pre +++ rest cu' /\ pos cu' = pos cu + String.length pre.
Proof.
  induction 1 as [cu|p c s i cu' H (pre & IH1 & IH2)].
  - exists "". cbn. split; [reflexivity | lia].
  - exists (String c pre). cbn in *. split; [now rewrite IH1 | lia].
Qed.

Lemma eat_lit_ahead l : forall p s i cu,
  eat_lit l p s i = Some cu -> ahead (Cur p s i) cu.
Proof.
  induction l as [|a l IH]; intros p s i cu H; cbn [eat_lit] in H.
  - injection H as <-. apply ahead_here.
  - destruct s as [|c s]; [discriminate|].
    destruct (Ascii.eqb _ _); [|discriminate].
    apply ahead_step, IH, H.
Qed.

Lemma star_greedy_ahead cs K s : forall p i res,
  star_greedy cs K p s i = Some res ->
  exists cu, ahead (Cur p s i) cu /\ K cu = Some res /\
             (pos cu = i \/ exists c, prev cu = Some c /\ in_set cs c = true).
Proof.
  induction s as [|c s IH]; intros p i res H; cbn [star_greedy] in H.
  - eexists. split; [apply ahead_here|]. split; [exact H | now left].
  - destruct (in_set cs c) eqn:Hc.
    + destruct (star_greedy cs K (Some c) s (S i)) eqn:E.
      * injection H as <-. destruct (IH _ _ _ E) as (cu & Ha & Hk & Hp).
        exists cu. split; [now apply ahead_step|]. split; [exact Hk|].
        right. destruct Hp as [Hp|Hp]; [|exact Hp].
        destruct (ahead_suffix _ _ Ha) as (pre & Hpre & Hpos). cbn [rest pos] in *.
        destruct pre as [|x pre]; [|cbn in Hpos; lia].
        inversion Ha as [cu0 E1 E2|? ? ? ? ? Hstep]; subst.
        -- exists c. now split.
        -- apply ahead_suffix in Hstep. destruct Hstep as (pre' & _ & Hpos').
           cbn in Hpos'. cbn in Hpos. lia.
      * eexists. split; [apply ahead_here|]. split; [exact H | now left].
    + eexists. split; [apply ahead_here|]. split; [exact H | now left].
Qed.

Lemma star_lazy_ahead cs K s : forall p i res,
  star_lazy cs K p s i = Some res ->
  exists cu, ahead (Cur p s i) cu /\ K cu = Some res.
Proof.
  induction s as [|c s IH]; intros p i res H; cbn [star_lazy] in H.
  - destruct (K (Cur p "" i)) eqn:E; [|discriminate].
    exists (Cur p "" i). split; [apply ahead_here | congruence].
  - destruct (K (Cur p (String c s) i)) eqn:E.
    + exists (Cur p (String c s) i). split; [apply ahead_here | congruence].
    + destruct (in_set cs c); [|discriminate].
      destruct (IH _ _ _ H) as (cu & Ha & Hk). exists cu. split; [now apply ahead_step | exact Hk].
Qed.

Lemma cursor_eta cu : Cur (prev cu) (rest cu) (pos cu) = cu.
Proof. now destruct cu. Qed.

(** A successful run hands over at a cursor further along the subject,
    and a pattern without group 1 leaves that group as it was. *)
Lemma run_ahead r : forall cu caps k res,
  run r cu caps k = Some res ->
  exists cu' caps',
    ahead cu cu' /\ k cu' caps' = Some res /\
    (keeps1 r = true -> cap_lookup 1 caps' = cap_lookup 1 caps).
Proof.
  induction r as [l|cs| |cs|cs|cs|r1 IH1 r2 IH2|r1 IH1 r2 IH2|r1 IH1|n r1 IH1];
    intros cu caps k res H; cbn [run] in H.
  - destruct (eat_lit l (prev cu) (rest cu) (pos cu)) as [cu'|] eqn:E; [|discriminate].
    apply eat_lit_ahead in E. rewrite cursor_eta in E. exists cu', caps. auto.
  - destruct cu as [p s i]. cbn [rest pos] in H. destruct s as [|c s]; [discriminate|].
    destruct (in_set cs c); [|discriminate].
    eexists _, caps. split; [apply ahead_one | auto].
  - destruct (at_boundary cu); [|discriminate]. exists cu, caps.
    split; [apply ahead_here | auto].
  - apply star_greedy_ahead in H. destruct H as (cu' & Ha & Hk & _).
    rewrite cursor_eta in Ha. exists cu', caps. auto.
  - destruct cu as [p s i]. cbn [rest pos] in H. destruct s as [|c s]; [discriminate|].
    destruct (in_set cs c); [|discriminate].
    apply star_greedy_ahead in H. destruct H as (cu' & Ha & Hk & _).
    exists cu', caps. split; [now apply ahead_step | auto].
  - apply star_lazy_ahead in H. destruct H as (cu' & Ha & Hk).
    rewrite cursor_eta in Ha. exists cu', caps. auto.
  - apply IH1 in H. destruct H as (cu1 & caps1 & Ha1 & H & Hk1).
    apply IH2 in H. destruct H as (cu2 & caps2 & Ha2 & H & Hk2).
    exists cu2, caps2. split; [eapply ahead_trans; eassumption|]. split; [exact H|].
    cbn [keeps1]. intro Hk. apply andb_true_iff in Hk. destruct Hk as [K1 K2].
    now rewrite (Hk2 K2), (Hk1 K1).
  - cbn [keeps1]. destruct (run r1 cu caps k) eqn:E.
    + injection H as <-. apply IH1 in E. destruct E as (cu1 & caps1 & Ha & H & Hk).
      exists cu1, caps1. split; [exact Ha|]. split; [exact H|].
      intro K. apply andb_true_iff in K. now apply Hk.
    + apply IH2 in H. destruct H as (cu1 & caps1 & Ha & H & Hk).
      exists cu1, caps1. split; [exact Ha|]. split; [exact H|].
      intro K. apply andb_true_iff in K. now apply Hk.
  - cbn [keeps1]. destruct (run r1 cu caps k) eqn:E.
    + injection H as <-. now apply IH1 in E.
    + exists cu, caps. split; [apply ahead_here | auto].
  - apply IH1 in H. destruct H as (cu1 & caps1 & Ha & H & Hk).
    eexists _, _. split; [exact Ha|]. split; [exact H|].
    cbn [keeps1 cap_lookup]. intro K. apply andb_true_iff in K. destruct K as [Kn K1].
    apply negb_true_iff in Kn. rewrite Kn. now apply Hk.
Qed.

Lemma ahead_same_pos cu cu' : ahead cu cu' -> pos cu' = pos cu -> cu' = cu.
Proof.
  intros Ha Hp. inversion Ha as [|p c s i cu2 Hstep]; subst; [reflexivity|].
  apply ahead_suffix in Hstep. destruct Hstep as (pre & _ & Hpos).
  cbn [pos] in *. lia.
Qed.

Lemma skip_word_props s : forall p i,
  ahead (Cur p s i) (skip_word p s i) /\
  pos (skip_word p s i) = i + String.length (take_word s) /\
  word_after (skip_word p s i) = false.
Proof.
  induction s as [|c s IH]; intros p i; cbn [skip_word take_word].
  - repeat split; [apply ahead_here | cbn; lia].
  - destruct (is_word c) eqn:Hc.
    + destruct (IH (Some c) (S i)) as (H1 & H2 & H3).
      repeat split; [now apply ahead_step | cbn [String.length]; lia | exact H3].
    + repeat split; [apply ahead_here | cbn; lia | unfold word_after; cbn; exact Hc].
Qed.

(** In front of a continuation that cannot start at a word character the
    greedy run of identifier characters takes all of them. *)
Lemma star_greedy_blocked (K : cursor -> outcome) :
  (forall cu, word_after cu = true -> K cu = None) ->
  forall s p i, star_greedy id_cont K p s i = K (skip_word p s i).
Proof.
  intros HK s. induction s as [|c s IH]; intros p i; cbn [star_greedy skip_word].
  - reflexivity.
  - rewrite (proj1 (proj2 (char_classes c))). destruct (is_word c) eqn:Hc; [|reflexivity].
    rewrite IH. destruct (K (skip_word (Some c) s (S i))); [reflexivity|].
    apply HK. unfold word_after. cbn. exact Hc.
Qed.

Lemma word_char_facts (c : ascii) :
  is_word c = true ->
  is_space c = false /\ Ascii.eqb (char_lower c) (char_lower ":") = false.
Proof.
  destruct c as [[] [] [] [] [] [] [] []]; vm_compute; split; congruence.
Qed.

Lemma space_char_facts (c : ascii) : is_space c = true -> is_word c = false.
Proof.
  destruct c as [[] [] [] [] [] [] [] []]; vm_compute; congruence.
Qed.

Lemma blocks_colon tail : blocks (Cat ws (Cat (Lit ":") tail)).
Proof.
  intros cu caps k Hw. unfold ws. cbn [run].
  destruct cu as [p s i]. unfold word_after in Hw. cbn [rest prev pos] in *.
  destruct s as [|c s]; [discriminate|].
  destruct (word_char_facts c Hw) as [Hs Hc].
  cbn [star_greedy in_set]. rewrite Hs. cbn [prev rest pos eat_lit]. now rewrite Hc.
Qed.

Lemma blocks_space tail : blocks (Cat ws1 tail).
Proof.
  intros cu caps k Hw. unfold ws1. cbn [run].
  destruct cu as [p s i]. unfold word_after in Hw. cbn [rest prev pos] in *.
  destruct s as [|c s]; [discriminate|].
  destruct (word_char_facts c Hw) as [Hs _]. cbn [in_set]. now rewrite Hs.
Qed.

(** The name group in front of a blocking tail captures the whole run of
    word characters. *)
Lemma run_name_group tail cu caps k res :
  blocks tail ->
  run (Cat (Grp 1 ident) tail) cu caps k = Some res ->
  exists c s',
    rest cu = String c s' /\ is_id_start c = true /\
    run tail (skip_word (prev cu) (rest cu) (pos cu))
        ((1, (pos cu, pos cu + String.length (take_word (rest cu)))) :: caps) k = Some res.
Proof.
  intros Hb H. unfold ident in H. cbn [run] in H.
  destruct (rest cu) as [|c s'] eqn:Er; [discriminate|].
  rewrite (proj1 (char_classes c)) in H.
  destruct (is_id_start c) eqn:Hc; [|discriminate].
  exists c, s'. split; [reflexivity|]. split; [exact Hc|].
  cbn [prev rest pos] in H. rewrite star_greedy_blocked in H.
  - pose proof (proj2 (proj2 (char_classes c)) Hc) as Hw.
    cbn [skip_word take_word]. rewrite Hw.
    destruct (skip_word_props s' (Some c) (S (pos cu))) as (_ & Hp & _).
    rewrite Hp in H. cbn [String.length].
    replace (pos cu + S (String.length (take_word s')))
      with (S (pos cu) + String.length (take_word s')) by lia.
    exact H.
  - intros cu' Hw. apply Hb, Hw.
Qed.

Lemma keeps1_final cu caps1 tail e caps :
  keeps1 tail = true ->
  run tail cu caps1 (fun cu' caps' => Some (pos cu', caps')) = Some (e, caps) ->
  cap_lookup 1 caps = cap_lookup 1 caps1.
Proof.
  intros Hk H. apply run_ahead in H. destruct H as (cu' & caps' & _ & H & Hl).
  injection H as _ <-. now apply Hl.
Qed.

Lemma unit_shape_names tail cu e caps :
  keeps1 tail = true ->
  match_at (unit_shape tail) cu = Some (e, caps) -> names_token cu caps.
Proof.
  intros Hk H. unfold match_at, unit_shape in H.
  change (run (Cat WordB ?r) cu [] ?k) with (if at_boundary cu then run r cu [] k else None) in H.
  destruct (at_boundary cu) eqn:Hb; [|discriminate].
  apply run_name_group in H; [|apply blocks_colon].
  destruct H as (c & s' & Er & Hc & H).
  apply keeps1_final in H; [|cbn [keeps1 ws]; now rewrite Hk].
  exists cu, c, s'. split; [apply ahead_here|]. split; [exact Er|].
  split; [|split; [exact Hc | exact H]].
  unfold at_boundary, word_before, word_after in Hb. rewrite Er in Hb.
  rewrite (proj2 (proj2 (char_classes c)) Hc) in Hb.
  unfold is_word_opt. destruct (prev cu) as [c0|]; [|reflexivity].
  destruct (is_word c0); [discriminate | reflexivity].
Qed.

Lemma keyword_shape_names kw tail cu e caps :
  keeps1 tail = true ->
  match_at (keyword_shape kw tail) cu = Some (e, caps) -> names_token cu caps.
Proof.
  intros Hk H. unfold match_at, keyword_shape in H.
  change (run (Cat WordB ?r) cu [] ?k) with (if at_boundary cu then run r cu [] k else None) in H.
  destruct (at_boundary cu); [|discriminate].
  cbn [run] in H.
  destruct (eat_lit kw (prev cu) (rest cu) (pos cu)) as [cu1|] eqn:E1; [|discriminate].
  apply eat_lit_ahead in E1. rewrite cursor_eta in E1.
  unfold ws1 at 1 in H. cbn [run] in H.
  destruct cu1 as [p1 s1 i1]. cbn [rest prev pos] in H.
  destruct s1 as [|c1 s1]; [discriminate|].
  destruct (in_set Space c1) eqn:Hsp; [|discriminate].
  apply star_greedy_ahead in H. destruct H as (cu2 & Ha2 & H & Hp2).
  assert (is_word_opt (prev cu2) = false) as Hprev.
  { cbn [in_set] in Hsp. destruct Hp2 as [Hp2|(x & Hx & Hin)].
    - apply (ahead_same_pos _ _ Ha2) in Hp2. subst cu2. cbn. now apply space_char_facts.
    - rewrite Hx. cbn. now apply space_char_facts. }
  change (run (Cat (Grp 1 ident) (Cat ws1 tail)) cu2 []
              (fun cu' caps' => Some (pos cu', caps')) = Some (e, caps)) in H.
  apply run_name_group in H; [|apply blocks_space].
  destruct H as (c & s' & Er & Hc & H).
  apply keeps1_final in H; [|cbn [keeps1 ws1]; exact Hk].
  exists cu2, c, s'. split; [|repeat split; assumption].
  eapply ahead_trans; [exact E1|]. apply ahead_step, Ha2.
Qed.

(** Every symbol pattern is of one of the two shapes. *)
Lemma symbol_patterns_name_tokens :
  Forall (fun re => forall cu e caps, match_at re cu = Some (e, caps) -> names_token cu caps)
         symbol_patterns.
Proof.
  unfold symbol_patterns.
  repeat (apply Forall_cons;
    [ intros cu e caps H;
      first [ refine (unit_shape_names _ cu e caps _ H); reflexivity
            | refine (keyword_shape_names _ _ cu e caps _ H); reflexivity ]
    | ]).
  apply Forall_nil.
Qed.

(** ** Matches are found at cursors of the text *)

Lemma scan_sound r s : forall p i skip m,
  In m (scan r p s i skip) ->
  exists cu,
    ahead (Cur p s i) cu /\ pos cu = m_start m /\
    match_at r cu = Some (m_end m, m_caps m).
Proof.
  induction s as [|c s IH]; intros p i skip m Hin.
  - destruct skip; cbn [scan] in Hin; [|destruct Hin].
    destruct (match_at r (Cur p "" i)) as [[e caps]|] eqn:E; [|destruct Hin].
    destruct Hin as [<-|[]]. exists (Cur p "" i).
    split; [apply ahead_here|]. split; [reflexivity | exact E].
  - destruct skip as [|n]; cbn [scan] in Hin.
    + destruct (match_at r (Cur p (String c s) i)) as [[e caps]|] eqn:E.
      * destruct Hin as [<-|Hin].
        -- exists (Cur p (String c s) i).
           split; [apply ahead_here|]. split; [reflexivity | exact E].
        -- destruct (IH _ _ _ _ Hin) as (cu & Ha & Hp & Hm).
           exists cu. split; [now apply ahead_step | now split].
      * destruct (IH _ _ _ _ Hin) as (cu & Ha & Hp & Hm).
        exists cu. split; [now apply ahead_step | now split].
    + destruct (IH _ _ _ _ Hin) as (cu & Ha & Hp & Hm).
      exists cu. split; [now apply ahead_step | now split].
Qed.

Lemma token_ahead cu0 cu : ahead cu0 cu ->
  forall c s', rest cu = String c s' ->
  is_word_opt (prev cu) = false -> is_id_start c = true ->
  In (pos cu, take_word (rest cu)) (tokens (prev cu0) (rest cu0) (pos cu0)).
Proof.
  induction 1 as [cu|p c0 s i cu' H IH]; intros c s' Er Hp Hc.
  - rewrite Er. cbn [tokens]. rewrite Hp, Hc. now left.
  - cbn [prev rest pos tokens]. apply in_or_app. right.
    exact (IH c s' Er Hp Hc).
Qed.

(** The name captured by a match of a symbol pattern is an identifier
    token of the text, at or behind the start of the match. *)
Lemma match_name_token re text m :
  In re symbol_patterns -> In m (finditer re text) ->
  m_start m <= String.length text /\
  exists a, In (a, grp text m 1) (tokens None text 0).
Proof.
  intros Hre Hin. unfold finditer in Hin. apply scan_sound in Hin.
  destruct Hin as (cu0 & Ha0 & Hp0 & Hm).
  split.
  { destruct (ahead_suffix _ _ Ha0) as (pre & Hpre & Hpos). cbn [rest pos] in *.
    rewrite <- Hp0, Hpos, Hpre, length_append. lia. }
  pose proof (proj1 (Forall_forall _ _) symbol_patterns_name_tokens re Hre _ _ _ Hm)
    as (cu & c & s' & Ha & Er & Hp & Hc & Hcap).
  pose proof (ahead_trans _ _ _ Ha0 Ha) as Hat.
  exists (pos cu).
  replace (grp text m 1) with (take_word (rest cu)).
  - exact (token_ahead _ _ Hat c s' Er Hp Hc).
  - unfold grp, group. rewrite Hcap. unfold slice.
    destruct (ahead_suffix _ _ Hat) as (pre & Hpre & Hpos). cbn [rest pos] in *.
    rewrite Hpre, Hpos.
    replace (0 + String.length pre + String.length (take_word (rest cu))
             - (0 + String.length pre))
      with (String.length (take_word (rest cu))) by lia.
    cbn [Nat.add]. now rewrite substring_skip, substring_take_word.
Qed.

Lemma fold_left_inv_in {S M : Type} (I : S -> Prop) (step : S -> M -> S) (ms : list M) :
  (forall s m, In m ms -> I s -> I (step s m)) -> forall s, I s -> I (fold_left step ms s).
Proof.
  induction ms as [|m ms IH]; intros Hstep s H; cbn; [exact H|].
  apply IH.
  - intros s' m' Hin. apply Hstep. now right.
  - apply Hstep; [now left | exact H].
Qed.

Lemma declare_pass_matches P re mk text self :
  (forall m, In m (finditer re text) -> P (upper (grp text m 1), mk text m)) ->
  Forall P (symbols self) -> Forall P (symbols (declare_pass re mk text self)).
Proof.
  intro Hmk. unfold declare_pass. apply (fold_left_inv_in (fun s => Forall P (symbols s))).
  intros s m Hin Hs. unfold record_symbol. cbn [symbols set_symbol].
  apply dict_set_Forall; [now apply Hmk | exact Hs].
Qed.

Lemma _parse_labels_matches P text self :
  (forall m, In m (finditer label_re text) -> P (upper (grp text m 1), label_symbol text m)) ->
  Forall P (symbols self) -> Forall P (symbols (_parse_labels text self)).
Proof.
  intro Hmk. unfold _parse_labels. apply (fold_left_inv_in (fun s => Forall P (symbols s))).
  intros s m Hin Hs. unfold label_step.
  destruct (unit_follows text m); [exact Hs|].
  destruct (dict_has _ _); [exact Hs|]. cbn [symbols set_symbol].
  apply dict_set_Forall; [now apply Hmk | exact Hs].
Qed.

(** Every entry of the table after [parse] satisfies what holds of the
    symbols the passes build from their matches on the normalized text. *)
Lemma parse_matches (P : string * Symbol.t -> Prop) text :
  Forall (fun p => forall m, In m (finditer (fst p) (cleaned text)) ->
                             P (upper (grp (cleaned text) m 1), snd p (cleaned text) m))
         symbol_passes ->
  forall self, Forall P (symbols (parse text self)).
Proof.
  unfold symbol_passes, declaration_passes. cbn [app]. intros H self.
  repeat match goal with
         | H : Forall _ (_ :: _) |- _ =>
             let H1 := fresh "Hmk" in
             apply Forall_cons_iff in H; destruct H as [H1 H]
         end.
  cbn [fst snd] in *.
  unfold parse. fold (cleaned text). rewrite _parse_references_symbols.
  apply _parse_labels_matches; [assumption|].
  unfold _parse_replaces, _parse_structures, _parse_declares, declares_matrix,
    declares_vector, declares_constant, declares_array, declares_simple,
    _parse_compools, _parse_tasks, _parse_functions, _parse_procedures,
    _parse_programs.
  repeat (apply declare_pass_matches; [assumption|]).
  constructor.
Qed.

Lemma symbol_passes_patterns p :
  In p symbol_passes -> In (fst p) symbol_patterns /\ In (snd p) symbol_makers.
Proof.
  unfold symbol_passes, declaration_passes. cbn [app In].
  intro H. repeat (destruct H as [<-|H]; [split; cbn; tauto|]). destruct H.
Qed.

(** ** What the table entries have in common with the text *)

Lemma char_upper_classes (c : ascii) :
  is_id_start (char_upper c) = is_id_start c /\ is_word (char_upper c) = is_word c.
Proof. destruct c as [[] [] [] [] [] [] [] []]; split; reflexivity. Qed.

Lemma upper_ident_shaped w : ident_shaped (upper w) = ident_shaped w.
Proof.
  destruct w as [|c r]; [reflexivity|]. cbn [upper ident_shaped].
  rewrite (proj1 (char_upper_classes c)). f_equal.
  induction r as [|x r IH]; [reflexivity|]. cbn [upper all_chars].
  now rewrite (proj2 (char_upper_classes x)), IH.
Qed.

Lemma take_word_all s : all_chars is_word (take_word s) = true.
Proof.
  induction s as [|c s IH]; [reflexivity|]. cbn [take_word].
  destruct (is_word c) eqn:E; [|reflexivity]. cbn [all_chars]. now rewrite E.
Qed.

Lemma tokens_ident s : forall p i,
  Forall (fun t => ident_shaped (snd t) = true) (tokens p s i).
Proof.
  induction s as [|c s IH]; intros p i; cbn [tokens]; [constructor|].
  apply Forall_app. split; [|apply IH].
  destruct (negb (is_word_opt p) && is_id_start c) eqn:E; [|constructor].
  apply andb_true_iff in E. destruct E as [_ Hc].
  constructor; [|constructor]. cbn [snd take_word].
  rewrite (proj2 (proj2 (char_classes c)) Hc). cbn [ident_shaped].
  now rewrite Hc, take_word_all.
Qed.

(** X15: every name in the symbol table is an identifier: a letter or an
    underscore followed by letters, digits and underscores (in upper
    case, by the canonical form). *)
Theorem symbol_names_are_identifiers (text : string) (self : HALSParser) :
  Forall (fun kv => ident_shaped (fst kv) = true) (symbols (parse text self)).
Proof.
  apply parse_matches. apply Forall_forall. intros p Hp m Hm. cbn [fst].
  destruct (symbol_passes_patterns p Hp) as [Hre _].
  destruct (match_name_token _ _ m Hre Hm) as (_ & a & Hin).
  rewrite upper_ident_shaped.
  exact (proj1 (Forall_forall _ _) (tokens_ident (cleaned text) None 0) _ Hin).
Qed.

(** X16: every symbol of the table is found by the reference collector:
    unless its name is a keyword, the reference list holds at least one
    reference with that name. *)
Theorem symbols_are_referenced (text : string) (self : HALSParser) :
  Forall (referenced_in (references (parse text self))) (symbols (parse text self)).
Proof.
  rewrite references_of_parse.
  apply parse_matches. apply Forall_forall. intros p Hp m Hm.
  destruct (symbol_passes_patterns p Hp) as [Hre _].
  destruct (match_name_token _ _ m Hre Hm) as (_ & a & Hin).
  unfold referenced_in. cbn [fst]. intro Hk.
  destruct (line_col (cleaned text) a 0 0) as [line col] eqn:El.
  exists (Reference.new (upper (grp (cleaned text) m 1)) line col
                        (col + String.length (grp (cleaned text) m 1))).
  split; [|reflexivity].
  unfold spec_references. apply in_flat_map.
  exists (a, grp (cleaned text) m 1). split; [exact Hin|].
  unfold reference_of. rewrite Hk, El. now left.
Qed.

Lemma makers_position :
  Forall (fun mk => forall text m,
            (Symbol.line (mk text m), Symbol.column (mk text m))
            = _find_position text (m_start m))
         symbol_makers.
Proof.
  unfold symbol_makers.
  repeat (apply Forall_cons;
    [ intros text m;
      match goal with
      | |- context [?mk text m] => unfold mk
      end;
      destruct (_find_position text (m_start m)); reflexivity
    | ]).
  apply Forall_nil.
Qed.

(** X17: the declaration position of every symbol is a position of the
    normalized text: its line is one of the lines of that text and its
    column is inside that line or just behind it. *)
Theorem symbol_positions_in_text (text : string) (self : HALSParser) :
  Forall (positioned_in (cleaned text)) (symbols (parse text self)).
Proof.
  apply parse_matches. apply Forall_forall. intros p Hp m Hm.
  destruct (symbol_passes_patterns p Hp) as [Hre Hmk].
  destruct (match_name_token _ _ m Hre Hm) as (Hstart & _).
  pose proof (proj1 (Forall_forall _ _) makers_position (snd p) Hmk (cleaned text) m) as Hpos.
  unfold positioned_in. cbn [snd].
  destruct (line_col_round_trip (cleaned text) (m_start m) Hstart) as (l & Hnth & Hcol & _).
  rewrite <- _find_position_line_col, <- Hpos in Hnth, Hcol. cbn [fst snd] in Hnth, Hcol.
  exists l. split; assumption.
Qed.

(** ** References point at their names *)

Lemma take_word_prefix s : exists post, s = take_word s +++ post.
Proof.
  induction s as [|c s (post & IH)]; [now exists ""|].
  cbn [take_word]. destruct (is_word c).
  - exists post. cbn. now rewrite <- IH.
  - now exists (String c s).
Qed.

Lemma tokens_split s : forall pre p,
  Forall (fun tok => exists pre' post,
            pre +++ s = pre' +++ snd tok +++ post /\ String.length pre' = fst tok)
         (tokens p s (String.length pre)).
Proof.
  induction s as [|c s IH]; intros pre p; cbn [tokens]; [constructor|].
  apply Forall_app. split.
  - destruct (negb (is_word_opt p) && is_id_start c); constructor; [|constructor].
    cbn [fst snd]. destruct (take_word_prefix (String c s)) as (post & Hpost).
    exists pre, post. split; [now rewrite <- Hpost | reflexivity].
  - rewrite <- (append_snoc pre c s), <- (length_snoc pre c). apply IH.
Qed.

Lemma word_no_nl w : all_chars is_word w = true -> has_char nl w = false.
Proof.
  unfold has_char. induction w as [|c w IH]; intro H; [reflexivity|].
  cbn [all_chars] in *. apply andb_true_iff in H. destruct H as [Hc Hw].
  destruct (Ascii.eqb_spec c nl) as [->|_]; [discriminate|].
  cbn. now apply IH.
Qed.

Lemma split_on_app_plain w post :
  has_char nl w = false ->
  split_on nl (w +++ post) =
  match split_on nl post with
  | h :: tl => (w +++ h) :: tl
  | [] => [w]
  end.
Proof.
  unfold has_char. induction w as [|c w IH]; intro H.
  - cbn [String.append]. pose proof (split_on_nonempty nl post).
    destruct (split_on nl post); [congruence | reflexivity].
  - cbn [all_chars] in H. cbn [String.append split_on].
    destruct (Ascii.eqb c nl); cbn in H; [discriminate|].
    rewrite (IH H). destruct (split_on nl post); reflexivity.
Qed.

Lemma substring_prefix w post : substring 0 (String.length w) (w +++ post) = w.
Proof. induction w as [|c w IH]; cbn; [now destruct post | now rewrite IH]. Qed.

Lemma line_col_0 s l c : line_col s 0 l c = (l, c).
Proof. now destruct s. Qed.

(** A stretch without newline lies in one line, at the column computed
    for its offset. *)
Lemma line_decomp pre : forall w post,
  has_char nl w = false ->
  exists l lpre lpost,
    nth_error (split_on nl (pre +++ w +++ post))
              (fst (line_col (pre +++ w +++ post) (String.length pre) 0 0)) = Some l /\
    l = lpre +++ w +++ lpost /\
    String.length lpre = snd (line_col (pre +++ w +++ post) (String.length pre) 0 0).
Proof.
  induction pre as [|x pre IH]; intros w post Hw.
  - cbn [String.append String.length]. rewrite line_col_0. cbn [fst snd].
    rewrite (split_on_app_plain _ _ Hw). pose proof (split_on_nonempty nl post).
    destruct (split_on nl post) as [|h tl]; [congruence|].
    exists (w +++ h), "", h. repeat split.
  - destruct (IH w post Hw) as (l & lpre & lpost & Hnth & Hl & Hlen).
    cbn [String.append String.length line_col split_on].
    destruct (Ascii.eqb x nl).
    + rewrite line_col_shift.
      destruct (line_col (pre +++ w +++ post) (String.length pre) 0 0) as [a b].
      cbn [fst snd] in *. exists l, lpre, lpost.
      split; [exact Hnth|]. split; [exact Hl|]. destruct (a =? 0); exact Hlen.
    + rewrite line_col_shift.
      destruct (line_col (pre +++ w +++ post) (String.length pre) 0 0) as [a b].
      cbn [fst snd Nat.add] in *.
      pose proof (split_on_nonempty nl (pre +++ w +++ post)) as Hne.
      destruct (split_on nl (pre +++ w +++ post)) as [|h tl]; [congruence|].
      destruct a as [|a]; cbn [Nat.eqb nth_error] in *.
      * injection Hnth as ->. exists (String x l), (String x lpre), lpost.
        split; [reflexivity|]. split; [now rewrite Hl | cbn; now rewrite Hlen].
      * exists l, lpre, lpost. repeat split; assumption.
Qed.

(** X18: every reference points at an occurrence of its name: its line
    is a line of the normalized text, its span lies inside that line, and
    the characters of the span are the reference's name up to case. *)
Theorem references_point_at_names (text : string) (self : HALSParser) :
  Forall (points_at_name (cleaned text)) (references (parse text self)).
Proof.
  rewrite references_of_parse. unfold spec_references.
  apply Forall_forall. intros r Hr. apply in_flat_map in Hr.
  destruct Hr as ([a w] & Hin & Hr). apply reference_of_cases in Hr.
  destruct Hr as [_ ->]. cbn [fst snd].
  pose proof (proj1 (Forall_forall _ _) (tokens_split (cleaned text) "" None) _ Hin)
    as (pre & post & Ht & Ha). cbn [fst snd String.append] in Ht, Ha.
  pose proof (proj1 (Forall_forall _ _) (tokens_ident (cleaned text) None 0) _ Hin) as Hid.
  cbn [snd] in Hid.
  assert (has_char nl w = false) as Hw.
  { apply word_no_nl. destruct w as [|c w']; [discriminate|].
    cbn [ident_shaped] in Hid. apply andb_true_iff in Hid. destruct Hid as [Hc Hr].
    cbn [all_chars]. now rewrite (proj2 (proj2 (char_classes c)) Hc). }
  destruct (line_decomp pre w post Hw) as (l & lpre & lpost & Hnth & Hl & Hlen).
  rewrite <- Ht, Ha in Hnth, Hlen.
  unfold points_at_name. cbn [Reference.line Reference.column Reference.end_column
                              Reference.name Reference.new].
  exists l. split; [exact Hnth|]. rewrite <- Hlen, Hl. split.
  - rewrite !length_append. lia.
  - unfold slice.
    replace (String.length lpre + String.length w - String.length lpre)
      with (String.length w) by lia.
    now rewrite substring_skip, substring_prefix.
Qed.

(** ** What stands at a declaration position *)

Lemma char_case (c : ascii) :
  char_upper (char_lower c) = char_upper c /\
  Ascii.eqb (char_upper c) nl = Ascii.eqb c nl.
Proof. destruct c as [[] [] [] [] [] [] [] []]; split; reflexivity. Qed.

Lemma eat_lit_text l : forall p s i cu,
  eat_lit l p s i = Some cu ->
  exists w, s = w +++ rest cu /\ upper w = upper l.
Proof.
  induction l as [|a l IH]; intros p s i cu H; cbn [eat_lit] in H.
  - injection H as <-. now exists "".
  - destruct s as [|c s]; [discriminate|].
    destruct (Ascii.eqb_spec (char_lower c) (char_lower a)) as [E|_]; [|discriminate].
    destruct (IH _ _ _ _ H) as (w & Hs & Hu).
    exists (String c w). cbn [String.append upper]. split; [now rewrite <- Hs|].
    rewrite Hu. f_equal.
    now rewrite <- (proj1 (char_case c)), E, (proj1 (char_case a)).
Qed.

Lemma has_char_nl_upper w : has_char nl (upper w) = has_char nl w.
Proof.
  unfold has_char. f_equal. induction w as [|c w IH]; [reflexivity|].
  cbn [upper all_chars]. now rewrite (proj2 (char_case c)), IH.
Qed.

Lemma unit_shape_here tail cu e caps :
  keeps1 tail = true ->
  match_at (unit_shape tail) cu = Some (e, caps) ->
  cap_lookup 1 caps = Some (pos cu, pos cu + String.length (take_word (rest cu))) /\
  exists c s', rest cu = String c s' /\ is_id_start c = true.
Proof.
  intros Hk H. unfold match_at, unit_shape in H.
  change (run (Cat WordB ?r) cu [] ?k) with (if at_boundary cu then run r cu [] k else None) in H.
  destruct (at_boundary cu); [|discriminate].
  apply run_name_group in H; [|apply blocks_colon].
  destruct H as (c & s' & Er & Hc & H).
  apply keeps1_final in H; [|cbn [keeps1 ws]; now rewrite Hk].
  split; [exact H | now exists c, s'].
Qed.

Lemma keyword_shape_here kw tail cu e caps :
  match_at (keyword_shape kw tail) cu = Some (e, caps) ->
  exists cu1, eat_lit kw (prev cu) (rest cu) (pos cu) = Some cu1.
Proof.
  intro H. unfold match_at, keyword_shape in H.
  change (run (Cat WordB ?r) cu [] ?k) with (if at_boundary cu then run r cu [] k else None) in H.
  destruct (at_boundary cu); [|discriminate]. cbn [run] in H.
  destruct (eat_lit kw (prev cu) (rest cu) (pos cu)) as [cu1|]; [|discriminate].
  now exists cu1.
Qed.

Lemma unit_match_anchor tail text m name :
  keeps1 tail = true ->
  In m (finditer (unit_shape tail) text) ->
  name = upper (grp text m 1) ->
  exists pre w post,
    text = pre +++ w +++ post /\ String.length pre = m_start m /\
    has_char nl w = false /\ upper w = name.
Proof.
  intros Hk Hin ->. unfold finditer in Hin. apply scan_sound in Hin.
  destruct Hin as (cu & Ha & Hp & Hm).
  destruct (unit_shape_here _ _ _ _ Hk Hm) as (Hcap & c & s' & Er & Hc).
  destruct (ahead_suffix _ _ Ha) as (pre & Hpre & Hpos). cbn [rest pos] in *.
  destruct (take_word_prefix (rest cu)) as (post & Hpost).
  exists pre, (take_word (rest cu)), post.
  split; [now rewrite <- Hpost|]. split; [lia|]. split.
  - apply word_no_nl, take_word_all.
  - f_equal. unfold grp, group. rewrite Hcap. unfold slice.
    replace (pos cu + String.length (take_word (rest cu)) - pos cu)
      with (String.length (take_word (rest cu))) by lia.
    rewrite Hpre, Hpos. cbn [Nat.add].
    now rewrite substring_skip, substring_take_word.
Qed.

Lemma keyword_match_anchor kw tail text m :
  has_char nl kw = false -> upper kw = kw ->
  In m (finditer (keyword_shape kw tail) text) ->
  exists pre w post,
    text = pre +++ w +++ post /\ String.length pre = m_start m /\
    has_char nl w = false /\ upper w = kw.
Proof.
  intros Hnl Hup Hin. unfold finditer in Hin. apply scan_sound in Hin.
  destruct Hin as (cu & Ha & Hp & Hm).
  destruct (keyword_shape_here _ _ _ _ _ Hm) as (cu1 & E).
  destruct (eat_lit_text _ _ _ _ _ E) as (w & Hs & Hu).
  destruct (ahead_suffix _ _ Ha) as (pre & Hpre & Hpos). cbn [rest pos] in *.
  exists pre, w, (rest cu1).
  split; [now rewrite <- Hs|]. split; [lia|]. rewrite Hup in Hu. split; [|exact Hu].
  now rewrite <- has_char_nl_upper, Hu.
Qed.

Lemma passes_anchor text :
  Forall (fun p => forall m, In m (finditer (fst p) text) ->
                             starts_with_anchor text m (snd p text m))
         symbol_passes.
Proof.
  unfold symbol_passes, declaration_passes, starts_with_anchor. cbn [app].
  repeat (apply Forall_cons;
    [ cbn [fst snd]; intros m Hm;
      first [ refine (unit_match_anchor _ text m _ _ Hm _); [reflexivity|];
              match goal with
              | |- context [anchor (?mk text m)] => unfold mk
              end;
              destruct (_find_position text (m_start m)); reflexivity
            | match goal with
              | |- context [anchor (?mk text m)] =>
                  replace (anchor (mk text m)) with "DECLARE"
                    by (unfold mk; destruct (_find_position text (m_start m)); reflexivity)
              end;
              refine (keyword_match_anchor "DECLARE" _ text m _ _ Hm); reflexivity
            | match goal with
              | |- context [anchor (?mk text m)] =>
                  replace (anchor (mk text m)) with "REPLACE"
                    by (unfold mk; destruct (_find_position text (m_start m)); reflexivity)
              end;
              refine (keyword_match_anchor "REPLACE" _ text m _ _ Hm); reflexivity ]
    | ]).
  apply Forall_nil.
Qed.

(** X19: what stands at a declaration position.  For a program unit or a
    label it is the name itself; for declared data and macros it is the
    keyword [DECLARE] or [REPLACE] that opens the statement, not the name.
    In each case the position is in a line of the normalized text and the
    characters there are that word, up to case. *)
Theorem declaration_positions_anchor (text : string) (self : HALSParser) :
  Forall (anchored_in (cleaned text)) (symbols (parse text self)).
Proof.
  apply parse_matches. apply Forall_forall. intros p Hp m Hm.
  destruct (symbol_passes_patterns p Hp) as [_ Hmk].
  pose proof (proj1 (Forall_forall _ _) (passes_anchor (cleaned text)) p Hp m Hm)
    as (pre & w & post & Ht & Hlen & Hw & Hu).
  pose proof (proj1 (Forall_forall _ _) makers_position (snd p) Hmk (cleaned text) m) as Hpos.
  rewrite _find_position_line_col in Hpos.
  destruct (line_decomp pre w post Hw) as (l & lpre & lpost & Hnth & Hl & Hll).
  rewrite <- Ht, Hlen, <- Hpos in Hnth, Hll. cbn [fst snd] in Hnth, Hll.
  unfold anchored_in. cbn [snd]. exists l. split; [exact Hnth|].
  rewrite <- Hu, length_upper, <- Hll, Hl. unfold slice.
  replace (String.length lpre + String.length w - String.length lpre)
    with (String.length w) by lia.
  now rewrite substring_skip, substring_prefix.
Qed.

(** * Properties of the language server *)

Lemma parse_diagnostics_nil text self : diagnostics (parse text self) = [].
Proof.
  unfold parse.
  rewrite _parse_references_diagnostics, _parse_labels_diagnostics.
  unfold _parse_replaces, _parse_structures, _parse_compools, _parse_tasks,
    _parse_functions, _parse_procedures, _parse_programs.
  rewrite !declare_pass_diagnostics, _parse_declares_diagnostics.
  rewrite !declare_pass_diagnostics. reflexivity.
Qed.

Lemma dict_get_not_In {V : Type} (k : string) (d : dict V) :
  ~ In k (map fst d) -> dict_get k d = None.
Proof.
  induction d as [|[k' v] d IH]; cbn; [reflexivity|]. intro H.
  destruct (String.eqb_spec k' k) as [->|_]; [exfalso; apply H; now left|].
  apply IH. intro Hin. apply H. now right.
Qed.

Lemma dict_del_get {V : Type} (k n : string) (d : dict V) :
  NoDup (map fst d) ->
  dict_get n (dict_del k d) = if String.eqb k n then None else dict_get n d.
Proof.
  induction d as [|[k' v] d IH]; intro Hnd; cbn [dict_del dict_get map fst] in *.
  - now destruct (String.eqb k n).
  - inversion Hnd as [|? ? Hnot Hnd']; subst.
    destruct (String.eqb_spec k' k) as [->|Hk].
    + destruct (String.eqb_spec k n) as [->|Hn]; [now apply dict_get_not_In | reflexivity].
    + cbn [dict_get]. destruct (String.eqb_spec k' n) as [->|Hn].
      * destruct (String.eqb_spec k n); [congruence | reflexivity].
      * now apply IH.
Qed.

Lemma dict_del_keys_incl {V : Type} (k : string) (d : dict V) x :
  In x (map fst (dict_del k d)) -> In x (map fst d).
Proof.
  induction d as [|[k' v] d IH]; cbn [dict_del map fst]; [tauto|].
  destruct (String.eqb k' k); cbn [map fst In]; [tauto|].
  intros [H|H]; [now left | right; now apply IH].
Qed.

Lemma dict_del_NoDup {V : Type} (k : string) (d : dict V) :
  NoDup (map fst d) -> NoDup (map fst (dict_del k d)).
Proof.
  induction d as [|[k' v] d IH]; intro Hnd; cbn [dict_del map fst] in *; [constructor|].
  inversion Hnd as [|? ? Hnot Hnd']; subst.
  destruct (String.eqb k' k); [exact Hnd'|]. cbn [map fst]. constructor; [|now apply IH].
  intro Hin. apply Hnot. now apply dict_del_keys_incl in Hin.
Qed.

(** X20: opening a document stores its text under its URI and leaves the
    other documents alone, parses that text, and publishes exactly one
    diagnostics notification for the URI, with an empty list. *)
Theorem did_open_stores_and_publishes (params : Params) (self : HALSLanguageServer) :
  let '(res, self', out) := _handle_did_open params self in
  res = Ok RNone /\
  dict_get (uri_of params) (documents self') = Some (text_of params) /\
  (forall u, u <> uri_of params ->
             dict_get u (documents self') = dict_get u (documents self)) /\
  parser self' = parse (text_of params) init /\
  running self' = running self /\
  out = [PublishDiagnostics (uri_of params) []].
Proof.
  unfold _handle_did_open, _parse_and_publish. cbn [documents parser running].
  unfold get_diagnostics. rewrite parse_diagnostics_nil. cbn [map].
  repeat split.
  - rewrite dict_get_set. now rewrite String.eqb_refl.
  - intros u Hu. rewrite dict_get_set.
    destruct (String.eqb_spec (uri_of params) u); [congruence | reflexivity].
Qed.

(** X21: closing a document removes its text and nothing else: the other
    documents stay, the parser keeps the state of the last parse, and
    nothing is sent. *)
Theorem did_close_removes (params : Params) (self : HALSLanguageServer) :
  NoDup (map fst (documents self)) ->
  let '(res, self', out) := _handle_did_close params self in
  res = Ok RNone /\
  dict_get (uri_of params) (documents self') = None /\
  (forall u, u <> uri_of params ->
             dict_get u (documents self') = dict_get u (documents self)) /\
  parser self' = parser self /\ running self' = running self /\ out = [].
Proof.
  intro Hnd. unfold _handle_did_close, dict_has.
  destruct (dict_get (uri_of params) (documents self)) eqn:E; cbn [documents parser running].
  - repeat split.
    + rewrite (dict_del_get _ _ _ Hnd). now rewrite String.eqb_refl.
    + intros u Hu. rewrite (dict_del_get _ _ _ Hnd).
      destruct (String.eqb_spec (uri_of params) u); [congruence | reflexivity].
  - repeat split; auto.
Qed.

Lemma did_close_removes_witness :
  let '(res, self', out) :=
    _handle_did_close (Prm (Some (TD (Some "a.hal") None)) None None)
                      (Srv init [("a.hal", "X: PROGRAM;")] true) in
  res = Ok RNone /\
  dict_get "a.hal" (documents self') = None /\
  (forall u, u <> "a.hal" ->
             dict_get u (documents self') = dict_get u [("a.hal", "X: PROGRAM;")]) /\
  parser self' = init /\ running self' = true /\ out = [].
Proof.
  apply (did_close_removes (Prm (Some (TD (Some "a.hal") None)) None None)
                           (Srv init [("a.hal", "X: PROGRAM;")] true)).
  cbn. repeat constructor. intros [].
Defined.

Lemma query_handler method h :
  In method query_methods -> dict_get method handlers = Some h ->
  h = _handle_completion \/ h = _handle_hover \/ h = _handle_definition \/
  h = _handle_references \/ h = _handle_document_symbol.
Proof.
  unfold query_methods. cbn [In]. intros Hm Hh.
  repeat (destruct Hm as [<-|Hm]; [cbn in Hh; injection Hh as <-; tauto|]).
  destruct Hm.
Qed.

Lemma reparse_if_open_open uri text self :
  dict_get uri (documents self) = Some text ->
  reparse_if_open uri self = Srv (parse text init) (documents self) (running self).
Proof. unfold reparse_if_open. now intros ->. Qed.

(** X22: a query about an open document is answered from the current
    text of that document alone: the response, the notifications and the
    parser state afterwards do not depend on what the parser held before,
    be it another document, and the parser afterwards holds the parse of
    that text. *)
Theorem queries_answer_for_current_text
        (message : Message) (self self' : HALSLanguageServer) (text : string) :
  In (default "" (msg_method message)) query_methods ->
  dict_get (uri_of (default no_params (msg_params message))) (documents self) = Some text ->
  documents self' = documents self ->
  running self' = running self ->
  _handle_message message self' = _handle_message message self /\
  parser (server_of (_handle_message message self)) = parse text init.
Proof.
  intros Hm Hopen Hdocs Hrun. unfold _handle_message, server_of.
  destruct (dict_get (default "" (msg_method message)) handlers) as [h|] eqn:Eh.
  - assert (Hopen' := Hopen). rewrite <- Hdocs in Hopen'.
    destruct (query_handler _ _ Hm Eh) as [-> | [-> | [-> | [-> | ->]]]];
      unfold _handle_completion, _handle_hover, _handle_definition,
        _handle_references, _handle_document_symbol;
      rewrite (reparse_if_open_open _ _ _ Hopen), (reparse_if_open_open _ _ _ Hopen');
      rewrite Hdocs, Hrun; cbn [parser]; split; try reflexivity.
    + destruct (get_hover _ _ _) as [[c|]|e]; reflexivity.
    + destruct (get_definition _ _ _) as [[d|]|e]; reflexivity.
    + destruct (get_references_at _ _ _) as [r|e]; reflexivity.
  - exfalso. unfold query_methods in Hm. cbn [In] in Hm.
    repeat (destruct Hm as [Hm|Hm]; [rewrite <- Hm in Eh; discriminate|]). destruct Hm.
Qed.

Lemma queries_answer_for_current_text_witness :
  _handle_message (Msg (Some "textDocument/hover") (Some (IdNumber 1))
                       (Some (Prm (Some (TD (Some "a.hal") None)) (Some (Pos (Some 0%Z) (Some 1%Z))) None)))
                  (Srv (parse "Y: TASK;" init) [("a.hal", "X: PROGRAM;")] true)
  = _handle_message (Msg (Some "textDocument/hover") (Some (IdNumber 1))
                       (Some (Prm (Some (TD (Some "a.hal") None)) (Some (Pos (Some 0%Z) (Some 1%Z))) None)))
                  (Srv init [("a.hal", "X: PROGRAM;")] true).
Proof.
  apply (queries_answer_for_current_text
           (Msg (Some "textDocument/hover") (Some (IdNumber 1))
                (Some (Prm (Some (TD (Some "a.hal") None)) (Some (Pos (Some 0%Z) (Some 1%Z))) None)))
           (Srv init [("a.hal", "X: PROGRAM;")] true)
           (Srv (parse "Y: TASK;" init) [("a.hal", "X: PROGRAM;")] true)
           "X: PROGRAM;"); try reflexivity.
  cbn. tauto.
Defined.

Lemma reparse_if_open_closed uri self :
  dict_get uri (documents self) = None -> reparse_if_open uri self = self.
Proof. unfold reparse_if_open. now intros ->. Qed.

Lemma opened_state uri text self :
  snd (fst (_handle_did_open (did_open_params uri text) self)) =
  Srv (parse text init) (dict_set uri text (documents self)) (running self).
Proof. reflexivity. Qed.

Lemma closed_state uri text p d r :
  snd (fst (_handle_did_close (did_close_params uri) (Srv p (dict_set uri text d) r))) =
  Srv p (dict_del uri (dict_set uri text d)) r.
Proof.
  unfold _handle_did_close, did_close_params, dict_has, uri_of, default.
  cbn [p_textDocument td_uri documents parser running].
  rewrite dict_get_set, String.eqb_refl. reflexivity.
Qed.

(** X23: closing a document does not withdraw it from the queries.
    After a document was opened and closed again, a query about it gets
    the response it got while the document was open: the parser still
    holds the last parse, and a URI that is not open is never reparsed. *)
Theorem closed_document_still_answers
        (uri text : string) (message : Message) (self : HALSLanguageServer) :
  NoDup (map fst (documents self)) ->
  In (default "" (msg_method message)) query_methods ->
  about uri (default no_params (msg_params message)) ->
  let opened := snd (fst (_handle_did_open (did_open_params uri text) self)) in
  let closed := snd (fst (_handle_did_close (did_close_params uri) opened)) in
  response_of (_handle_message message closed) = response_of (_handle_message message opened) /\
  dict_get uri (documents closed) = None.
Proof.
  intros Hnd Hm Hu. cbv zeta. unfold about in Hu.
  rewrite opened_state, closed_state. cbn [documents].
  assert (NoDup (map fst (dict_set uri text (documents self)))) as Hnd'
    by now apply dict_set_NoDup.
  assert (dict_get uri (dict_del uri (dict_set uri text (documents self))) = None) as Hgone.
  { rewrite (dict_del_get _ _ _ Hnd'). now rewrite String.eqb_refl. }
  split; [|exact Hgone].
  unfold _handle_message, response_of.
  destruct (dict_get (default "" (msg_method message)) handlers) as [h|] eqn:Eh; [|reflexivity].
  destruct (query_handler _ _ Hm Eh) as [-> | [-> | [-> | [-> | ->]]]];
    unfold _handle_completion, _handle_hover, _handle_definition,
      _handle_references, _handle_document_symbol;
    rewrite Hu;
    rewrite (reparse_if_open_closed uri (Srv _ (dict_del _ _) _)) by exact Hgone;
    rewrite (reparse_if_open_open uri text (Srv _ (dict_set _ _ _) _))
      by (cbn [documents]; rewrite dict_get_set; now rewrite String.eqb_refl);
    cbn [parser]; try reflexivity.
  - destruct (get_hover _ _ _) as [[c|]|e]; reflexivity.
  - destruct (get_definition _ _ _) as [[d|]|e]; reflexivity.
  - destruct (get_references_at _ _ _) as [r|e]; reflexivity.
Qed.

Lemma closed_document_still_answers_witness :
  response_of
    (_handle_message
       (Msg (Some "textDocument/definition") (Some (IdNumber 7))
            (Some (Prm (Some (TD (Some "a.hal") None)) (Some (Pos (Some 0%Z) (Some 0%Z))) None)))
       (snd (fst (_handle_did_close (did_close_params "a.hal")
                    (snd (fst (_handle_did_open (did_open_params "a.hal" "X: PROGRAM;")
                                                server_init)))))))
  = Ok (Some (Result (IdNumber 7) (RLocation (LocJ "a.hal" (Rng4 0 0 0 1))))).
Proof.
  rewrite (proj1 (closed_document_still_answers "a.hal" "X: PROGRAM;"
            (Msg (Some "textDocument/definition") (Some (IdNumber 7))
                 (Some (Prm (Some (TD (Some "a.hal") None))
                            (Some (Pos (Some 0%Z) (Some 0%Z))) None)))
            server_init
            ltac:(constructor) ltac:(cbn; tauto) ltac:(reflexivity))).
  reflexivity.
Defined.

(** X24: a change notification replaces the whole text by the text of
    the first change and then behaves exactly like opening the document
    with that text; further entries of the change list are ignored, and
    without a change nothing happens at all. *)
Theorem did_change_is_full_replacement (params : Params) (self : HALSLanguageServer) :
  (forall change more,
      p_contentChanges params = Some (change :: more) ->
      _handle_did_change params self =
      _handle_did_open (Prm (Some (TD (Some (uri_of params)) (chg_text change))) None None)
                       self) /\
  (p_contentChanges params = None \/ p_contentChanges params = Some [] ->
   _handle_did_change params self = (Ok RNone, self, [])).
Proof.
  unfold _handle_did_change, _handle_did_open. split.
  - intros change more ->. reflexivity.
  - intros [-> | ->]; reflexivity.
Qed.

Lemma did_change_is_full_replacement_witness :
  _handle_did_change
    (Prm (Some (TD (Some "a.hal") None)) None
         (Some [Chg (Some "X: TASK;"); Chg (Some "ignored")]))
    server_init
  = _handle_did_open (did_open_params "a.hal" "X: TASK;") server_init /\
  _handle_did_change (Prm (Some (TD (Some "a.hal") None)) None (Some [])) server_init
  = (Ok RNone, server_init, []).
Proof.
  split.
  - exact (proj1 (did_change_is_full_replacement
                    (Prm (Some (TD (Some "a.hal") None)) None
                         (Some [Chg (Some "X: TASK;"); Chg (Some "ignored")]))
                    server_init) _ _ eq_refl).
  - exact (proj2 (did_change_is_full_replacement
                    (Prm (Some (TD (Some "a.hal") None)) None (Some [])) server_init)
                 (or_intror eq_refl)).
Defined.

(** ** Dispatch *)

Lemma handler_cases method h :
  dict_get method handlers = Some h -> In (method, h) handlers.
Proof.
  unfold handlers. generalize dependent h.
  repeat match goal with
         | |- forall h, dict_get method ((?k, ?v) :: ?tl) = Some h -> _ =>
             intros h H; cbn [dict_get] in H;
             destruct (String.eqb_spec k method) as [<-|_];
             [injection H as <-; cbn; tauto|];
             revert h H;
             assert (forall h, dict_get method tl = Some h -> In (method, h) tl) as Hrec;
             [|intros h H; right; exact (Hrec h H)]
         end.
  intros h H. discriminate.
Qed.

(** X25: dispatch.  A message without an id never gets a response.  A
    response, when there is one, carries the id of its request.  A method
    that is not one of the twelve handled ones changes nothing and sends
    nothing, and is answered, if it has an id, by error -32601 with the
    method's name. *)
Theorem dispatch_rules (message : Message) (self : HALSLanguageServer) :
  (msg_id message = None ->
   response_of (_handle_message message self) = Ok None \/
   exists e, response_of (_handle_message message self) = Raise e) /\
  (forall r, response_of (_handle_message message self) = Ok (Some r) ->
             exists id, msg_id message = Some id /\
                        match r with
                        | Result id' _ => id' = id
                        | Error id' _ _ => id' = id
                        end) /\
  (dict_get (default "" (msg_method message)) handlers = None ->
   server_of (_handle_message message self) = self /\
   sent_by (_handle_message message self) = [] /\
   response_of (_handle_message message self) =
     Ok (match msg_id message with
         | Some id => Some (Error id (-32601)%Z
                                  ("Method not found: " +++ default "" (msg_method message)))
         | None => None
         end)).
Proof.
  unfold _handle_message, response_of, server_of, sent_by.
  destruct (dict_get (default "" (msg_method message)) handlers) as [h|].
  - destruct (h (default no_params (msg_params message)) self) as [[[res|e] s'] out];
      cbn [fst snd]; repeat split.
    + intros ->. now left.
    + intros r Hr. destruct (msg_id message) as [id|]; [|discriminate].
      injection Hr as <-. now exists id.
    + discriminate.
    + discriminate.
    + discriminate.
    + intros _. right. now exists e.
    + discriminate.
    + discriminate.
    + discriminate.
    + discriminate.
  - cbn [fst snd]. repeat split.
    + intros ->. now left.
    + intros r Hr. destruct (msg_id message) as [id|]; [|discriminate].
      injection Hr as <-. now exists id.
Qed.

Lemma dispatch_rules_witness :
  response_of (_handle_message (Msg (Some "textDocument/rename") (Some (IdNumber 3)) None)
                               server_init)
  = Ok (Some (Error (IdNumber 3) (-32601)%Z "Method not found: textDocument/rename")) /\
  response_of (_handle_message (Msg (Some "shutdown") None None) server_init) = Ok None.
Proof.
  split.
  - exact (proj2 (proj2 (proj2 (proj2 (dispatch_rules
             (Msg (Some "textDocument/rename") (Some (IdNumber 3)) None) server_init))
             eq_refl))).
  - destruct (proj1 (dispatch_rules (Msg (Some "shutdown") None None) server_init) eq_refl)
      as [H|[e H]]; [exact H | discriminate H].
Defined.

Lemma reparse_if_open_keeps uri self :
  documents (reparse_if_open uri self) = documents self /\
  running (reparse_if_open uri self) = running self.
Proof.
  unfold reparse_if_open. destruct (dict_get uri (documents self)); split; reflexivity.
Qed.

Ltac each_handler Hin :=
  unfold handlers in Hin; cbn [In] in Hin;
  repeat (destruct Hin as [Hin|Hin];
          [first [injection Hin as <- <- | injection Hin as _ <-]|]);
  [..|destruct Hin].

(** X26: only [exit] stops the server: after any other message,
    [shutdown] included, the running flag is what it was. *)
Theorem only_exit_stops (message : Message) (self : HALSLanguageServer) :
  running (server_of (_handle_message message self)) =
  if String.eqb (default "" (msg_method message)) "exit" then false else running self.
Proof.
  unfold _handle_message, server_of.
  destruct (dict_get (default "" (msg_method message)) handlers) as [h|] eqn:Eh.
  - apply handler_cases in Eh. each_handler Eh;
      unfold _handle_initialize, _handle_initialized, _handle_shutdown, _handle_exit,
        _handle_did_open, _handle_did_change, _handle_did_close, _handle_completion,
        _handle_hover, _handle_definition, _handle_references, _handle_document_symbol,
        _parse_and_publish;
      cbn [String.eqb Ascii.eqb Bool.eqb];
      try reflexivity.
    + destruct (default [] _); reflexivity.
    + destruct (dict_has _ _); reflexivity.
    + cbn [fst snd]. apply reparse_if_open_keeps.
    + destruct (get_hover _ _ _) as [[c|]|e]; cbn [fst snd]; apply reparse_if_open_keeps.
    + destruct (get_definition _ _ _) as [[c|]|e]; cbn [fst snd]; apply reparse_if_open_keeps.
    + destruct (get_references_at _ _ _) as [c|e]; cbn [fst snd]; apply reparse_if_open_keeps.
    + cbn [fst snd]. apply reparse_if_open_keeps.
  - destruct (String.eqb_spec (default "" (msg_method message)) "exit") as [E|_];
      [rewrite E in Eh; discriminate | reflexivity].
Qed.

(** X27: the document store stays a map: no message makes it hold a URI
    twice. *)
Theorem document_store_keys (message : Message) (self : HALSLanguageServer) :
  NoDup (map fst (documents self)) ->
  NoDup (map fst (documents (server_of (_handle_message message self)))).
Proof.
  intro Hnd. unfold _handle_message, server_of.
  destruct (dict_get (default "" (msg_method message)) handlers) as [h|] eqn:Eh;
    [|exact Hnd].
  apply handler_cases in Eh. each_handler Eh;
    unfold _handle_initialize, _handle_initialized, _handle_shutdown, _handle_exit,
      _handle_did_open, _handle_did_change, _handle_did_close, _handle_completion,
      _handle_hover, _handle_definition, _handle_references, _handle_document_symbol,
      _parse_and_publish;
    cbn [fst snd documents]; try exact Hnd.
  - now apply dict_set_NoDup.
  - destruct (default [] _); cbn [fst snd documents]; [exact Hnd | now apply dict_set_NoDup].
  - destruct (dict_has _ _); cbn [fst snd documents]; [now apply dict_del_NoDup | exact Hnd].
  - now rewrite (proj1 (reparse_if_open_keeps _ _)).
  - destruct (get_hover _ _ _) as [[c|]|e]; cbn [fst snd];
      now rewrite (proj1 (reparse_if_open_keeps _ _)).
  - destruct (get_definition _ _ _) as [[c|]|e]; cbn [fst snd];
      now rewrite (proj1 (reparse_if_open_keeps _ _)).
  - destruct (get_references_at _ _ _) as [c|e]; cbn [fst snd];
      now rewrite (proj1 (reparse_if_open_keeps _ _)).
  - now rewrite (proj1 (reparse_if_open_keeps _ _)).
Qed.

Lemma document_store_keys_witness :
  NoDup (map fst (documents (server_of
    (_handle_message (Msg (Some "textDocument/didOpen") None
                          (Some (did_open_params "a.hal" "X: PROGRAM;")))
                     server_init)))).
Proof.
  apply (document_store_keys
           (Msg (Some "textDocument/didOpen") None
                (Some (did_open_params "a.hal" "X: PROGRAM;"))) server_init).
  constructor.
Defined.

Lemma StronglySorted_map {A B : Type} (f : A -> B) (R : B -> B -> Prop) l :
  StronglySorted (fun a b => R (f a) (f b)) l -> StronglySorted R (map f l).
Proof.
  induction 1 as [|x l Hs IH Hall]; cbn; constructor; [exact IH|].
  apply Forall_map. exact Hall.
Qed.

(** X28: the outline reply lists one entry per symbol of the table, in
    ascending order of line; every entry has its range on one line,
    starting at the declaration position and as long as the name, and its
    selection range is the same range. *)
Theorem document_symbol_reply (params : Params) (self : HALSLanguageServer) :
  exists l,
    fst (fst (_handle_document_symbol params self)) = Ok (RSymbols l) /\
    List.length l =
      List.length (symbols (parser (snd (fst (_handle_document_symbol params self))))) /\
    StronglySorted (fun a b => start_line (sj_range a) <= start_line (sj_range b)) l /\
    Forall well_formed_symbol l.
Proof.
  unfold _handle_document_symbol. cbn [fst snd]. eexists. split; [reflexivity|].
  set (p := parser (reparse_if_open (uri_of params) self)).
  unfold get_document_symbols. repeat split.
  - rewrite length_map.
    rewrite <- (Permutation_length (sorted_perm doc_line (map doc_entry (symbols p)))).
    apply length_map.
  - apply (StronglySorted_map document_symbol_json
             (fun a b => start_line (sj_range a) <= start_line (sj_range b))).
    cbn [document_symbol_json sj_range start_line].
    apply sorted_sorted.
  - apply Forall_forall. intros j Hj. apply in_map_iff in Hj.
    destruct Hj as (d & <- & _). repeat split.
Qed.

(** X29: a line number far below zero reaches the client as a failure
    of the dispatcher.  For a hover, definition or references request
    whose params have the shape the protocol prescribes and whose line is
    below minus the line count of the text the parser then holds,
    [_handle_message] raises [IndexError]: no response is built, not even
    an error response, and nothing is sent, although the document, if
    open, has been parsed again. *)
Theorem index_error_leaves_dispatcher (message : Message) (self : HALSLanguageServer) :
  In (default "" (msg_method message)) cursor_methods ->
  (line_of (default no_params (msg_params message))
   < - Z.of_nat (List.length (lines (parser
         (reparse_if_open (uri_of (default no_params (msg_params message))) self)))))%Z ->
  response_of (_handle_message message self) = Raise IndexError /\
  server_of (_handle_message message self)
  = reparse_if_open (uri_of (default no_params (msg_params message))) self /\
  sent_by (_handle_message message self) = [].
Proof.
  unfold _handle_message, response_of, server_of, sent_by.
  intros Hm Hline. unfold cursor_methods in Hm. cbn [In] in Hm.
  set (p := parser (reparse_if_open (uri_of (default no_params (msg_params message))) self)) in *.
  assert (Hq : get_hover p (line_of (default no_params (msg_params message)))
                         (char_of (default no_params (msg_params message))) = Raise IndexError /\
               get_definition p (line_of (default no_params (msg_params message)))
                         (char_of (default no_params (msg_params message))) = Raise IndexError /\
               get_references_at p (line_of (default no_params (msg_params message)))
                         (char_of (default no_params (msg_params message))) = Raise IndexError).
  { unfold get_hover, get_definition, get_references_at.
    rewrite (list_index_below _ _ Hline).
    destruct (Z.leb_spec (Z.of_nat (List.length (lines p)))
                         (line_of (default no_params (msg_params message)))); [lia|].
    repeat split. }
  destruct Hq as (Hh & Hd & Hr).
  destruct Hm as [<-|[<-|[<-|[]]]]; cbn [dict_get handlers String.eqb Ascii.eqb Bool.eqb];
    unfold _handle_hover, _handle_definition, _handle_references; fold p;
    [rewrite Hh | rewrite Hd | rewrite Hr]; repeat split.
Qed.

Lemma index_error_leaves_dispatcher_witness :
  response_of (_handle_message
        (Msg (Some "textDocument/hover") (Some (IdNumber 1))
             (Some (Prm None (Some (Pos (Some (-1)%Z) None)) None))) server_init)
  = Raise IndexError.
Proof.
  apply (index_error_leaves_dispatcher
        (Msg (Some "textDocument/hover") (Some (IdNumber 1))
             (Some (Prm None (Some (Pos (Some (-1)%Z) None)) None))) server_init).
  - cbn. tauto.
  - cbn. lia.
Defined.

Lemma did_open_stores_and_publishes_witness :
  let '(res, self', out) :=
    _handle_did_open (did_open_params "a.hal" "X: PROGRAM;")
                     (Srv init [("b.hal", "Y: TASK;")] true) in
  res = Ok RNone /\
  dict_get "a.hal" (documents self') = Some "X: PROGRAM;" /\
  (forall u, u <> "a.hal" ->
             dict_get u (documents self') = dict_get u [("b.hal", "Y: TASK;")]) /\
  parser self' = parse "X: PROGRAM;" init /\
  running self' = true /\
  out = [PublishDiagnostics "a.hal" []].
Proof.
  exact (did_open_stores_and_publishes (did_open_params "a.hal" "X: PROGRAM;")
                                       (Srv init [("b.hal", "Y: TASK;")] true)).
Defined.

(** * Reported positions against the input *)



















